(** * decora_bleak: the BLE connection and state-synchronisation engine

    A shallow embedding of [decora_bleak_device.py] (class [DecoraBLEDevice])
    and of the rediscovery handler of [light.py]
    ([DeviceInstance._async_reconnect_on_discovery]).

    Python coroutines are embedded as resumptions: a coroutine runs on the
    object it mutates until it finishes (returns or raises) or suspends at
    an [await] of the transport; the transport's answer and whatever
    happened to the object while the coroutine was suspended come back
    through the continuation.  The connection coordination of [connect()]
    (lock, in-flight task, several callers) is a step relation of its own
    in [Module Coordination].  [wait_for_device_connection] is modelled by
    the way its wait ends; the deferred-setup loop of [light.py] is outside
    the model. *)

From Stdlib Require Import List Strings.String Strings.Ascii Strings.Byte ZArith NArith Bool Arith Lia.
From Stdlib Require Import DecimalString.
From Stdlib Require Import Floats.
Import ListNotations.

Set Implicit Arguments.

(* ================================================================== *)
(** ** Bytes, text and floats as Python has them *)

Definition bytes := list byte.

Fixpoint bytes_eqb (a b : bytes) : bool :=
  match a, b with
  | [], [] => true
  | x :: a', y :: b' => Byte.eqb x y && bytes_eqb a' b'
  | _, _ => false
  end.

(** [b[lo:hi]] and [b[lo:]] for non-negative bounds. *)
Definition slice {A} (lo hi : nat) (l : list A) : list A :=
  firstn (hi - lo) (skipn lo l).

Definition slice_from {A} (lo : nat) (l : list A) : list A := skipn lo l.

Definition hex_digit (n : N) : ascii :=
  nth (N.to_nat n)
      ["0";"1";"2";"3";"4";"5";"6";"7";"8";"9";"a";"b";"c";"d";"e";"f"]%char
      "0"%char.

Definition hex_of_byte (b : byte) : string :=
  let n := Byte.to_N b in
  String (hex_digit (n / 16)) (String (hex_digit (n mod 16)) EmptyString).

(** [bytes.hex()] *)
Fixpoint hex (bs : bytes) : string :=
  match bs with
  | [] => EmptyString
  | b :: rest => hex_of_byte b ++ hex rest
  end.

(** [str.lower()], on the ASCII letters. *)
Definition lower_ascii (c : ascii) : ascii :=
  let n := nat_of_ascii c in
  if (65 <=? n) && (n <=? 90) then ascii_of_nat (n + 32) else c.

Fixpoint lower (s : string) : string :=
  match s with
  | EmptyString => EmptyString
  | String c s' => String (lower_ascii c) (lower s')
  end.

(** [needle in hay] *)
Fixpoint contains (needle hay : string) : bool :=
  String.prefix needle hay
  || match hay with
     | EmptyString => false
     | String _ hay' => contains needle hay'
     end.

(** [str.removeprefix(p)] *)
Definition removeprefix (p s : string) : string :=
  if String.prefix p s then String.substring (String.length p) (String.length s - String.length p) s
  else s.

Definition is_space (c : ascii) : bool :=
  let n := nat_of_ascii c in
  ((9 <=? n) && (n <=? 13)) || ((28 <=? n) && (n <=? 32)).

Fixpoint lstrip (s : string) : string :=
  match s with
  | EmptyString => EmptyString
  | String c s' => if is_space c then lstrip s' else s
  end.

Fixpoint rstrip (s : string) : string :=
  match s with
  | EmptyString => EmptyString
  | String c s' =>
      match rstrip s' with
      | EmptyString => if is_space c then EmptyString else String c EmptyString
      | r => String c r
      end
  end.

(** [str.strip()] *)
Definition strip (s : string) : string := rstrip (lstrip s).

(* ================================================================== *)
(** ** Exceptions *)

(** Modelled from the spec: the exception classes of [exceptions.py], which
    is not among the sources ([DeviceConnectionError],
    [DeviceConnectionTimeoutError], [DeviceNotInPairingModeError],
    [IncorrectAPIKeyError]), as the error taxonomy of the spec has them:
    classes of their own, distinct from the transport's failures.  The
    other constructors are the Python and bleak exceptions the code meets. *)
Inductive exn : Type :=
| BleakError (msg : string)
| TimeoutError (msg : string)
| EOFError (msg : string)
| BrokenPipeError (msg : string)
| CancelledError
| DeviceConnectionError (msg : string)
| DeviceConnectionTimeoutError (msg : string)
| DeviceNotInPairingModeError
| IncorrectAPIKeyError
| RuntimeError (msg : string)
| ValueError (msg : string)
| IndexError (msg : string)
| TypeError (msg : string)
| AttributeError (msg : string)
| UnicodeDecodeError (msg : string).

(** [str(ex)] *)
Definition str_of_exn (e : exn) : string :=
  match e with
  | BleakError m | TimeoutError m | EOFError m | BrokenPipeError m
  | DeviceConnectionError m | DeviceConnectionTimeoutError m
  | RuntimeError m | ValueError m | IndexError m | TypeError m
  | AttributeError m | UnicodeDecodeError m => m
  | CancelledError | DeviceNotInPairingModeError | IncorrectAPIKeyError => EmptyString
  end.

(** [isinstance(e, Exception)]: everything but a cancellation, which derives
    from [BaseException]. *)
Definition is_Exception (e : exn) : bool :=
  match e with
  | CancelledError => false
  | _ => true
  end.

(** [isinstance(e, BLEAK_EXCEPTIONS)], the transport's family of retryable
    errors: [BLEAK_RETRY_EXCEPTIONS] of bleak_retry_connector is
    [(AttributeError, BleakError, EOFError, BrokenPipeError,
    asyncio.TimeoutError)]. *)
Definition in_BLEAK_EXCEPTIONS (e : exn) : bool :=
  match e with
  | AttributeError _ | BleakError _ | EOFError _ | BrokenPipeError _
  | TimeoutError _ => true
  | _ => false
  end.

Definition is_IncorrectAPIKeyError (e : exn) : bool :=
  match e with
  | IncorrectAPIKeyError => true
  | _ => false
  end.

(** The test of the retry loops: ["authorization" in error_msg or
    "authentication" in error_msg], on [str(ex).lower()]. *)
Definition is_authorization_error (e : exn) : bool :=
  let error_msg := lower (str_of_exn e) in
  contains "authorization" error_msg || contains "authentication" error_msg.

(* ================================================================== *)
(** ** The transport: operations a coroutine awaits *)

(** The characteristic and descriptor identifiers of [device_const.py]. *)
Inductive Uuid : Type :=
| EVENT_CHARACTERISTIC_UUID
| STATE_CHARACTERISTIC_UUID
| SYSTEM_ID_DESCRIPTOR_UUID
| MODEL_NUMBER_DESCRIPTOR_UUID
| SOFTWARE_REVISION_DESCRIPTOR_UUID
| MANUFACTURER_DESCRIPTOR_UUID.

Record BLEDevice : Type := {
  address : string;
  name : string
}.

(** A [BleakClient] handle and what its [is_connected] property reports. *)
Record BleakClient : Type := {
  is_connected : bool
}.

Inductive IoOp : Type :=
| OpEstablishConnection (d : BLEDevice)    (* establish_connection(BleakClient, device, ...) *)
| OpClientEnter (d : BLEDevice)            (* async with BleakClient(device): __aenter__ *)
| OpClientExit                             (* ... __aexit__ *)
| OpWriteGattChar (u : Uuid) (data : bytes)(* write_gatt_char(u, data, response=True) *)
| OpReadGattChar (u : Uuid)                (* read_gatt_char(u) *)
| OpStartNotify (u : Uuid)                 (* start_notify(u, callback) *)
| OpClientDisconnect                       (* client.disconnect() *)
| OpSleep (seconds : float)                (* asyncio.sleep(seconds) *)
| OpStartConnection.                       (* light_entity._async_start_connection() *)

Inductive Value : Type :=
| VNone
| VBytes (b : bytes)
| VClient (c : BleakClient).

Inductive IoReply : Type :=
| Reply (v : Value)
| Fail (e : exn).

(** What else happened while the coroutine was suspended. *)
Inductive EnvAct : Type :=
| Quiet
| LinkLost.     (* the transport called the [disconnected] callback *)

Inductive Outcome (A : Type) : Type :=
| Returned (a : A)
| Raised (e : exn).
Arguments Raised {A} e.

(* ================================================================== *)
(** ** Coroutines as resumptions over the state of the object *)

Section Coroutines.
Variable St : Type.

Inductive Coro (A : Type) : Type :=
| Fin (s : St) (r : Outcome A)
| Await (s : St) (op : IoOp) (k : IoReply -> St -> Coro A).

Definition M (A : Type) : Type := St -> Coro A.

Definition ret {A} (a : A) : M A := fun s => Fin s (Returned a).
Definition raise {A} (e : exn) : M A := fun s => Fin s (Raised e).

Fixpoint bindC {A B} (c : Coro A) (f : A -> M B) : Coro B :=
  match c with
  | Fin s (Returned a) => f a s
  | Fin s (Raised e) => Fin s (Raised e)
  | Await s op k => Await s op (fun r s' => bindC (k r s') f)
  end.

Definition bind {A B} (m : M A) (f : A -> M B) : M B :=
  fun s => bindC (m s) f.

Definition get : M St := fun s => Fin s (Returned s).
Definition modify (f : St -> St) : M unit := fun s => Fin (f s) (Returned tt).

(** [await op]: suspend with the object as it is; resume with the reply
    and the object as the suspension left it. *)
Definition await (op : IoOp) : M Value :=
  fun s => Await s op (fun r s' =>
    match r with
    | Reply v => Fin s' (Returned v)
    | Fail e => Fin s' (Raised e)
    end).

(** [try: m except ...]: [h e] is the handler of the first matching
    [except] clause, [None] when no clause matches. *)
Fixpoint catchC {A} (c : Coro A) (h : exn -> option (M A)) : Coro A :=
  match c with
  | Fin s (Returned a) => Fin s (Returned a)
  | Fin s (Raised e) =>
      match h e with
      | Some m => m s
      | None => Fin s (Raised e)
      end
  | Await s op k => Await s op (fun r s' => catchC (k r s') h)
  end.

Definition try_except {A} (m : M A) (h : exn -> option (M A)) : M A :=
  fun s => catchC (m s) h.

(** [try: m finally: fin]: [fin] runs on every exit; an exception of
    [fin] replaces the outcome of [m]. *)
Fixpoint finallyC {A} (c : Coro A) (fin : M unit) : Coro A :=
  match c with
  | Fin s r => bindC (fin s) (fun _ s' => Fin s' r)
  | Await s op k => Await s op (fun r s' => finallyC (k r s') fin)
  end.

Definition try_finally {A} (m : M A) (fin : M unit) : M A :=
  fun s => finallyC (m s) fin.

(** [with contextlib.suppress(Exception): m] *)
Definition suppress_Exception (m : M unit) : M unit :=
  try_except m (fun e => if is_Exception e then Some (ret tt) else None).

(** Running one coroutine against a script of transport replies; the
    operations awaited are returned in order.  [None]: the script ended
    while the coroutine was suspended. *)
Variable interfere : EnvAct -> St -> St.

Fixpoint run {A} (c : Coro A) (script : list (IoReply * EnvAct))
  : option (St * Outcome A * list IoOp) :=
  match c with
  | Fin s r => Some (s, r, [])
  | Await s op k =>
      match script with
      | [] => None
      | (r, act) :: rest =>
          match run (k r (interfere act s)) rest with
          | Some (s', o, ops) => Some (s', o, op :: ops)
          | None => None
          end
      end
  end.
End Coroutines.

Arguments Fin {St A} s r.
Arguments Await {St A} s op k.
Arguments ret {St A} a _.
Arguments raise {St A} e _.
Arguments get {St} _.
Arguments modify {St} f _.
Arguments await {St} op _.

Declare Scope coro_scope.
Delimit Scope coro_scope with coro.
Notation "x <- m ;; k" := (bind m (fun x => k))
  (at level 100, m at next level, right associativity) : coro_scope.
Notation "m ;; k" := (bind m (fun _ => k))
  (at level 100, right associativity) : coro_scope.
Open Scope coro_scope.

(** A coroutine of an object held inside a larger one (a lens). *)
Section Lift.
Variables (Inner Outer : Type).
Variable view : Outer -> Inner.
Variable update : Inner -> Outer -> Outer.

Fixpoint liftC {A} (c : Coro Inner A) (o : Outer) : Coro Outer A :=
  match c with
  | Fin s r => Fin (update s o) r
  | Await s op k =>
      Await (update s o) op (fun r o' => liftC (k r (view o')) o')
  end.

Definition lift {A} (m : M Inner A) : M Outer A :=
  fun o => liftC (m (view o)) o.
End Lift.

(* ================================================================== *)
(** ** Data model of [DecoraBLEDevice] *)

(** Modelled from the spec: [DecoraBLEDeviceState] of [models.py], which is
    not among the sources: a dataclass of on/off and brightness whose
    default value is off, brightness 0. *)
Record DecoraBLEDeviceState : Type := {
  is_on : bool;
  brightness_level : Z
}.

Definition default_state : DecoraBLEDeviceState :=
  {| is_on := false; brightness_level := 0 |}.

(** Modelled from the spec: [DecoraBLEDeviceSummary] of [models.py], the four
    fields [_summarize] fills. *)
Record DecoraBLEDeviceSummary : Type := {
  system_identifier : string;
  manufacturer : string;
  model : string;
  software_revision : option string
}.

(** An [asyncio.Future[None]]. *)
Inductive Future : Type :=
| FPending
| FResult
| FException (e : exn)
| FCancelled.

Definition done (f : Future) : bool :=
  match f with
  | FPending => false
  | _ => true
  end.

(** A registered observer: a callable, known by an identity, that returns
    or raises on the value it is given.  Observers do not touch the device. *)
Record Callback (A : Type) : Type := {
  cb_id : nat;
  cb_raises : A -> option exn
}.

(** The fields of the object.  [_state] always holds a
    [DecoraBLEDeviceState]: [__init__], [_disconnect_cleanup],
    [_apply_device_state_data] and [_write_state] are its only writers and
    each stores one, so the field is not optional here.  The lock and the
    in-flight task of [connect()] are in [Module Coordination]. *)
Record DecoraBLEDevice : Type := {
  _device : BLEDevice;
  _key : bytes;
  _running : bool;
  _device_connection_future : option Future;
  _client : option BleakClient;
  _summary : option DecoraBLEDeviceSummary;
  _state : DecoraBLEDeviceState;
  _connection_callbacks : list (Callback DecoraBLEDeviceSummary);
  _state_callbacks : list (Callback DecoraBLEDeviceState)
}.

(** What the observers have been called with, oldest first. *)
Inductive Observation : Type :=
| SummaryObserved (id : nat) (s : DecoraBLEDeviceSummary)
| StateObserved (id : nat) (s : DecoraBLEDeviceState).

Record World : Type := {
  self : DecoraBLEDevice;
  observed : list Observation
}.

(** [DecoraBLEDevice.__init__], with [key = bytearray.fromhex(api_key)]. *)
Definition init (device : BLEDevice) (key : bytes) : DecoraBLEDevice :=
  {| _device := device;
     _key := key;
     _running := false;
     _device_connection_future := None;
     _client := None;
     _summary := None;
     _state := default_state;
     _connection_callbacks := [];
     _state_callbacks := [] |}.

Definition new_world (device : BLEDevice) (key : bytes) : World :=
  {| self := init device key; observed := [] |}.

Definition set_client (c : option BleakClient) (d : DecoraBLEDevice) : DecoraBLEDevice :=
  {| _device := _device d; _key := _key d; _running := _running d;
     _device_connection_future := _device_connection_future d;
     _client := c; _summary := _summary d; _state := _state d;
     _connection_callbacks := _connection_callbacks d;
     _state_callbacks := _state_callbacks d |}.

Definition set_summary (s : option DecoraBLEDeviceSummary) (d : DecoraBLEDevice) : DecoraBLEDevice :=
  {| _device := _device d; _key := _key d; _running := _running d;
     _device_connection_future := _device_connection_future d;
     _client := _client d; _summary := s; _state := _state d;
     _connection_callbacks := _connection_callbacks d;
     _state_callbacks := _state_callbacks d |}.

Definition set_state (s : DecoraBLEDeviceState) (d : DecoraBLEDevice) : DecoraBLEDevice :=
  {| _device := _device d; _key := _key d; _running := _running d;
     _device_connection_future := _device_connection_future d;
     _client := _client d; _summary := _summary d; _state := s;
     _connection_callbacks := _connection_callbacks d;
     _state_callbacks := _state_callbacks d |}.

Definition set_future (f : option Future) (d : DecoraBLEDevice) : DecoraBLEDevice :=
  {| _device := _device d; _key := _key d; _running := _running d;
     _device_connection_future := f;
     _client := _client d; _summary := _summary d; _state := _state d;
     _connection_callbacks := _connection_callbacks d;
     _state_callbacks := _state_callbacks d |}.

Definition set_running (b : bool) (d : DecoraBLEDevice) : DecoraBLEDevice :=
  {| _device := _device d; _key := _key d; _running := b;
     _device_connection_future := _device_connection_future d;
     _client := _client d; _summary := _summary d; _state := _state d;
     _connection_callbacks := _connection_callbacks d;
     _state_callbacks := _state_callbacks d |}.

Definition set_connection_callbacks (l : list (Callback DecoraBLEDeviceSummary))
    (d : DecoraBLEDevice) : DecoraBLEDevice :=
  {| _device := _device d; _key := _key d; _running := _running d;
     _device_connection_future := _device_connection_future d;
     _client := _client d; _summary := _summary d; _state := _state d;
     _connection_callbacks := l;
     _state_callbacks := _state_callbacks d |}.

Definition set_state_callbacks (l : list (Callback DecoraBLEDeviceState))
    (d : DecoraBLEDevice) : DecoraBLEDevice :=
  {| _device := _device d; _key := _key d; _running := _running d;
     _device_connection_future := _device_connection_future d;
     _client := _client d; _summary := _summary d; _state := _state d;
     _connection_callbacks := _connection_callbacks d;
     _state_callbacks := l |}.

Definition on_self (f : DecoraBLEDevice -> DecoraBLEDevice) (w : World) : World :=
  {| self := f (self w); observed := observed w |}.

Definition observe (o : Observation) (w : World) : World :=
  {| self := self w; observed := observed w ++ [o] |}.

(** The coroutines and methods of the device run on [World]. *)
Definition Dev (A : Type) : Type := M World A.

Definition this : Dev DecoraBLEDevice := fun w => Fin w (Returned (self w)).
Definition update (f : DecoraBLEDevice -> DecoraBLEDevice) : Dev unit :=
  modify (on_self f).

(** [self._client.<method>]: the attribute lookup fails on [None]. *)
Definition the_client : Dev BleakClient :=
  d <- this ;;
  match _client d with
  | Some c => ret c
  | None => raise (AttributeError "'NoneType' object has no attribute")
  end.

Definition expect_bytes {St} (v : Value) : M St bytes :=
  match v with
  | VBytes b => ret b
  | _ => raise (TypeError "bytes expected")
  end.

Definition expect_client {St} (v : Value) : M St BleakClient :=
  match v with
  | VClient c => ret c
  | _ => raise (TypeError "client expected")
  end.

(** [await self._client.read_gatt_char(u)] *)
Definition client_read (u : Uuid) : Dev bytes :=
  _ <- the_client ;; v <- await (OpReadGattChar u) ;; expect_bytes v.

(** [await self._client.write_gatt_char(u, data, response=True)] *)
Definition client_write (u : Uuid) (data : bytes) : Dev unit :=
  _ <- the_client ;; _ <- await (OpWriteGattChar u data) ;; ret tt.

(** [await self._client.disconnect()] *)
Definition client_disconnect : Dev unit :=
  _ <- the_client ;; _ <- await OpClientDisconnect ;; ret tt.

Definition sleep {St} (seconds : float) : M St unit :=
  _ <- await (OpSleep seconds) ;; ret tt.

(** The [is_connected] property. *)
Definition device_is_connected (d : DecoraBLEDevice) : bool :=
  match _client d with
  | Some c => is_connected c
  | None => false
  end.

(** [_disconnect_cleanup] *)
Definition _disconnect_cleanup (d : DecoraBLEDevice) : DecoraBLEDevice :=
  set_state default_state (set_summary None (set_client None d)).

(** The [disconnected] callback handed to [establish_connection]: what the
    transport runs on the device when the link drops. *)
Definition interfere (a : EnvAct) (w : World) : World :=
  match a with
  | Quiet => w
  | LinkLost => on_self _disconnect_cleanup w
  end.

Definition run_dev {A} (m : Dev A) (w : World) (script : list (IoReply * EnvAct))
  : option (World * Outcome A * list IoOp) :=
  run interfere (m w) script.

(** [_handle_device_connection] *)
Definition _handle_device_connection (exception : option exn) (d : DecoraBLEDevice)
  : DecoraBLEDevice :=
  match _device_connection_future d with
  | None => d
  | Some f =>
      if done f then d
      else match exception with
           | Some e => set_future (Some (FException e)) d
           | None => set_future (Some FResult) d
           end
  end.

(** [start] *)
Definition start : Dev unit :=
  d <- this ;;
  if _running d then raise (RuntimeError "Already running")
  else update (fun d => set_future (Some FPending) (set_running true d)).

(** Calling one observer. *)
Definition call_state_callback (cb : Callback DecoraBLEDeviceState)
    (s : DecoraBLEDeviceState) : Dev unit :=
  modify (observe (StateObserved (cb_id cb) s)) ;;
  match cb_raises cb s with
  | Some e => raise e
  | None => ret tt
  end.

Definition call_connection_callback (cb : Callback DecoraBLEDeviceSummary)
    (s : DecoraBLEDeviceSummary) : Dev unit :=
  modify (observe (SummaryObserved (cb_id cb) s)) ;;
  match cb_raises cb s with
  | Some e => raise e
  | None => ret tt
  end.

(** [for callback in callbacks: callback(x)] *)
Fixpoint for_each {A} (call : A -> Dev unit) (l : list A) : Dev unit :=
  match l with
  | [] => ret tt
  | x :: rest => call x ;; for_each call rest
  end.

(** [_fire_connection_callbacks] *)
Definition _fire_connection_callbacks (summary : DecoraBLEDeviceSummary) : Dev unit :=
  d <- this ;;
  for_each (fun cb => call_connection_callback cb summary) (_connection_callbacks d).

(** [_fire_state_callbacks] *)
Definition _fire_state_callbacks (state : DecoraBLEDeviceState) : Dev unit :=
  d <- this ;;
  for_each (fun cb => call_state_callback cb state) (_state_callbacks d).

(** [self._fire_state_callbacks(self._state)], as [_read_state] and the
    notification callback call it. *)
Definition fire_current_state : Dev unit :=
  d <- this ;; _fire_state_callbacks (_state d).

(* ================================================================== *)
(** ** Observer registration *)

(** [register_connection_callback]: append, then replay the summary if
    there is one.  (The closure it returns is [unregister_connection_callback].) *)
Definition register_connection_callback (callback : Callback DecoraBLEDeviceSummary)
  : Dev unit :=
  update (fun d => set_connection_callbacks (_connection_callbacks d ++ [callback]) d) ;;
  d <- this ;;
  match _summary d with
  | Some summary => call_connection_callback callback summary
  | None => ret tt
  end.

(** [register_state_callback]: append, then replay the state.  The guard
    [self._state is not None] of the source is always taken, the field
    never being [None]. *)
Definition register_state_callback (callback : Callback DecoraBLEDeviceState)
  : Dev unit :=
  update (fun d => set_state_callbacks (_state_callbacks d ++ [callback]) d) ;;
  d <- this ;;
  call_state_callback callback (_state d).

(** [list.remove(x)]: drop the first element equal to [x] (observers are
    compared by identity); [None] stands for Python's [ValueError]. *)
Fixpoint remove_first {A} (id : nat) (l : list (Callback A)) : option (list (Callback A)) :=
  match l with
  | [] => None
  | cb :: rest =>
      if Nat.eqb (cb_id cb) id then Some rest
      else match remove_first id rest with
           | Some rest' => Some (cb :: rest')
           | None => None
           end
  end.

Definition unregister_state_callback (callback : Callback DecoraBLEDeviceState)
  : Dev unit :=
  d <- this ;;
  match remove_first (cb_id callback) (_state_callbacks d) with
  | Some l => update (set_state_callbacks l)
  | None => raise (ValueError "list.remove(x): x not in list")
  end.

Definition unregister_connection_callback (callback : Callback DecoraBLEDeviceSummary)
  : Dev unit :=
  d <- this ;;
  match remove_first (cb_id callback) (_connection_callbacks d) with
  | Some l => update (set_connection_callbacks l)
  | None => raise (ValueError "list.remove(x): x not in list")
  end.

(* ================================================================== *)
(** ** Key retrieval *)

Section PairingKey.
(** The sentinel of [device_const.py] that a device outside pairing mode
    answers with; the constant is not among the sources. *)
Variable UNPAIRED_API_KEY : bytes.
Variable St : Type.

(** What [get_api_key] makes of the response it has read. *)
Definition api_key_of_response (rawkey : bytes) : Outcome string :=
  if negb (bytes_eqb (slice 2 6 rawkey) UNPAIRED_API_KEY)
  then Returned (hex (slice_from 2 rawkey))
  else Raised DeviceNotInPairingModeError.

(** [get_api_key], a static method on a client of its own. *)
Definition get_api_key (device : BLEDevice) : M St string :=
  _ <- await (OpClientEnter device) ;;
  try_finally
    (_ <- await (OpWriteGattChar EVENT_CHARACTERISTIC_UUID
                   [x22; x53; x00; x00; x00; x00; x00]) ;;
     v <- await (OpReadGattChar EVENT_CHARACTERISTIC_UUID) ;;
     rawkey <- expect_bytes v ;;
     match api_key_of_response rawkey with
     | Returned key => ret key
     | Raised e => raise e
     end)
    (_ <- await OpClientExit ;; ret tt).
End PairingKey.

(** A standalone run of a static coroutine: nothing to interfere with. *)
Definition run_static {A} (m : M unit A) (script : list (IoReply * EnvAct))
  : option (Outcome A * list IoOp) :=
  match run (fun _ s => s) (m tt) script with
  | Some (_, o, ops) => Some (o, ops)
  | None => None
  end.

(* ================================================================== *)
(** ** State synchroniser *)

(** An element of [bytearray([...])]: an int in [range(256)]. *)
Definition byte_of_int (z : Z) : option byte :=
  if (0 <=? z)%Z && (z <? 256)%Z then Byte.of_N (Z.to_N z) else None.

Definition int_of_byte (b : byte) : Z := Z.of_N (Byte.to_N b).

(** [dataclasses.replace] on the two fields. *)
Definition replace_is_on (v : bool) (s : DecoraBLEDeviceState) : DecoraBLEDeviceState :=
  {| is_on := v; brightness_level := brightness_level s |}.

Definition replace_brightness_level (v : Z) (s : DecoraBLEDeviceState) : DecoraBLEDeviceState :=
  {| is_on := is_on s; brightness_level := v |}.

(** [_apply_device_state_data]: [data[0]] and [data[1]] are read first. *)
Definition _apply_device_state_data (data : bytes) : Dev unit :=
  match data with
  | b0 :: b1 :: _ =>
      update (fun d =>
        set_state (replace_brightness_level (int_of_byte b1)
                     (replace_is_on (Byte.eqb b0 x01) (_state d))) d)
  | _ => raise (IndexError "bytearray index out of range")
  end.

(** The packet of [_write_state]: [bytearray([1 if state.is_on else 0,
    state.brightness_level])]. *)
Definition state_packet (state : DecoraBLEDeviceState) : option bytes :=
  match byte_of_int (brightness_level state) with
  | Some b => Some [(if is_on state then x01 else x00); b]
  | None => None
  end.

(** [_write_state] *)
Definition _write_state (state : DecoraBLEDeviceState) : Dev unit :=
  update (set_state state) ;;
  match state_packet state with
  | Some packet => client_write STATE_CHARACTERISTIC_UUID packet
  | None => raise (ValueError "byte must be in range(0, 256)")
  end.

(** [_read_state] *)
Definition _read_state : Dev unit :=
  data <- client_read STATE_CHARACTERISTIC_UUID ;;
  _apply_device_state_data data ;;
  fire_current_state.

(** The callback [_register_for_state_notifications] installs, called by
    the transport with each notification payload. *)
Definition notification_callback (data : bytes) : Dev unit :=
  _apply_device_state_data data ;;
  fire_current_state.

(** [turn_on] *)
Definition turn_on (brightness_level' : option Z) : Dev unit :=
  d <- this ;;
  let level := match brightness_level' with
               | Some l => l
               | None => brightness_level (_state d)
               end in
  _write_state (replace_brightness_level level (replace_is_on true (_state d))).

(** [turn_off] *)
Definition turn_off : Dev unit :=
  d <- this ;;
  _write_state (replace_is_on false (_state d)).

(** [set_brightness_level] *)
Definition set_brightness_level (level : Z) : Dev unit :=
  d <- this ;;
  _write_state (replace_brightness_level level (_state d)).

(* ================================================================== *)
(** ** Retry loops *)

Set Warnings "-inexact-float".

Definition max_retries : nat := 3.
Definition descriptor_retry_delay : float := 0.3%float.
Definition notify_retry_delay : float := 0.4%float.
Definition unlock_settle_delay : float := 0.5%float.

(** [if not self._client or not self._client.is_connected: raise
    DeviceConnectionError(msg)] *)
Definition check_still_connected (msg : string) : Dev unit :=
  d <- this ;;
  if negb (device_is_connected d) then raise (DeviceConnectionError msg)
  else ret tt.

(** The loop [for attempt in range(max_retries)] of
    [read_summary_descriptor], on the attempts still to make. *)
Fixpoint read_summary_attempts (descriptor : string) (descriptor_uuid : Uuid)
    (attempts : list nat) (last_exception : option exn) : Dev bytes :=
  match attempts with
  | [] =>
      raise (match last_exception with
             | Some e => e
             | None => DeviceConnectionError ("Failed to read " ++ descriptor)
             end)
  | attempt :: rest =>
      try_except (client_read descriptor_uuid)
        (fun ex =>
           if in_BLEAK_EXCEPTIONS ex then Some
             (if is_authorization_error ex then
                (if attempt <? max_retries - 1 then
                   sleep descriptor_retry_delay ;;
                   check_still_connected
                     ("Client disconnected while reading " ++ descriptor)
                 else ret tt) ;;
                read_summary_attempts descriptor descriptor_uuid rest (Some ex)
              else raise ex)
           else None)
  end.

(** [read_summary_descriptor] *)
Definition read_summary_descriptor (descriptor : string) (descriptor_uuid : Uuid)
  : Dev bytes :=
  read_summary_attempts descriptor descriptor_uuid (seq 0 max_retries) None.

(** The loop of [_register_for_state_notifications]. *)
Fixpoint start_notify_attempts (attempts : list nat) (last_exception : option exn)
  : Dev unit :=
  match attempts with
  | [] =>
      raise (match last_exception with
             | Some e => e
             | None => DeviceConnectionError "Failed to register for notifications"
             end)
  | attempt :: rest =>
      try_except
        (_ <- the_client ;; _ <- await (OpStartNotify STATE_CHARACTERISTIC_UUID) ;; ret tt)
        (fun ex =>
           if in_BLEAK_EXCEPTIONS ex then Some
             ((if attempt <? max_retries - 1 then
                 sleep notify_retry_delay ;;
                 check_still_connected
                   "Client disconnected during notification registration"
               else ret tt) ;;
              start_notify_attempts rest (Some ex))
           else None)
  end.

(** [_register_for_state_notifications] *)
Definition _register_for_state_notifications : Dev unit :=
  start_notify_attempts (seq 0 max_retries) None.

(* ================================================================== *)
(** ** Device summary *)

(** [bytes.decode('utf-8')] on ASCII text; a byte outside ASCII is reported
    as a decoding error (multi-byte sequences are outside the model). *)
Definition decode_utf8 (b : bytes) : Outcome string :=
  if forallb (fun x => (Byte.to_N x <? 128)%N) b
  then Returned (string_of_list_byte b)
  else Raised (UnicodeDecodeError "'utf-8' codec can't decode byte").

Definition decode {St} (b : bytes) : M St string :=
  match decode_utf8 b with
  | Returned s => ret s
  | Raised e => raise e
  end.

(** [_revision_string] *)
Definition _revision_string {St} (value : bytes) (prefix : string) : M St (option string) :=
  text <- decode value ;;
  let stripped_value := removeprefix prefix text in
  if 0 <? String.length stripped_value then ret (Some (strip stripped_value))
  else ret None.

(** [_summarize] *)
Definition _summarize : Dev DecoraBLEDeviceSummary :=
  system_identifier' <- read_summary_descriptor "system_identifier" SYSTEM_ID_DESCRIPTOR_UUID ;;
  manufacturer' <- read_summary_descriptor "manufacturer" MANUFACTURER_DESCRIPTOR_UUID ;;
  model' <- read_summary_descriptor "model" MODEL_NUMBER_DESCRIPTOR_UUID ;;
  software_revision' <- read_summary_descriptor "software_revision" SOFTWARE_REVISION_DESCRIPTOR_UUID ;;
  m <- decode manufacturer' ;;
  mo <- decode model' ;;
  rev <- _revision_string software_revision' "Software Revision" ;;
  ret {| system_identifier := hex system_identifier';
         manufacturer := m;
         model := mo;
         software_revision := rev |}.

(* ================================================================== *)
(** ** Connection state machine *)

(** [_unlock]: the packet is [0x11, 0x53] followed by the key; the handler
    of the source logs and re-raises. *)
Definition _unlock : Dev unit :=
  d <- this ;;
  client_write EVENT_CHARACTERISTIC_UUID (x11 :: x53 :: _key d).

(** [if self._client: with contextlib.suppress(Exception): await
    self._client.disconnect()] *)
Definition close_session_quietly : Dev unit :=
  d <- this ;;
  match _client d with
  | Some _ => suppress_Exception (_ <- await OpClientDisconnect ;; ret tt)
  | None => ret tt
  end.

(** The body the three handlers of [_do_connect] share: resolve the future
    with the failure, close the session, clean up, raise. *)
Definition fail_connect (reported : exn) (raised : exn) : Dev unit :=
  update (_handle_device_connection (Some reported)) ;;
  close_session_quietly ;;
  update _disconnect_cleanup ;;
  raise raised.

(** The first [try] of [_do_connect]: establish the session and unlock. *)
Definition establish_and_unlock : Dev unit :=
  try_except
    (d <- this ;;
     v <- await (OpEstablishConnection (_device d)) ;;
     c <- expect_client v ;;
     update (set_client (Some c)) ;;
     _unlock)
    (fun ex =>
       if is_IncorrectAPIKeyError ex then
         Some (fail_connect IncorrectAPIKeyError ex)
       else if is_Exception ex then
         Some (fail_connect ex (DeviceConnectionError (str_of_exn ex)))
       else None).

(** The inner [try] of the second block: the verification read; any
    [Exception] becomes [IncorrectAPIKeyError]. *)
Definition verify_unlock : Dev unit :=
  try_except
    (_ <- client_read STATE_CHARACTERISTIC_UUID ;; ret tt)
    (fun ex => if is_Exception ex then Some (raise IncorrectAPIKeyError) else None).

(** The second [try] of [_do_connect]; its only handler is
    [except BLEAK_EXCEPTIONS]. *)
Definition verify_and_subscribe : Dev unit :=
  try_except
    (check_still_connected "Client disconnected after unlock" ;;
     sleep unlock_settle_delay ;;
     verify_unlock ;;
     _register_for_state_notifications ;;
     summary <- _summarize ;;
     update (set_summary (Some summary)) ;;
     update (_handle_device_connection None) ;;
     _fire_connection_callbacks summary ;;
     _read_state ;;
     (* the closing debug line reads self._client.is_connected *)
     _ <- the_client ;;
     ret tt)
    (fun ex =>
       if in_BLEAK_EXCEPTIONS ex then Some (fail_connect ex IncorrectAPIKeyError)
       else None).

(** [_do_connect] *)
Definition _do_connect : Dev unit :=
  establish_and_unlock ;;
  verify_and_subscribe.

(** [disconnect] *)
Definition disconnect : Dev unit :=
  try_finally
    (d <- this ;;
     match _client d with
     | Some c => if is_connected c then client_disconnect else ret tt
     | None => ret tt
     end)
    (update _disconnect_cleanup).

(* ================================================================== *)
(** ** Reconnection orchestrator ([light.py]) *)

(** [DeviceInstance]: the device it wraps (with the observers' log), the
    entry id of its light entity and the two fields of the rediscovery
    guard.  [entry_id = None] stands for a light entity whose
    [_entry.entry_id] cannot be read, the case the handler catches. *)
Record DeviceInstance : Type := {
  device : World;
  entry_id : option string;
  _reconnect_task_scheduled : bool;
  _last_connection_attempt : float
}.

(** [DeviceInstance.__init__] *)
Definition new_instance (w : World) (entry : option string) : DeviceInstance :=
  {| device := w;
     entry_id := entry;
     _reconnect_task_scheduled := false;
     _last_connection_attempt := 0%float |}.

Definition set_device (w : World) (i : DeviceInstance) : DeviceInstance :=
  {| device := w; entry_id := entry_id i;
     _reconnect_task_scheduled := _reconnect_task_scheduled i;
     _last_connection_attempt := _last_connection_attempt i |}.

Definition set_scheduled (b : bool) (i : DeviceInstance) : DeviceInstance :=
  {| device := device i; entry_id := entry_id i;
     _reconnect_task_scheduled := b;
     _last_connection_attempt := _last_connection_attempt i |}.

Definition set_last_attempt (t : float) (i : DeviceInstance) : DeviceInstance :=
  {| device := device i; entry_id := entry_id i;
     _reconnect_task_scheduled := _reconnect_task_scheduled i;
     _last_connection_attempt := t |}.

Definition Inst (A : Type) : Type := M DeviceInstance A.

Definition on_device {A} (m : Dev A) : Inst A := lift device set_device m.

Definition interfere_instance (a : EnvAct) (i : DeviceInstance) : DeviceInstance :=
  set_device (interfere a (device i)) i.

Definition run_inst {A} (m : Inst A) (i : DeviceInstance)
    (script : list (IoReply * EnvAct))
  : option (DeviceInstance * Outcome A * list IoOp) :=
  run interfere_instance (m i) script.

(** [sum(ord(c) for c in s)] *)
Fixpoint sum_ord (s : string) : Z :=
  match s with
  | EmptyString => 0
  | String c s' => Z.of_nat (nat_of_ascii c) + sum_ord s'
  end.

(** [(sum(ord(c) for c in entry_id) % 50) / 100.0], or [0.2] when the entry
    id cannot be read. *)
Definition stagger_offset (entry : option string) : float :=
  match entry with
  | Some s => PrimFloat.div (PrimFloat.of_uint63 (Uint63.of_Z (sum_ord s mod 50))) 100%float
  | None => 0.2%float
  end.

Definition reconnect_delay (entry : option string) : float :=
  PrimFloat.add 0.1%float (stagger_offset entry).

Definition reconnect_cooldown : float := 5%float.

(** The guard of [_async_reconnect_on_discovery]: [true] when the signal is
    dropped. *)
Definition rediscovery_dropped (now : float) (i : DeviceInstance) : bool :=
  PrimFloat.ltb (PrimFloat.sub now (_last_connection_attempt i)) reconnect_cooldown
  || _reconnect_task_scheduled i.

(** The reconnection attempt proper, the body of the outer [try]. *)
Definition staggered_reconnect : Inst unit :=
  i <- get ;;
  sleep (reconnect_delay (entry_id i)) ;;
  i <- get ;;
  (if device_is_connected (self (device i))
   then on_device disconnect ;; sleep 1%float
   else ret tt) ;;
  _ <- await OpStartConnection ;;
  ret tt.

(** [_async_reconnect_on_discovery], with [now = time.monotonic()] as read
    on entry. *)
Definition _async_reconnect_on_discovery (now : float) : Inst unit :=
  i <- get ;;
  if PrimFloat.ltb (PrimFloat.sub now (_last_connection_attempt i)) reconnect_cooldown
  then ret tt
  else if _reconnect_task_scheduled i then ret tt
  else
    modify (fun i => set_last_attempt now (set_scheduled true i)) ;;
    try_finally
      (try_except staggered_reconnect
         (fun ex => if is_Exception ex then Some (ret tt) else None))
      (modify (set_scheduled false)).

(* ================================================================== *)
(** ** Coordination of concurrent [connect()] calls *)

(** The event loop runs one coroutine at a time, from one suspension to the
    next.  Each call of [connect()] is a caller with a program point; each
    [asyncio.create_task(self._do_connect())] is an attempt, whose outcome
    and whose effect on [is_connected] the transport decides.  An attempt
    assigns [self._client] when [establish_connection] returns, before the
    unlock and all that follows: [is_connected] is true from there on while
    the attempt is still running.  Callers are not cancelled. *)
Module Coordination.

Inductive Result : Type :=
| Success
| Failure (e : exn).

Inductive Pc : Type :=
| Idle                    (* connect() not called yet *)
| Called                  (* called, before the fast-path check *)
| WaitLock                (* suspended in [async with self._connect_lock] *)
| AwaitJoined (t : nat)   (* holds the lock, awaits the attempt found in flight *)
| AwaitOwn (t : nat)      (* holds the lock, awaits the attempt it created *)
| Finished (r : Result).  (* returned or raised *)

Inductive TaskState : Type :=
| Unborn
| Running
| Completed (r : Result).

Record Sys : Type := {
  connected : bool;                  (* self.is_connected *)
  _connect_lock : option nat;        (* the caller holding the lock *)
  _connection_task : option nat;     (* the in-flight handle *)
  tasks : nat -> TaskState;          (* every attempt, by creation order *)
  created : nat;
  pc : nat -> Pc
}.

Definition upd {A} (f : nat -> A) (i : nat) (v : A) : nat -> A :=
  fun j => if Nat.eqb j i then v else f j.

Definition init (c : bool) : Sys :=
  {| connected := c; _connect_lock := None; _connection_task := None;
     tasks := fun _ => Unborn; created := 0; pc := fun _ => Idle |}.

Definition set_pc (i : nat) (p : Pc) (s : Sys) : Sys :=
  {| connected := connected s; _connect_lock := _connect_lock s;
     _connection_task := _connection_task s; tasks := tasks s;
     created := created s; pc := upd (pc s) i p |}.

Definition set_lock (l : option nat) (s : Sys) : Sys :=
  {| connected := connected s; _connect_lock := l;
     _connection_task := _connection_task s; tasks := tasks s;
     created := created s; pc := pc s |}.

Definition set_connection_task (t : option nat) (s : Sys) : Sys :=
  {| connected := connected s; _connect_lock := _connect_lock s;
     _connection_task := t; tasks := tasks s;
     created := created s; pc := pc s |}.

Definition set_connected (c : bool) (s : Sys) : Sys :=
  {| connected := c; _connect_lock := _connect_lock s;
     _connection_task := _connection_task s; tasks := tasks s;
     created := created s; pc := pc s |}.

Definition set_task (t : nat) (ts : TaskState) (s : Sys) : Sys :=
  {| connected := connected s; _connect_lock := _connect_lock s;
     _connection_task := _connection_task s; tasks := upd (tasks s) t ts;
     created := created s; pc := pc s |}.

(** [self._connection_task = asyncio.create_task(self._do_connect())],
    then [await self._connection_task], by a caller that has the lock. *)
Definition start_attempt (i : nat) (s : Sys) : Sys :=
  let t := created s in
  {| connected := connected s; _connect_lock := Some i;
     _connection_task := Some t; tasks := upd (tasks s) t Running;
     created := S t; pc := upd (pc s) i (AwaitOwn t) |}.

(** Leaving [async with self._connect_lock] with an outcome. *)
Definition leave (i : nat) (r : Result) (s : Sys) : Sys :=
  set_lock None (set_pc i (Finished r) s).

Inductive Action : Type :=
| Call (i : nat)                              (* connect() is called *)
| Resume (i : nat)                            (* caller [i] runs to its next suspension *)
| Complete (t : nat) (r : Result) (c : bool)  (* attempt [t] ends; [is_connected] after it *)
| Drop                                        (* the link is lost *)
| Establish (t : nat).                        (* attempt [t] has its session: [self._client] is set *)

(** One turn of the event loop; [None] when the action cannot happen. *)
Definition step (a : Action) (s : Sys) : option Sys :=
  match a with
  | Call i =>
      match pc s i with
      | Idle => Some (set_pc i Called s)
      | _ => None
      end
  | Resume i =>
      match pc s i with
      | Called =>
          if connected s then Some (set_pc i (Finished Success) s)
          else Some (set_pc i WaitLock s)
      | WaitLock =>
          match _connect_lock s with
          | Some _ => None
          | None =>
              if connected s then Some (set_pc i (Finished Success) s)
              else
                match _connection_task s with
                | Some t =>
                    match tasks s t with
                    | Running => Some (set_lock (Some i) (set_pc i (AwaitJoined t) s))
                    | _ => Some (start_attempt i s)
                    end
                | None => Some (start_attempt i s)
                end
          end
      | AwaitJoined t =>
          match tasks s t with
          | Completed Success => Some (leave i Success s)
          | Completed (Failure e) =>
              if is_Exception e then Some (start_attempt i s)
              else Some (leave i (Failure e) s)
          | _ => None
          end
      | AwaitOwn t =>
          match tasks s t with
          | Completed r => Some (leave i r (set_connection_task None s))
          | _ => None
          end
      | _ => None
      end
  | Complete t r c =>
      match tasks s t with
      | Running => Some (set_connected c (set_task t (Completed r) s))
      | _ => None
      end
  | Drop => Some (set_connected false s)
  | Establish t =>
      match tasks s t with
      | Running => Some (set_connected true s)
      | _ => None
      end
  end.

Fixpoint exec (acts : list Action) (s : Sys) : option Sys :=
  match acts with
  | [] => Some s
  | a :: rest =>
      match step a s with
      | Some s' => exec rest s'
      | None => None
      end
  end.

(** The outcome caller [i] has observed after [acts]. *)
Definition outcome (acts : list Action) (c : bool) (i : nat) : option Result :=
  match exec acts (init c) with
  | Some s =>
      match pc s i with
      | Finished r => Some r
      | _ => None
      end
  | None => None
  end.

(** At most one attempt is running. *)
Definition at_most_one_running (s : Sys) : Prop :=
  forall t t', tasks s t = Running -> tasks s t' = Running -> t = t'.

(** No caller awaits an attempt another caller started. *)
Definition nobody_joined (s : Sys) : Prop :=
  forall i t, pc s i <> AwaitJoined t.

(** Every attempt in flight is awaited by the caller that created it,
    and that caller holds the lock. *)
Definition owned_by_lock_holder (s : Sys) : Prop :=
  forall t, tasks s t = Running ->
    exists i, _connect_lock s = Some i /\ pc s i = AwaitOwn t.

Definition Inv (s : Sys) : Prop :=
  owned_by_lock_holder s
  /\ (forall i t, pc s i = AwaitOwn t -> _connect_lock s = Some i)
  /\ nobody_joined s.

(** Callers [0..n-1] call [connect()] together, before the loop runs any
    of them. *)
Definition concurrent_calls (n : nat) : list Action := map Call (seq 0 n).

Definition no_call (a : Action) : bool :=
  match a with
  | Call _ => false
  | _ => true
  end.

(** The reading of "all concurrent callers observe the same terminal
    outcome": whatever the loop and the transport do after [n] calls
    made together, two callers that have finished have the same outcome. *)
Definition same_terminal_outcome : Prop :=
  forall n acts c i j ri rj,
    forallb no_call acts = true ->
    outcome (concurrent_calls n ++ acts) c i = Some ri ->
    outcome (concurrent_calls n ++ acts) c j = Some rj ->
    ri = rj.
End Coordination.

(* ================================================================== *)
(** ** Scripts used in the statements *)

Definition quietly (r : IoReply) : IoReply * EnvAct := (r, Quiet).
Definition ok : IoReply * EnvAct := quietly (Reply VNone).
Definition answers (b : bytes) : IoReply * EnvAct := quietly (Reply (VBytes b)).
Definition fails (e : exn) : IoReply * EnvAct := quietly (Fail e).

(** A key retrieval in which the transport works and answers [rawkey]. *)
Definition key_exchange (rawkey : bytes) : list (IoReply * EnvAct) :=
  [ok; ok; answers rawkey; ok].

Definition key_exchange_ops (dev : BLEDevice) : list IoOp :=
  [OpClientEnter dev;
   OpWriteGattChar EVENT_CHARACTERISTIC_UUID [x22; x53; x00; x00; x00; x00; x00];
   OpReadGattChar EVENT_CHARACTERISTIC_UUID;
   OpClientExit].

(** The reading of "a response shorter than 7 bytes never raises the
    not-in-pairing-mode error and yields the hex of its bytes from index 2
    on", for a 4-byte sentinel. *)
Definition short_response_is_a_key (bound : nat) : Prop :=
  forall (K : bytes) (dev : BLEDevice) (rawkey : bytes),
    List.length K = 4 ->
    List.length rawkey < bound ->
    run_static (get_api_key K dev) (key_exchange rawkey)
    = Some (Returned (hex (slice_from 2 rawkey)), key_exchange_ops dev).

(** Where a coroutine first suspends: the object as it is left and the
    operation awaited; [None] when it finishes without suspending. *)
Definition first_suspension {St A} (c : Coro St A) : option (St * IoOp) :=
  match c with
  | Fin _ _ => None
  | Await s op _ => Some (s, op)
  end.

(** The outcome of awaiting a reply. *)
Definition outcome_of_reply (r : IoReply) : Outcome unit :=
  match r with
  | Reply _ => Returned tt
  | Fail e => Raised e
  end.

(** The observations a fan-out of [state] to [cbs] adds when no observer
    raises: one per observer, in registration order. *)
Definition fan_out (cbs : list (Callback DecoraBLEDeviceState))
    (state : DecoraBLEDeviceState) : list Observation :=
  map (fun cb => StateObserved (cb_id cb) state) cbs.

Definition none_raises (cbs : list (Callback DecoraBLEDeviceState))
    (state : DecoraBLEDeviceState) : Prop :=
  forall cb, In cb cbs -> cb_raises cb state = None.

(** The reading of "every change of the mirror made by [m] reaches every
    registered state observer": when a run of [m] ends with another mirror
    than it began with, every observer registered has been called with the
    new mirror. *)
Definition change_is_fanned_out (m : Dev unit) : Prop :=
  forall w script w' o ops,
    run_dev m w script = Some (w', o, ops) ->
    _state (self w') <> _state (self w) ->
    forall cb, In cb (_state_callbacks (self w)) ->
      In (StateObserved (cb_id cb) (_state (self w'))) (observed w').

(** The reading of "[disconnect()] never raises". *)
Definition disconnect_never_raises : Prop :=
  forall w script w' o ops,
    run_dev disconnect w script = Some (w', o, ops) -> o = Returned tt.

(** An observer that records and returns. *)
Definition recorder {A} (id : nat) : Callback A :=
  {| cb_id := id; cb_raises := fun _ => None |}.

Definition connected_client : BleakClient := {| is_connected := true |}.

Definition a_dimmer : BLEDevice := {| address := "AA:BB:CC:DD:EE:FF"; name := "Decora" |}.

(** The reading of "every operation that mutates the mirror fans the new
    state out": the notification callback, [_read_state], [_write_state]
    and the three commands. *)
Definition every_change_is_fanned_out : Prop :=
  (forall data, change_is_fanned_out (notification_callback data))
  /\ change_is_fanned_out _read_state
  /\ (forall state, change_is_fanned_out (_write_state state))
  /\ (forall level, change_is_fanned_out (turn_on level))
  /\ change_is_fanned_out turn_off
  /\ (forall level, change_is_fanned_out (set_brightness_level level)).

(** The state a two-byte payload decodes to. *)
Definition decoded_state (b0 b1 : byte) : DecoraBLEDeviceState :=
  {| is_on := Byte.eqb b0 x01; brightness_level := int_of_byte b1 |}.

(** A connected device with one observer that records. *)
Definition observed_dimmer : World :=
  on_self (set_state_callbacks [recorder 1])
    (on_self (set_client (Some connected_client)) (new_world a_dimmer [x01; x02])).

(** A device on which [start()] has created the connection future. *)
Definition started_dimmer (key : bytes) : World :=
  on_self (fun d => set_future (Some FPending) (set_running true d))
          (new_world a_dimmer key).

(** A connect attempt in which the session is established, the unlock
    write is acknowledged, and the verification read fails with [e]. *)
Definition verification_fails (e : exn) : list (IoReply * EnvAct) :=
  [quietly (Reply (VClient connected_client)); ok; ok; fails e].

(** A connect attempt in which the unlock write itself fails with [e];
    the close that follows succeeds. *)
Definition unlock_fails (e : exn) : list (IoReply * EnvAct) :=
  [quietly (Reply (VClient connected_client)); fails e; ok].

(** A connect attempt that passes verification and subscription and then
    fails with [e] on the first descriptor read; the close succeeds. *)
Definition summary_read_fails (e : exn) : list (IoReply * EnvAct) :=
  [quietly (Reply (VClient connected_client)); ok; ok; answers [x00; x00];
   ok; fails e; ok].

Definition is_read (op : IoOp) : bool :=
  match op with
  | OpReadGattChar _ => true
  | _ => false
  end.

(** How many reads of the transport a run made. *)
Definition count_reads (ops : list IoOp) : nat := List.length (filter is_read ops).

(** A transport error of the authorization class: one of
    [BLEAK_EXCEPTIONS] whose text has one of the two keywords. *)
Definition authorization_class (e : exn) : Prop :=
  in_BLEAK_EXCEPTIONS e = true /\ is_authorization_error e = true.

(** Any error the loop does not retry. *)
Definition not_retried (e : exn) : Prop :=
  in_BLEAK_EXCEPTIONS e = false \/ is_authorization_error e = false.

(** An instance around the connected dimmer whose previous attempt was at
    clock value [last]. *)
Definition an_instance (w : World) (last : float) : DeviceInstance :=
  set_last_attempt last (new_instance w (Some "abc"%string)).

(** Two callers call [connect()] together on a disconnected device: caller 0
    gets the lock and starts attempt 0, which fails and leaves the device
    disconnected; caller 0 raises; caller 1 then gets the lock, finds the
    device disconnected and no attempt in flight, starts attempt 1, which
    succeeds; caller 1 returns. *)
Definition first_fails_second_succeeds : list Coordination.Action :=
  [Coordination.Resume 0; Coordination.Resume 1;
   Coordination.Resume 0;
   Coordination.Complete 0 (Coordination.Failure (DeviceConnectionError "timeout")) false;
   Coordination.Resume 0;
   Coordination.Resume 1;
   Coordination.Complete 1 Coordination.Success true;
   Coordination.Resume 1].

(** Caller 0 starts attempt 0 and caller 1 waits for the lock; the attempt
    establishes its session; caller 2 then calls [connect()], finds
    [is_connected] true and returns while the attempt is still running. *)
Definition late_caller_returns_early : list Coordination.Action :=
  [Coordination.Call 0; Coordination.Call 1;
   Coordination.Resume 0; Coordination.Resume 0;
   Coordination.Resume 1;
   Coordination.Establish 0;
   Coordination.Call 2; Coordination.Resume 2].

(** The attempt then fails after its cleanup, and its creator raises. *)
Definition attempt_fails_afterwards : list Coordination.Action :=
  [Coordination.Complete 0 (Coordination.Failure IncorrectAPIKeyError) false;
   Coordination.Resume 0].

(** A connect attempt in which everything succeeds: session, unlock,
    verification read, subscription, the four descriptors and the initial
    state read. *)
Definition connect_succeeds : list (IoReply * EnvAct) :=
  [quietly (Reply (VClient connected_client)); ok; ok; answers [x00; x00];
   ok;
   answers [x12; xab];
   answers (list_byte_of_string "Leviton");
   answers (list_byte_of_string "DD710");
   answers (list_byte_of_string "Software Revision 1.2 ");
   answers [x01; x32]].

Definition connected_summary : DecoraBLEDeviceSummary :=
  {| system_identifier := "12ab";
     manufacturer := "Leviton";
     model := "DD710";
     software_revision := Some "1.2"%string |}.

Definition is_start_notify (op : IoOp) : bool :=
  match op with
  | OpStartNotify _ => true
  | _ => false
  end.

(** How many subscription attempts a run made. *)
Definition count_subscriptions (ops : list IoOp) : nat :=
  List.length (filter is_start_notify ops).

(** A reply to the close of a session that [contextlib.suppress(Exception)]
    lets pass: success, or any exception but a cancellation. *)
Definition close_is_swallowed (close : IoReply) : Prop :=
  match close with
  | Reply _ => True
  | Fail e => is_Exception e = true
  end.

(** [_revision_string] as a function of the bytes read. *)
Definition revision_string_of (value : bytes) (prefix : string) : Outcome (option string) :=
  match decode_utf8 value with
  | Returned text =>
      let stripped_value := removeprefix prefix text in
      if 0 <? String.length stripped_value then Returned (Some (strip stripped_value))
      else Returned None
  | Raised e => Raised e
  end.

(** A connection attempt in which every operation succeeds, with the bytes
    the device answers. *)
Definition connect_script (c : BleakClient)
    (verify sysid man mdl rev state : bytes) : list (IoReply * EnvAct) :=
  [quietly (Reply (VClient c)); ok; ok; answers verify; ok;
   answers sysid; answers man; answers mdl; answers rev; answers state].

Definition connect_ops (d : DecoraBLEDevice) : list IoOp :=
  [OpEstablishConnection (_device d);
   OpWriteGattChar EVENT_CHARACTERISTIC_UUID (x11 :: x53 :: _key d);
   OpSleep unlock_settle_delay;
   OpReadGattChar STATE_CHARACTERISTIC_UUID;
   OpStartNotify STATE_CHARACTERISTIC_UUID;
   OpReadGattChar SYSTEM_ID_DESCRIPTOR_UUID;
   OpReadGattChar MANUFACTURER_DESCRIPTOR_UUID;
   OpReadGattChar MODEL_NUMBER_DESCRIPTOR_UUID;
   OpReadGattChar SOFTWARE_REVISION_DESCRIPTOR_UUID;
   OpReadGattChar STATE_CHARACTERISTIC_UUID].

Definition summary_fan_out (cbs : list (Callback DecoraBLEDeviceSummary))
    (summary : DecoraBLEDeviceSummary) : list Observation :=
  map (fun cb => SummaryObserved (cb_id cb) summary) cbs.

(** The value of a hexadecimal digit, either case. *)
Definition hex_value (c : ascii) : option N :=
  let n := N_of_ascii c in
  if (48 <=? n)%N && (n <=? 57)%N then Some (n - 48)%N
  else if (97 <=? n)%N && (n <=? 102)%N then Some (n - 87)%N
  else if (65 <=? n)%N && (n <=? 70)%N then Some (n - 55)%N
  else None.

(** The ASCII whitespace [fromhex] skips: space, tab, newline, carriage
    return, vertical tab, form feed. *)
Definition is_hex_space (c : ascii) : bool :=
  let n := N_of_ascii c in
  (n =? 32)%N || ((9 <=? n)%N && (n <=? 13)%N).

(** [str(n)] for a position. *)
Definition decimal (n : nat) : string := NilZero.string_of_uint (Nat.to_uint n).

(** The message of the [ValueError] of [fromhex]. *)
Definition fromhex_error (pos : nat) : string :=
  "non-hexadecimal number found in fromhex() arg at position " ++ decimal pos.

(** A text with a character outside ASCII is refused before it is
    scanned, at the first such character (characters are code points
    below 256). *)
Fixpoint first_non_ascii (pos : nat) (s : string) : option nat :=
  match s with
  | EmptyString => None
  | String c rest =>
      if (N_of_ascii c <? 128)%N then first_non_ascii (S pos) rest else Some pos
  end.

(** The scan of [fromhex], from position [pos]: whitespace is skipped
    before a byte, a byte is two hexadecimal digits; the result is the
    bytes, or the position of the character that is no digit (the end of
    the text when a digit is left alone). *)
Fixpoint fromhex_from (pos : nat) (s : string) : bytes + nat :=
  match s with
  | EmptyString => inl []
  | String c rest =>
      if is_hex_space c then fromhex_from (S pos) rest
      else
        match hex_value c with
        | None => inr pos
        | Some top =>
            match rest with
            | EmptyString => inr (S pos)
            | String c' rest' =>
                match hex_value c' with
                | None => inr (S pos)
                | Some bot =>
                    match Byte.of_N (top * 16 + bot), fromhex_from (S (S pos)) rest' with
                    | Some b, inl bs => inl (b :: bs)
                    | Some _, inr p => inr p
                    | None, _ => inr pos  (* never: two digits are below 256 *)
                    end
                end
            end
        end
  end.

(** [bytearray.fromhex(s)]: the bytes, or the position the [ValueError]
    reports (the positions are those of CPython 3.11). *)
Definition fromhex (s : string) : bytes + nat :=
  match first_non_ascii 0 s with
  | Some pos => inr pos
  | None => fromhex_from 0 s
  end.

(** [DecoraBLEDevice(device, api_key)]: the constructor with the key as the
    string it is given. *)
Definition construct (device : BLEDevice) (api_key : string) : Outcome DecoraBLEDevice :=
  match fromhex api_key with
  | inl key => Returned (init device key)
  | inr pos => Raised (ValueError (fromhex_error pos))
  end.

Fixpoint all_hex_space (s : string) : bool :=
  match s with
  | EmptyString => true
  | String c s' => is_hex_space c && all_hex_space s'
  end.

(** [str.upper()], on the ASCII letters. *)
Definition upper_ascii (c : ascii) : ascii :=
  let n := nat_of_ascii c in
  if (97 <=? n) && (n <=? 122) then ascii_of_nat (n - 32) else c.

Fixpoint upper (s : string) : string :=
  match s with
  | EmptyString => EmptyString
  | String c s' => String (upper_ascii c) (upper s')
  end.

Fixpoint all_space (s : string) : bool :=
  match s with
  | EmptyString => true
  | String c s' => is_space c && all_space s'
  end.

(** Further invariants of the coordination of [connect()]. *)
Module CoordinationMore.
Import Coordination.

(** The lock is held by a caller awaiting the attempt it created, and the
    in-flight handle is that attempt. *)
Definition holder_awaits_handle (s : Sys) : Prop :=
  forall i, _connect_lock s = Some i ->
    exists t, pc s i = AwaitOwn t /\ _connection_task s = Some t /\ tasks s t <> Unborn.

(** The handle is cleared whenever the lock is free. *)
Definition handle_cleared_when_free (s : Sys) : Prop :=
  _connect_lock s = None -> _connection_task s = None.

(** A failure a caller has raised is the failure of an attempt. *)
Definition failures_come_from_attempts (s : Sys) : Prop :=
  forall i e, pc s i = Finished (Failure e) -> exists t, tasks s t = Completed (Failure e).

Definition attempts_are_numbered (s : Sys) : Prop :=
  forall t, created s <= t -> tasks s t = Unborn.

Definition Inv2 (s : Sys) : Prop :=
  holder_awaits_handle s
  /\ handle_cleared_when_free s
  /\ failures_come_from_attempts s
  /\ attempts_are_numbered s.

(** The callers only call and run: the transport reports nothing. *)
Definition only_callers (a : Action) : bool :=
  match a with
  | Call _ | Resume _ => true
  | _ => false
  end.

(** On a device that stays connected every caller is idle, just called or
    back with success, and nothing else has happened. *)
Definition all_on_fast_path (s : Sys) : Prop :=
  connected s = true
  /\ created s = 0
  /\ _connect_lock s = None
  /\ forall i, pc s i = Idle \/ pc s i = Called \/ pc s i = Finished Success.
End CoordinationMore.

(** *** [wait_for_device_connection]

    The coroutine suspends once, on the connection future under the
    timeout.  How that wait ends is the environment's part: the future is
    resolved by [_handle_device_connection], or the timeout elapses first,
    or the waiting task is cancelled first; in the last two cases asyncio
    cancels the future the task is waiting on. *)
Inductive WaitEnd : Type :=
| Resolved (exception : option exn)
| TimedOut
| WaiterCancelled.

(** [await f] on a future that is done. *)
Definition await_done (f : Future) : Outcome unit :=
  match f with
  | FResult => Returned tt
  | FException e => Raised e
  | FCancelled | FPending => Raised CancelledError
  end.

(** [f.cancel()] *)
Definition cancel_future (f : Future) : Future :=
  if done f then f else FCancelled.

(** [except (asyncio.TimeoutError, asyncio.CancelledError)] *)
Definition is_timeout_or_cancellation (e : exn) : bool :=
  match e with
  | TimeoutError _ | CancelledError => true
  | _ => false
  end.

(** The future when the waiter resumes, and what its [await] raises. *)
Definition future_after_wait (f : Future) (how : WaitEnd) : Future :=
  if done f then f
  else match how with
       | Resolved (Some e) => FException e
       | Resolved None => FResult
       | TimedOut | WaiterCancelled => FCancelled
       end.

Definition awaited (f : Future) (how : WaitEnd) : Outcome unit :=
  if done f then await_done f
  else match how with
       | Resolved _ => await_done (future_after_wait f how)
       | TimedOut => Raised (TimeoutError EmptyString)
       | WaiterCancelled => Raised CancelledError
       end.

(** The handler: cancel the future, await it with cancellation suppressed,
    raise [DeviceConnectionTimeoutError]. *)
Definition wait_timed_out (f : Future) : Outcome unit :=
  match await_done (cancel_future f) with
  | Raised CancelledError | Returned _ =>
      Raised (DeviceConnectionTimeoutError "No advertisement received before timeout")
  | Raised e => Raised e
  end.

(** [wait_for_device_connection], given how its wait ends. *)
Definition wait_for_device_connection (how : WaitEnd) (d : DecoraBLEDevice)
  : DecoraBLEDevice * Outcome unit :=
  if negb (_running d) then (d, Raised (RuntimeError "Not running"))
  else
    match _device_connection_future d with
    | None => (d, Raised (RuntimeError "Already waited for first update"))
    | Some f =>
        (set_future None d,
         match awaited f how with
         | Returned v => Returned v
         | Raised ex =>
             if is_timeout_or_cancellation ex
             then wait_timed_out (future_after_wait f how)
             else Raised ex
         end)
    end.

(** The closure [start()] returns. *)
Definition cancel_start (d : DecoraBLEDevice) : DecoraBLEDevice := set_running false d.

(** [start()] as a function of the device. *)
Definition started (d : DecoraBLEDevice) : DecoraBLEDevice * Outcome unit :=
  if _running d then (d, Raised (RuntimeError "Already running"))
  else (set_future (Some FPending) (set_running true d), Returned tt).

(** [update_device] *)
Definition update_device (device : BLEDevice) (d : DecoraBLEDevice) : DecoraBLEDevice :=
  {| _device := device; _key := _key d; _running := _running d;
     _device_connection_future := _device_connection_future d;
     _client := _client d; _summary := _summary d; _state := _state d;
     _connection_callbacks := _connection_callbacks d;
     _state_callbacks := _state_callbacks d |}.

(* ------------------------------------------------------------------ *)
(** *** The light entity ([light.py]): brightness scales *)

(** [float(z)] for an int below [2**53] in magnitude, where the conversion
    is exact (and [a / b] on such ints is the float division of the
    conversions). *)
Definition float_of_int (z : Z) : float :=
  if (z <? 0)%Z then PrimFloat.opp (PrimFloat.of_uint63 (Uint63.of_Z (- z)))
  else PrimFloat.of_uint63 (Uint63.of_Z z).

(** [int(f)]: truncation towards zero; [None] for a NaN or an infinity,
    on which Python raises. *)
Definition int_of_float (f : float) : option Z :=
  match Prim2SF f with
  | S754_zero _ => Some 0%Z
  | S754_finite s m e =>
      let v := if (0 <=? e)%Z then Z.shiftl (Zpos m) e else Z.shiftr (Zpos m) (- e) in
      Some (if s then (- v)%Z else v)
  | _ => None
  end.

(** [int((level / 100) * 255)], the [brightness] property on a state. *)
Definition brightness_of_level (level : Z) : option Z :=
  int_of_float (PrimFloat.mul (PrimFloat.div (float_of_int level) 100%float) 255%float).

(** [int((brightness / 255) * 100)], the level [async_turn_on] asks for. *)
Definition level_of_brightness (brightness : Z) : option Z :=
  int_of_float (PrimFloat.mul (PrimFloat.div (float_of_int brightness) 255%float) 100%float).

(** The [brightness] property of [DecoraBleakLight]: [None] until a state
    has been observed. *)
Definition light_brightness (state : option DecoraBLEDeviceState) : option (option Z) :=
  match state with
  | None => Some None
  | Some s =>
      match brightness_of_level (brightness_level s) with
      | Some b => Some (Some b)
      | None => None
      end
  end.

(** [connect()] as it runs when no other call is in progress: the lock is
    free and no attempt is in flight, so it is the fast-path test followed
    by the attempt. *)
Definition connect_alone : Dev unit :=
  d <- this ;;
  if device_is_connected d then ret tt else _do_connect.

(** [DecoraBleakLight.async_turn_on], with [brightness =
    kwargs.get(ATTR_BRIGHTNESS)]; the handler around [connect()] logs and
    re-raises. *)
Definition async_turn_on (brightness : option Z) : Dev unit :=
  d <- this ;;
  (if negb (device_is_connected d) then connect_alone else ret tt) ;;
  match brightness with
  | Some b =>
      match level_of_brightness b with
      | Some level => turn_on (Some level)
      | None => raise (ValueError "cannot convert float to integer")
      end
  | None => turn_on None
  end.

(** [DecoraBleakLight.async_turn_off] *)
Definition async_turn_off : Dev unit :=
  d <- this ;;
  (if negb (device_is_connected d) then connect_alone else ret tt) ;;
  turn_off.

(** The drift of a level through the two scales. *)
Definition level_after_round_trip (level : Z) : Z :=
  if (level mod 20 =? 0)%Z then level else (level - 1)%Z.

Definition round_trip_ok (level : Z) : bool :=
  match brightness_of_level level with
  | Some b =>
      (0 <=? b)%Z && (b <=? 255)%Z
      && match level_of_brightness b with
         | Some l => (l =? level_after_round_trip level)%Z
         | None => false
         end
  | None => false
  end.

Definition level_in_range (brightness : Z) : bool :=
  match level_of_brightness brightness with
  | Some l =>
      (0 <=? l)%Z && (l <=? 100)%Z
      && match byte_of_int l with
         | Some _ => true
         | None => false
         end
  | None => false
  end.

Definition delay_in_range (k : Z) : bool :=
  let delay := PrimFloat.add 0.1%float
                 (PrimFloat.div (PrimFloat.of_uint63 (Uint63.of_Z k)) 100%float) in
  PrimFloat.leb 0.1%float delay && PrimFloat.ltb delay 0.6%float.

(* ------------------------------------------------------------------ *)
(** *** The connection test of the config flow ([config_flow.py]) *)

(** The two errors of the flow. *)
Inductive FlowError : Type :=
| CannotConnect (msg : string)
| InvalidAuth (msg : string).

(** How [async_validate_connection] ends: it returns, it raises one of the
    flow's errors, or something escapes it. *)
Inductive Validation : Type :=
| Valid
| Refused (err : FlowError)
| Escaped (e : exn).

(** The three [except] clauses of [async_validate_connection]. *)
Definition classify_validation (o : Outcome unit) : Validation :=
  match o with
  | Returned _ => Valid
  | Raised IncorrectAPIKeyError =>
      Refused (InvalidAuth "The API key is incorrect. Device rejected authentication.")
  | Raised (DeviceConnectionError m) =>
      Refused (CannotConnect ("Unable to connect to device: " ++ m))
  | Raised e =>
      if is_Exception e
      then Refused (InvalidAuth ("Connection test failed: " ++ str_of_exn e))
      else Escaped e
  end.

(** [async_validate_connection]: a device of its own, [connect()], then
    [disconnect()]; the constructor runs before the [try]. *)
Definition async_validate_connection (device : BLEDevice) (api_key : string)
    (script : list (IoReply * EnvAct)) : option (Validation * list IoOp) :=
  match construct device api_key with
  | Raised e => Some (Escaped e, [])
  | Returned d =>
      match run_dev (connect_alone ;; disconnect)
                    {| self := d; observed := [] |} script with
      | Some (_, o, ops) => Some (classify_validation o, ops)
      | None => None
      end
  end.

(** The transport's part of a connection test that passes up to the close. *)
Definition test_connection_script (close : IoReply) : list (IoReply * EnvAct) :=
  connect_script connected_client [x00; x00] [x12; xab]
    (list_byte_of_string "Leviton") (list_byte_of_string "DD710")
    (list_byte_of_string "Software Revision 1.2") [x00; x00]
  ++ [quietly close].

Definition is_flow_specific (e : exn) : bool :=
  match e with
  | IncorrectAPIKeyError | DeviceConnectionError _ => true
  | _ => false
  end.

(* ------------------------------------------------------------------ *)
(** *** How long a coroutine can run *)

(** [bounded n c]: whatever the transport answers and whatever happens to
    the object meanwhile, [c] suspends at most [n] times. *)
Inductive bounded {St A : Type} : nat -> Coro St A -> Prop :=
| bounded_Fin (n : nat) (s : St) (r : Outcome A) : bounded n (Fin s r)
| bounded_Await (n : nat) (s : St) (op : IoOp) (k : IoReply -> St -> Coro St A) :
    (forall r s', bounded n (k r s')) -> bounded (S n) (Await s op k).

(** The most a connection attempt awaits: session and unlock with the close
    of a failure (3); settle sleep and verification read (2); three
    subscriptions with two sleeps (5); four descriptors of three reads and
    two sleeps each (20); the state read (1); the close of a failure (1). *)
Definition connect_attempt_bound : nat := 32.

(* ------------------------------------------------------------------ *)
(** *** What every run of a device coroutine ends with *)

(** [ensures P c]: however the transport answers and whenever the link
    drops, [c] ends in a state and with an outcome that satisfy [P]. *)
Fixpoint ensures {A} (P : World -> Outcome A -> Prop) (c : Coro World A) : Prop :=
  match c with
  | Fin s r => P s r
  | Await s _ k => forall r act, ensures P (k r (interfere act s))
  end.

(** A client handle that is present reports connected. *)
Definition linked (d : DecoraBLEDevice) : Prop :=
  match _client d with
  | Some c => is_connected c = true
  | None => True
  end.

(** A device that has a client handle has a summary. *)
Definition summarized (d : DecoraBLEDevice) : Prop :=
  _client d = None \/ _summary d <> None.

(** The connection future, if there is one, is resolved. *)
Definition future_resolved (d : DecoraBLEDevice) : Prop :=
  forall f, _device_connection_future d = Some f -> done f = true.

(** Invariants of the device that the [disconnected] callback keeps. *)
Definition stable (I : DecoraBLEDevice -> Prop) : Prop :=
  forall d, I d -> I (_disconnect_cleanup d).

(** Invariants that do not read the state mirror. *)
Definition mirror_blind (I : DecoraBLEDevice -> Prop) : Prop :=
  forall st d, I d -> I (set_state st d).

(** Every run of [c], whatever the answers and the link, ends in a state
    of the device where [I] holds. *)
Definition keeps {A} (I : DecoraBLEDevice -> Prop) (c : Coro World A) : Prop :=
  ensures (fun s _ => I (self s)) c.

(** What a caller of [connect()] relies on after a return. *)
Definition attempt_succeeded (d : DecoraBLEDevice) : Prop :=
  device_is_connected d = true /\ _summary d <> None /\
  _device_connection_future d <> Some FPending.

(** A postcondition on the runs that return. *)
Definition on_return {A} (P : DecoraBLEDevice -> Prop) (w : World) (o : Outcome A) : Prop :=
  match o with
  | Returned _ => P (self w)
  | Raised _ => True
  end.

(** What holds from the resolution of the connection future to the end of
    [_do_connect]. *)
Definition attempt_inv (d : DecoraBLEDevice) : Prop :=
  linked d /\ summarized d /\ future_resolved d.

(* ================================================================== *)
(** * Properties *)

Unset Implicit Arguments.

(** ** Bytes *)

Lemma bytes_eqb_refl (a : bytes) : bytes_eqb a a = true.
Proof.
  induction a as [|x a IH]; simpl; [reflexivity|].
  rewrite IH, andb_true_r. apply Byte.byte_dec_lb. reflexivity.
Qed.

Lemma bytes_eqb_eq (a b : bytes) : bytes_eqb a b = true <-> a = b.
Proof.
  split.
  - revert b. induction a as [|x a IH]; destruct b as [|y b]; simpl; try discriminate; auto.
    intros H. apply andb_true_iff in H. destruct H as [Hx Hr].
    apply Byte.byte_dec_bl in Hx. subst y. f_equal. auto.
  - intros ->. apply bytes_eqb_refl.
Qed.

Lemma bytes_eqb_neq (a b : bytes) : bytes_eqb a b = false <-> a <> b.
Proof.
  rewrite <- bytes_eqb_eq. destruct (bytes_eqb a b); split; congruence.
Qed.

Lemma bytes_eqb_length (a b : bytes) :
  List.length a <> List.length b -> bytes_eqb a b = false.
Proof.
  intros H. apply bytes_eqb_neq. intros ->. apply H. reflexivity.
Qed.

Lemma slice_length_le {A} (lo hi : nat) (l : list A) :
  List.length (slice lo hi l) <= List.length l - lo.
Proof.
  unfold slice. rewrite length_firstn, length_skipn. lia.
Qed.

(** ** Key retrieval *)

Lemma get_api_key_run (K : bytes) (dev : BLEDevice) (rawkey : bytes) :
  run_static (get_api_key K dev) (key_exchange rawkey)
  = Some (api_key_of_response K rawkey, key_exchange_ops dev).
Proof.
  unfold run_static, get_api_key, key_exchange, key_exchange_ops. cbn.
  destruct (api_key_of_response K rawkey); reflexivity.
Qed.

(** C6: on a key retrieval whose transport works, [get_api_key] raises the
    not-in-pairing-mode error exactly when bytes 2-5 of the response equal
    the unpaired sentinel and otherwise returns the hex encoding of the
    response from index 2 on; a response [a, b, 0xaa, 0xbb, 0xcc, 0xdd]
    yields ["aabbccdd"] whenever the sentinel is not those four bytes. *)
Theorem get_api_key_sentinel (K : bytes) (dev : BLEDevice) (rawkey : bytes) :
  (slice 2 6 rawkey = K <->
   run_static (get_api_key K dev) (key_exchange rawkey)
   = Some (Raised DeviceNotInPairingModeError, key_exchange_ops dev))
  /\ (slice 2 6 rawkey <> K <->
      run_static (get_api_key K dev) (key_exchange rawkey)
      = Some (Returned (hex (slice_from 2 rawkey)), key_exchange_ops dev))
  /\ (forall a b : byte,
        K <> [xaa; xbb; xcc; xdd] ->
        run_static (get_api_key K dev) (key_exchange [a; b; xaa; xbb; xcc; xdd])
        = Some (Returned "aabbccdd"%string, key_exchange_ops dev)).
Proof.
  repeat split.
  - intros H. rewrite get_api_key_run. unfold api_key_of_response.
    apply bytes_eqb_eq in H. rewrite H. reflexivity.
  - rewrite get_api_key_run. unfold api_key_of_response.
    destruct (bytes_eqb (slice 2 6 rawkey) K) eqn:E; simpl.
    + intros _. apply bytes_eqb_eq. exact E.
    + discriminate.
  - intros H. rewrite get_api_key_run. unfold api_key_of_response.
    apply bytes_eqb_neq in H. rewrite H. reflexivity.
  - rewrite get_api_key_run. unfold api_key_of_response.
    destruct (bytes_eqb (slice 2 6 rawkey) K) eqn:E; simpl.
    + discriminate.
    + intros _. apply bytes_eqb_neq. exact E.
  - intros a b H. rewrite get_api_key_run. unfold api_key_of_response.
    assert (E : bytes_eqb (slice 2 6 [a; b; xaa; xbb; xcc; xdd]) K = false).
    { apply bytes_eqb_neq. unfold slice. simpl. congruence. }
    rewrite E. reflexivity.
Qed.

Lemma get_api_key_sentinel_witness :
  run_static (get_api_key [x00; x00; x00; x00] a_dimmer)
             (key_exchange [x22; x53; xaa; xbb; xcc; xdd])
  = Some (Returned "aabbccdd"%string, key_exchange_ops a_dimmer)
  /\ run_static (get_api_key [x00; x00; x00; x00] a_dimmer)
                (key_exchange [x22; x53; x00; x00; x00; x00; x00])
     = Some (Raised DeviceNotInPairingModeError, key_exchange_ops a_dimmer).
Proof.
  split.
  - destruct (get_api_key_sentinel [x00; x00; x00; x00] a_dimmer [])
      as [_ [_ H]].
    apply (H x22 x53). discriminate.
  - destruct (get_api_key_sentinel [x00; x00; x00; x00] a_dimmer
                [x22; x53; x00; x00; x00; x00; x00])
      as [[H _] _].
    apply H. reflexivity.
Defined.

(** C9, as stated, fails: a 6-byte response is shorter than 7 bytes, its
    bytes 2-5 are four bytes and can be the sentinel, and then
    [get_api_key] raises the not-in-pairing-mode error. *)
Lemma short_response_bound_7_fails : ~ short_response_is_a_key 7.
Proof.
  intros H.
  specialize (H [x00; x00; x00; x00] {| address := ""; name := "" |}
                [x22; x53; x00; x00; x00; x00] eq_refl).
  assert (L : List.length [x22; x53; x00; x00; x00; x00] < 7) by (simpl; lia).
  specialize (H L). vm_compute in H. discriminate H.
Qed.

(** C9, amended: for a 4-byte sentinel and a response shorter than 6 bytes,
    [get_api_key] does not raise the not-in-pairing-mode error (bytes 2-5
    are then fewer than four) and returns the hex encoding of the bytes from
    index 2 on, which is the empty string for a response of 2 bytes or
    fewer. *)
Theorem get_api_key_short_response (K : bytes) (dev : BLEDevice) (rawkey : bytes) :
  List.length K = 4 ->
  List.length rawkey < 6 ->
  run_static (get_api_key K dev) (key_exchange rawkey)
  = Some (Returned (hex (slice_from 2 rawkey)), key_exchange_ops dev)
  /\ (List.length rawkey <= 2 -> hex (slice_from 2 rawkey) = EmptyString).
Proof.
  intros HK Hlen. split.
  - rewrite get_api_key_run. unfold api_key_of_response.
    rewrite bytes_eqb_length; [reflexivity|].
    pose proof (slice_length_le 2 6 rawkey) as Hs. lia.
  - intros H2. unfold slice_from.
    destruct rawkey as [|a [|b [|c r]]]; simpl in *; try reflexivity; lia.
Qed.

Lemma get_api_key_short_response_witness :
  run_static (get_api_key [x00; x00; x00; x00] {| address := "AA:BB"; name := "dimmer" |})
             (key_exchange [x22; x53; xab])
  = Some (Returned "ab"%string, key_exchange_ops {| address := "AA:BB"; name := "dimmer" |})
  /\ run_static (get_api_key [x00; x00; x00; x00] {| address := "AA:BB"; name := "dimmer" |})
                (key_exchange [x22; x53])
     = Some (Returned EmptyString, key_exchange_ops {| address := "AA:BB"; name := "dimmer" |}).
Proof.
  split.
  - apply (get_api_key_short_response [x00; x00; x00; x00]
             {| address := "AA:BB"; name := "dimmer" |} [x22; x53; xab]);
      simpl; lia.
  - apply (get_api_key_short_response [x00; x00; x00; x00]
             {| address := "AA:BB"; name := "dimmer" |} [x22; x53]);
      simpl; lia.
Defined.

(** ** State synchroniser *)

Lemma write_state_suspends (state : DecoraBLEDeviceState) (w : World)
    (c : BleakClient) (packet : bytes) :
  _client (self w) = Some c ->
  state_packet state = Some packet ->
  first_suspension (_write_state state w)
  = Some (on_self (set_state state) w,
          OpWriteGattChar STATE_CHARACTERISTIC_UUID packet).
Proof.
  intros Hc Hp. unfold _write_state. cbn. rewrite Hp. cbn. rewrite Hc. reflexivity.
Qed.

Lemma write_state_run (state : DecoraBLEDeviceState) (w : World)
    (c : BleakClient) (packet : bytes) (r : IoReply) (rest : list (IoReply * EnvAct)) :
  _client (self w) = Some c ->
  state_packet state = Some packet ->
  run_dev (_write_state state) w (quietly r :: rest)
  = Some (on_self (set_state state) w, outcome_of_reply r,
          [OpWriteGattChar STATE_CHARACTERISTIC_UUID packet]).
Proof.
  intros Hc Hp. unfold run_dev, _write_state. cbn. rewrite Hp. cbn. rewrite Hc. cbn.
  destruct r; reflexivity.
Qed.

Lemma commands_are_write_state (w : World) :
  (forall level, turn_on level w
     = _write_state (replace_brightness_level
                       (match level with
                        | Some l => l
                        | None => brightness_level (_state (self w))
                        end)
                       (replace_is_on true (_state (self w)))) w)
  /\ turn_off w = _write_state (replace_is_on false (_state (self w))) w
  /\ (forall level, set_brightness_level level w
        = _write_state (replace_brightness_level level (_state (self w))) w).
Proof.
  repeat split.
Qed.

(** C5: [_write_state] stores the requested state in the mirror before it
    suspends on the wire write: at that suspension the mirror reads the
    requested state; and when the write fails (nothing else touching the
    device meanwhile) the mirror still reads the requested state, the
    rest of the device being as it was.  [turn_on], [turn_off] and
    [set_brightness_level] are [_write_state] on the mirror with the field
    overridden; for [turn_on(50)] the coroutine is suspended on the write
    of [[1, 50]] with the mirror already on and at 50, and a failed write
    leaves it so. *)
Theorem write_state_is_optimistic (w : World) (c : BleakClient)
    (state : DecoraBLEDeviceState) (packet : bytes) (e : exn) :
  _client (self w) = Some c ->
  state_packet state = Some packet ->
  (exists w1,
     first_suspension (_write_state state w)
     = Some (w1, OpWriteGattChar STATE_CHARACTERISTIC_UUID packet)
     /\ _state (self w1) = state
     /\ w1 = on_self (set_state state) w)
  /\ (exists w2,
        run_dev (_write_state state) w [fails e]
        = Some (w2, Raised e, [OpWriteGattChar STATE_CHARACTERISTIC_UUID packet])
        /\ _state (self w2) = state
        /\ w2 = on_self (set_state state) w)
  /\ (exists w1,
        first_suspension (turn_on (Some 50%Z) w)
        = Some (w1, OpWriteGattChar STATE_CHARACTERISTIC_UUID [x01; x32])
        /\ is_on (_state (self w1)) = true
        /\ brightness_level (_state (self w1)) = 50%Z
        /\ w1 = on_self (set_state {| is_on := true; brightness_level := 50 |}) w)
  /\ (exists w2,
        run_dev (turn_on (Some 50%Z)) w [fails e]
        = Some (w2, Raised e, [OpWriteGattChar STATE_CHARACTERISTIC_UUID [x01; x32]])
        /\ is_on (_state (self w2)) = true
        /\ brightness_level (_state (self w2)) = 50%Z
        /\ w2 = on_self (set_state {| is_on := true; brightness_level := 50 |}) w)
  /\ turn_off w = _write_state (replace_is_on false (_state (self w))) w
  /\ (forall level, set_brightness_level level w
        = _write_state (replace_brightness_level level (_state (self w))) w)
  /\ (forall level, turn_on level w
        = _write_state (replace_brightness_level
                          (match level with
                           | Some l => l
                           | None => brightness_level (_state (self w))
                           end)
                          (replace_is_on true (_state (self w)))) w).
Proof.
  intros Hc Hp.
  destruct (commands_are_write_state w) as [Hon [Hoff Hset]].
  split; [|split; [|split; [|split; [|split; [|split]]]]]; auto.
  - exists (on_self (set_state state) w).
    split; [exact (write_state_suspends state w c packet Hc Hp)|].
    split; reflexivity.
  - exists (on_self (set_state state) w).
    split; [exact (write_state_run state w c packet (Fail e) [] Hc Hp)|].
    split; reflexivity.
  - exists (on_self (set_state {| is_on := true; brightness_level := 50 |}) w).
    split; [|repeat split].
    rewrite Hon.
    apply (write_state_suspends {| is_on := true; brightness_level := 50 |} w c _ Hc).
    reflexivity.
  - exists (on_self (set_state {| is_on := true; brightness_level := 50 |}) w).
    split; [|repeat split].
    unfold run_dev. rewrite Hon.
    apply (write_state_run {| is_on := true; brightness_level := 50 |} w c _ (Fail e) [] Hc).
    reflexivity.
Qed.

Lemma write_state_is_optimistic_witness :
  let w := on_self (set_client (Some connected_client)) (new_world a_dimmer [x01; x02]) in
  (exists w1,
     first_suspension (turn_on (Some 50%Z) w)
     = Some (w1, OpWriteGattChar STATE_CHARACTERISTIC_UUID [x01; x32])
     /\ _state (self w1) = {| is_on := true; brightness_level := 50 |})
  /\ (exists w2,
        run_dev (turn_on (Some 50%Z)) w [fails (BleakError "write failed")]
        = Some (w2, Raised (BleakError "write failed"),
                [OpWriteGattChar STATE_CHARACTERISTIC_UUID [x01; x32]])
        /\ _state (self w2) = {| is_on := true; brightness_level := 50 |}).
Proof.
  intros w.
  destruct (write_state_is_optimistic w connected_client
              {| is_on := false; brightness_level := 7 |} [x00; x07]
              (BleakError "write failed") eq_refl eq_refl)
    as [_ [_ [[w1 [Hs [Hon1 [Hb1 _]]]] [[w2 [Hr [Hon2 [Hb2 _]]]] _]]]].
  split.
  - exists w1. split; [exact Hs|].
    destruct (_state (self w1)) as [on lvl]. cbn in Hon1, Hb1. subst. reflexivity.
  - exists w2. split; [exact Hr|].
    destruct (_state (self w2)) as [on lvl]. cbn in Hon2, Hb2. subst. reflexivity.
Defined.

(** A brightness outside [range(256)] is stored in the mirror all the same:
    building the packet fails after the assignment and nothing is written. *)
Lemma write_state_out_of_range (w : World) (script : list (IoReply * EnvAct)) :
  run_dev (turn_on (Some 300%Z)) w script
  = Some (on_self (set_state {| is_on := true; brightness_level := 300 |}) w,
          Raised (ValueError "byte must be in range(0, 256)"), []).
Proof. reflexivity. Qed.

Lemma for_each_state_callbacks (cbs : list (Callback DecoraBLEDeviceState))
    (state : DecoraBLEDeviceState) :
  none_raises cbs state ->
  forall w,
    for_each (fun cb => call_state_callback cb state) cbs w
    = Fin {| self := self w; observed := observed w ++ fan_out cbs state |}
          (Returned tt).
Proof.
  induction cbs as [|cb cbs IH]; intros Hnone w.
  - simpl. rewrite app_nil_r. destruct w; reflexivity.
  - assert (Hcb : cb_raises cb state = None) by (apply Hnone; left; reflexivity).
    assert (Hrest : none_raises cbs state) by (intros x Hx; apply Hnone; right; exact Hx).
    cbn. rewrite Hcb. cbn. rewrite (IH Hrest). cbn.
    rewrite <- app_assoc. reflexivity.
Qed.

Lemma notification_callback_fans_out (b0 b1 : byte) (rest : bytes) (w : World) :
  none_raises (_state_callbacks (self w)) (decoded_state b0 b1) ->
  notification_callback (b0 :: b1 :: rest) w
  = Fin {| self := set_state (decoded_state b0 b1) (self w);
           observed := observed w
                       ++ fan_out (_state_callbacks (self w)) (decoded_state b0 b1) |}
        (Returned tt).
Proof.
  intros Hnone. unfold notification_callback. cbn.
  change (for_each (fun cb => call_state_callback cb (decoded_state b0 b1))
                   (_state_callbacks (self w))
                   (on_self (set_state (decoded_state b0 b1)) w)
          = Fin {| self := set_state (decoded_state b0 b1) (self w);
                   observed := observed w
                               ++ fan_out (_state_callbacks (self w)) (decoded_state b0 b1) |}
                (Returned tt)).
  rewrite (for_each_state_callbacks _ _ Hnone). reflexivity.
Qed.

Lemma write_state_is_silent (state : DecoraBLEDeviceState) (w : World)
    (script : list (IoReply * EnvAct)) (w' : World) (o : Outcome unit) (ops : list IoOp) :
  run_dev (_write_state state) w script = Some (w', o, ops) ->
  observed w' = observed w.
Proof.
  unfold run_dev, _write_state. cbn.
  destruct (state_packet state) as [packet|]; cbn.
  - destruct (_client (self w)) as [c|]; cbn.
    + destruct script as [|[r act] rest]; [discriminate|].
      destruct r; cbn; intros H; inversion H; subst; destruct act; reflexivity.
    + intros H; inversion H; reflexivity.
  - intros H; inversion H; reflexivity.
Qed.

(** C8, as stated, fails: [_write_state] replaces the mirror and calls no
    observer.  On a connected device with one registered observer,
    [_write_state] of on/50 ends with the mirror changed and nothing
    observed. *)
Lemma write_state_is_not_fanned_out : ~ every_change_is_fanned_out.
Proof.
  intros [_ [_ [H _]]].
  specialize (H {| is_on := true; brightness_level := 50 |} observed_dimmer [ok]
                (on_self (set_state {| is_on := true; brightness_level := 50 |}) observed_dimmer)
                (Returned tt)
                [OpWriteGattChar STATE_CHARACTERISTIC_UUID [x01; x32]]
                eq_refl).
  assert (Hneq : _state (self (on_self (set_state {| is_on := true; brightness_level := 50 |})
                                 observed_dimmer))
                 <> _state (self observed_dimmer)) by (cbn; discriminate).
  specialize (H Hneq (recorder 1) (or_introl eq_refl)).
  cbn in H. exact H.
Qed.

(** C8, amended: the notification callback and [_read_state] store the
    decoded state in the mirror and call every registered state observer
    with it, in registration order (no observer raising); the optimistic
    update of [_write_state], and so of [turn_on], [turn_off] and
    [set_brightness_level], calls no observer. *)
Theorem mirror_changes_and_observers (w : World) (c : BleakClient)
    (b0 b1 : byte) (rest : bytes) :
  _client (self w) = Some c ->
  none_raises (_state_callbacks (self w)) (decoded_state b0 b1) ->
  notification_callback (b0 :: b1 :: rest) w
  = Fin {| self := set_state (decoded_state b0 b1) (self w);
           observed := observed w
                       ++ fan_out (_state_callbacks (self w)) (decoded_state b0 b1) |}
        (Returned tt)
  /\ run_dev _read_state w [answers (b0 :: b1 :: rest)]
     = Some ({| self := set_state (decoded_state b0 b1) (self w);
                observed := observed w
                            ++ fan_out (_state_callbacks (self w)) (decoded_state b0 b1) |},
             Returned tt,
             [OpReadGattChar STATE_CHARACTERISTIC_UUID])
  /\ (forall (m : Dev unit),
        (exists state, m w = _write_state state w) ->
        forall script w' o ops,
          run_dev m w script = Some (w', o, ops) -> observed w' = observed w)
  /\ (forall level, exists state, turn_on level w = _write_state state w)
  /\ (exists state, turn_off w = _write_state state w)
  /\ (forall level, exists state, set_brightness_level level w = _write_state state w).
Proof.
  intros Hc Hnone.
  destruct (commands_are_write_state w) as [Hon [Hoff Hset]].
  repeat split.
  - exact (notification_callback_fans_out b0 b1 rest w Hnone).
  - unfold run_dev, _read_state. cbn. rewrite Hc. cbn.
    pose proof (notification_callback_fans_out b0 b1 rest w Hnone) as Hn.
    unfold notification_callback in Hn. cbn in Hn. cbn. rewrite Hn. reflexivity.
  - intros m [state Hm] script w' o ops Hrun.
    unfold run_dev in Hrun. rewrite Hm in Hrun.
    exact (write_state_is_silent state w script w' o ops Hrun).
  - intros level. eexists. apply Hon.
  - eexists. apply Hoff.
  - intros level. eexists. apply Hset.
Qed.

Lemma mirror_changes_and_observers_witness :
  notification_callback [x01; x32] observed_dimmer
  = Fin {| self := set_state {| is_on := true; brightness_level := 50 |}
                     (self observed_dimmer);
           observed := [StateObserved 1 {| is_on := true; brightness_level := 50 |}] |}
        (Returned tt)
  /\ forall script w' o ops,
       run_dev (turn_on (Some 50%Z)) observed_dimmer script = Some (w', o, ops) ->
       observed w' = [].
Proof.
  assert (Hnone : none_raises (_state_callbacks (self observed_dimmer))
                              (decoded_state x01 x32)).
  { intros cb [<-|[]]. reflexivity. }
  destruct (mirror_changes_and_observers observed_dimmer connected_client
              x01 x32 [] eq_refl Hnone)
    as [Hn [_ [Hw [Hon _]]]].
  split.
  - exact Hn.
  - intros script w' o ops Hrun.
    exact (Hw (turn_on (Some 50%Z)) (Hon (Some 50%Z)) script w' o ops Hrun).
Defined.

(** ** Observer registration *)

(** C10: [register_state_callback] finishes without suspending, appends the
    observer and calls it once, with the mirror as it is, whatever the
    device has been through; on a device that has never connected, and on
    one that disconnect cleanup has just reset, the value replayed is the
    default state (off, brightness 0). *)
Theorem register_state_callback_replays (cb : Callback DecoraBLEDeviceState)
    (w : World) (dev : BLEDevice) (key : bytes) :
  register_state_callback cb w
  = Fin {| self := set_state_callbacks (_state_callbacks (self w) ++ [cb]) (self w);
           observed := observed w ++ [StateObserved (cb_id cb) (_state (self w))] |}
        (match cb_raises cb (_state (self w)) with
         | Some e => Raised e
         | None => Returned tt
         end)
  /\ default_state = {| is_on := false; brightness_level := 0 |}
  /\ observed (new_world dev key) = []
  /\ register_state_callback cb (new_world dev key)
     = Fin {| self := set_state_callbacks [cb] (init dev key);
              observed := [StateObserved (cb_id cb) default_state] |}
           (match cb_raises cb default_state with
            | Some e => Raised e
            | None => Returned tt
            end)
  /\ register_state_callback cb (on_self _disconnect_cleanup w)
     = Fin {| self := set_state_callbacks (_state_callbacks (self w) ++ [cb])
                        (_disconnect_cleanup (self w));
              observed := observed w ++ [StateObserved (cb_id cb) default_state] |}
           (match cb_raises cb default_state with
            | Some e => Raised e
            | None => Returned tt
            end).
Proof.
  assert (H : forall w0,
             register_state_callback cb w0
             = Fin {| self := set_state_callbacks (_state_callbacks (self w0) ++ [cb]) (self w0);
                      observed := observed w0 ++ [StateObserved (cb_id cb) (_state (self w0))] |}
                   (match cb_raises cb (_state (self w0)) with
                    | Some e => Raised e
                    | None => Returned tt
                    end)).
  { intros w0. unfold register_state_callback. cbn.
    destruct (cb_raises cb (_state (self w0))); reflexivity. }
  repeat split.
  - apply H.
  - rewrite H. reflexivity.
  - rewrite H. reflexivity.
Qed.

(** ** Disconnection *)

Lemma disconnect_run (w : World) (script : list (IoReply * EnvAct)) :
  run_dev disconnect w script
  = if device_is_connected (self w) then
      match script with
      | [] => None
      | (r, act) :: _ =>
          Some (on_self _disconnect_cleanup (interfere act w),
                outcome_of_reply r, [OpClientDisconnect])
      end
    else Some (on_self _disconnect_cleanup w, Returned tt, []).
Proof.
  unfold run_dev, disconnect, device_is_connected. cbn.
  destruct (_client (self w)) as [c|] eqn:Hc; cbn.
  - destruct (is_connected c); cbn.
    + rewrite Hc. cbn. destruct script as [|[r act] rest]; [reflexivity|].
      destruct r; reflexivity.
    + reflexivity.
  - reflexivity.
Qed.

(** C3, as stated, fails: on a connected device whose transport refuses
    the close, [disconnect()] raises the transport's error (after the
    cleanup of its [finally]). *)
Lemma disconnect_raises_when_close_fails : ~ disconnect_never_raises.
Proof.
  intros H.
  specialize (H observed_dimmer [fails (BleakError "close failed")]
                (on_self _disconnect_cleanup observed_dimmer)
                (Raised (BleakError "close failed"))
                [OpClientDisconnect] eq_refl).
  discriminate H.
Qed.

(** C3, amended: [disconnect()] always finishes, and however it ends the
    client handle and the summary are cleared and the mirror is the default
    state, also when the close fails; it raises only the error of a failed
    close; and called on a device that is not connected it awaits nothing
    and returns. *)
Theorem disconnect_always_cleans_up (w : World) (r : IoReply) (act : EnvAct)
    (rest : list (IoReply * EnvAct)) :
  exists w' o ops,
    run_dev disconnect w ((r, act) :: rest) = Some (w', o, ops)
    /\ _client (self w') = None
    /\ _summary (self w') = None
    /\ _state (self w') = default_state
    /\ (forall e, o = Raised e ->
          device_is_connected (self w) = true
          /\ r = Fail e
          /\ ops = [OpClientDisconnect])
    /\ (device_is_connected (self w) = false ->
        o = Returned tt /\ ops = []
        /\ run_dev disconnect w [] = Some (w', o, ops)).
Proof.
  rewrite !disconnect_run.
  destruct (device_is_connected (self w)).
  - eexists _, _, _. split; [reflexivity|].
    split; [reflexivity|]. split; [reflexivity|]. split; [reflexivity|].
    split.
    + intros e He. split; [reflexivity|]. split; [|reflexivity].
      destruct r as [v|e']; cbn in He; [discriminate|congruence].
    + discriminate.
  - eexists _, _, _. split; [reflexivity|].
    split; [reflexivity|]. split; [reflexivity|]. split; [reflexivity|].
    split.
    + intros e He. discriminate He.
    + intros _. repeat split.
Qed.

Lemma disconnect_always_cleans_up_witness :
  exists w' o ops,
    run_dev disconnect observed_dimmer [fails (BleakError "close failed")]
    = Some (w', o, ops)
    /\ o = Raised (BleakError "close failed")
    /\ _client (self w') = None
    /\ _summary (self w') = None
    /\ _state (self w') = default_state.
Proof.
  destruct (disconnect_always_cleans_up observed_dimmer
              (Fail (BleakError "close failed")) Quiet [])
    as [w' [o [ops [Hrun [Hc [Hs [Hst _]]]]]]].
  exists w', o, ops. split; [exact Hrun|].
  split; [|split; [exact Hc | split; [exact Hs | exact Hst]]].
  unfold run_dev in Hrun. cbn in Hrun. congruence.
Defined.

(** ** Connection attempts *)

(** The sibling paths: a failed unlock write resolves the future with the
    failure, closes the session, resets the device and raises
    [DeviceConnectionError]. *)
Lemma unlock_failure_cleans_up (key : bytes) (msg : string) :
  run_dev _do_connect (started_dimmer key) (unlock_fails (BleakError msg))
  = Some (on_self (fun d => set_future (Some (FException (BleakError msg)))
                              (set_running true d))
                  (new_world a_dimmer key),
          Raised (DeviceConnectionError msg),
          [OpEstablishConnection a_dimmer;
           OpWriteGattChar EVENT_CHARACTERISTIC_UUID (x11 :: x53 :: key);
           OpClientDisconnect]).
Proof. reflexivity. Qed.

(** A transport failure after the verification does the same and raises
    [IncorrectAPIKeyError]. *)
Lemma summary_failure_cleans_up (key : bytes) :
  run_dev _do_connect (started_dimmer key) (summary_read_fails (BleakError "GATT error"))
  = Some (on_self (fun d => set_future (Some (FException (BleakError "GATT error")))
                              (set_running true d))
                  (new_world a_dimmer key),
          Raised IncorrectAPIKeyError,
          [OpEstablishConnection a_dimmer;
           OpWriteGattChar EVENT_CHARACTERISTIC_UUID (x11 :: x53 :: key);
           OpSleep unlock_settle_delay;
           OpReadGattChar STATE_CHARACTERISTIC_UUID;
           OpStartNotify STATE_CHARACTERISTIC_UUID;
           OpReadGattChar SYSTEM_ID_DESCRIPTOR_UUID;
           OpClientDisconnect]).
Proof. reflexivity. Qed.

(** C2: what the code does when the verification read fails with [e].
    The error raised is [IncorrectAPIKeyError] whatever [e] was (a
    cancellation apart, which no handler catches); but that error is raised
    inside the [try] whose only handler is [except BLEAK_EXCEPTIONS], which
    it does not match, so the handler's cleanup is skipped: no close is
    awaited, the client handle stays set (the device still reports
    connected) and the connection future stays pending. *)
Theorem verification_failure_skips_cleanup (key : bytes) (e : exn) :
  run_dev _do_connect (started_dimmer key) (verification_fails e)
  = Some (on_self (set_client (Some connected_client)) (started_dimmer key),
          Raised (if is_Exception e then IncorrectAPIKeyError else e),
          [OpEstablishConnection a_dimmer;
           OpWriteGattChar EVENT_CHARACTERISTIC_UUID (x11 :: x53 :: key);
           OpSleep unlock_settle_delay;
           OpReadGattChar STATE_CHARACTERISTIC_UUID])
  /\ device_is_connected
       (self (on_self (set_client (Some connected_client)) (started_dimmer key))) = true
  /\ _device_connection_future
       (self (on_self (set_client (Some connected_client)) (started_dimmer key)))
     = Some FPending.
Proof.
  split; [|split; reflexivity].
  destruct e; reflexivity.
Qed.

(** The attempt that succeeds: the summary is captured, the future is
    resolved, the observers of both kinds are called and the mirror holds
    the state read. *)
Lemma successful_connect (key : bytes) :
  run_dev _do_connect
    (on_self (set_connection_callbacks [recorder 2])
       (on_self (set_state_callbacks [recorder 1]) (started_dimmer key)))
    connect_succeeds
  = Some ({| self :=
               {| _device := a_dimmer; _key := key; _running := true;
                  _device_connection_future := Some FResult;
                  _client := Some connected_client;
                  _summary := Some connected_summary;
                  _state := {| is_on := true; brightness_level := 50 |};
                  _connection_callbacks := [recorder 2];
                  _state_callbacks := [recorder 1] |};
             observed := [SummaryObserved 2 connected_summary;
                          StateObserved 1 {| is_on := true; brightness_level := 50 |}] |},
          Returned tt,
          [OpEstablishConnection a_dimmer;
           OpWriteGattChar EVENT_CHARACTERISTIC_UUID (x11 :: x53 :: key);
           OpSleep unlock_settle_delay;
           OpReadGattChar STATE_CHARACTERISTIC_UUID;
           OpStartNotify STATE_CHARACTERISTIC_UUID;
           OpReadGattChar SYSTEM_ID_DESCRIPTOR_UUID;
           OpReadGattChar MANUFACTURER_DESCRIPTOR_UUID;
           OpReadGattChar MODEL_NUMBER_DESCRIPTOR_UUID;
           OpReadGattChar SOFTWARE_REVISION_DESCRIPTOR_UUID;
           OpReadGattChar STATE_CHARACTERISTIC_UUID]).
Proof. reflexivity. Qed.

Lemma start_creates_future (key : bytes) :
  start (new_world a_dimmer key) = Fin (started_dimmer key) (Returned tt).
Proof. reflexivity. Qed.

(** ** Descriptor reads *)

Ltac use_bound IH H :=
  match type of H with
  | context [run ?i ?c ?s] =>
      let E := fresh "E" in
      destruct (run i c s) as [[[? ?] ?]|] eqn:E; [|discriminate H];
      apply IH in E; inversion H; subst; cbn; unfold count_reads in E; lia
  end.

Lemma read_summary_attempts_bound (descriptor : string) (u : Uuid) (attempts : list nat) :
  forall last w script w' o ops,
    run interfere (read_summary_attempts descriptor u attempts last w) script
    = Some (w', o, ops) ->
    count_reads ops <= List.length attempts.
Proof.
  induction attempts as [|attempt rest IH]; intros last w script w' o ops H.
  - cbn in H. inversion H. cbn. lia.
  - cbn in H.
    destruct (_client (self w)) eqn:Hc; cbn in H; [|inversion H; cbn; lia].
    destruct script as [|[r act] script1]; [discriminate|]. cbn in H.
    destruct r as [v|e]; cbn in H.
    { destruct v; cbn in H; inversion H; subst; cbn; lia. }
    destruct (in_BLEAK_EXCEPTIONS e); cbn in H; [|inversion H; cbn; lia].
    destruct (is_authorization_error e); cbn in H; [|inversion H; cbn; lia].
    destruct (attempt <=? 1); cbn in H; [|use_bound IH H].
    destruct script1 as [|[r2 act2] script2]; [discriminate|]. cbn in H.
    destruct r2 as [v2|e2]; cbn in H; [|inversion H; cbn; lia].
    destruct (device_is_connected (self (interfere act2 (interfere act w))));
      cbn in H; [use_bound IH H|].
    inversion H; subst; cbn; lia.
Qed.

Ltac retry_steps Hc Hconn :=
  unfold run_dev, read_summary_descriptor, device_is_connected; cbn;
  repeat (rewrite ?Hc; cbn; unfold device_is_connected; rewrite ?Hc, ?Hconn; cbn).

(** C4: [read_summary_descriptor] reads the transport at most 3 times; an
    error that is not of the authorization class is raised at once, first
    or after a retry, with no further read; after an authorization-class
    failure it sleeps 0.3 s and reads again (the client staying connected);
    two such failures and then a success return the value read; three such
    failures raise the last of them. *)
Theorem read_summary_descriptor_retries (descriptor : string) (u : Uuid)
    (w : World) (c : BleakClient) (e1 e2 e3 e : exn) (v : bytes) :
  _client (self w) = Some c ->
  is_connected c = true ->
  authorization_class e1 ->
  authorization_class e2 ->
  authorization_class e3 ->
  not_retried e ->
  (forall script w' o ops,
     run_dev (read_summary_descriptor descriptor u) w script = Some (w', o, ops) ->
     count_reads ops <= 3)
  /\ run_dev (read_summary_descriptor descriptor u) w [fails e]
     = Some (w, Raised e, [OpReadGattChar u])
  /\ run_dev (read_summary_descriptor descriptor u) w [fails e1; ok; fails e]
     = Some (w, Raised e,
             [OpReadGattChar u; OpSleep descriptor_retry_delay; OpReadGattChar u])
  /\ run_dev (read_summary_descriptor descriptor u) w
       [fails e1; ok; fails e2; ok; answers v]
     = Some (w, Returned v,
             [OpReadGattChar u; OpSleep descriptor_retry_delay;
              OpReadGattChar u; OpSleep descriptor_retry_delay;
              OpReadGattChar u])
  /\ run_dev (read_summary_descriptor descriptor u) w
       [fails e1; ok; fails e2; ok; fails e3]
     = Some (w, Raised e3,
             [OpReadGattChar u; OpSleep descriptor_retry_delay;
              OpReadGattChar u; OpSleep descriptor_retry_delay;
              OpReadGattChar u])
  /\ descriptor_retry_delay = 0.3%float.
Proof.
  intros Hc Hconn [Hb1 Ha1] [Hb2 Ha2] [Hb3 Ha3] He.
  assert (Himm : forall m : Dev bytes,
             (if in_BLEAK_EXCEPTIONS e
              then Some (if is_authorization_error e then m else raise e)
              else None)
             = (if in_BLEAK_EXCEPTIONS e then Some (raise e) else None)).
  { intros m. destruct He as [He|He]; rewrite He; [reflexivity|].
    destruct (in_BLEAK_EXCEPTIONS e); reflexivity. }
  split; [|split; [|split; [|split; [|split]]]].
  - intros script w' o ops H.
    apply (read_summary_attempts_bound descriptor u (seq 0 max_retries) None w script w' o ops H).
  - retry_steps Hc Hconn. rewrite Himm.
    destruct (in_BLEAK_EXCEPTIONS e); destruct w; reflexivity.
  - retry_steps Hc Hconn. rewrite Hb1, Ha1. retry_steps Hc Hconn. rewrite Himm.
    destruct (in_BLEAK_EXCEPTIONS e); destruct w; reflexivity.
  - retry_steps Hc Hconn. rewrite Hb1, Ha1. retry_steps Hc Hconn.
    rewrite Hb2, Ha2. retry_steps Hc Hconn. destruct w; reflexivity.
  - retry_steps Hc Hconn. rewrite Hb1, Ha1. retry_steps Hc Hconn.
    rewrite Hb2, Ha2. retry_steps Hc Hconn. rewrite Hb3, Ha3. cbn.
    destruct w; reflexivity.
  - reflexivity.
Qed.

Lemma read_summary_descriptor_retries_witness :
  run_dev (read_summary_descriptor "model" MODEL_NUMBER_DESCRIPTOR_UUID) observed_dimmer
    [fails (BleakError "Insufficient Authorization"); ok;
     fails (BleakError "ATT error: Insufficient Authentication"); ok;
     answers [x44; x57]]
  = Some (observed_dimmer, Returned [x44; x57],
          [OpReadGattChar MODEL_NUMBER_DESCRIPTOR_UUID; OpSleep descriptor_retry_delay;
           OpReadGattChar MODEL_NUMBER_DESCRIPTOR_UUID; OpSleep descriptor_retry_delay;
           OpReadGattChar MODEL_NUMBER_DESCRIPTOR_UUID])
  /\ run_dev (read_summary_descriptor "model" MODEL_NUMBER_DESCRIPTOR_UUID) observed_dimmer
       [fails (BleakError "Insufficient Authorization"); ok;
        fails (BleakError "ATT error: Insufficient Authentication"); ok;
        fails (TimeoutError "authorization timed out")]
     = Some (observed_dimmer, Raised (TimeoutError "authorization timed out"),
             [OpReadGattChar MODEL_NUMBER_DESCRIPTOR_UUID; OpSleep descriptor_retry_delay;
              OpReadGattChar MODEL_NUMBER_DESCRIPTOR_UUID; OpSleep descriptor_retry_delay;
              OpReadGattChar MODEL_NUMBER_DESCRIPTOR_UUID])
  /\ run_dev (read_summary_descriptor "model" MODEL_NUMBER_DESCRIPTOR_UUID) observed_dimmer
       [fails (BleakError "Characteristic not found")]
     = Some (observed_dimmer, Raised (BleakError "Characteristic not found"),
             [OpReadGattChar MODEL_NUMBER_DESCRIPTOR_UUID]).
Proof.
  destruct (read_summary_descriptor_retries "model" MODEL_NUMBER_DESCRIPTOR_UUID
              observed_dimmer connected_client
              (BleakError "Insufficient Authorization")
              (BleakError "ATT error: Insufficient Authentication")
              (TimeoutError "authorization timed out")
              (BleakError "Characteristic not found")
              [x44; x57]
              eq_refl eq_refl
              (conj eq_refl eq_refl) (conj eq_refl eq_refl) (conj eq_refl eq_refl)
              (or_intror eq_refl))
    as [_ [Himm [_ [Hok [Hfail _]]]]].
  split; [exact Hok | split; [exact Hfail | exact Himm]].
Defined.

(** The retry is abandoned when the link drops during the delay: the
    [disconnected] callback has cleared the client, and the loop raises
    [DeviceConnectionError] instead of reading again. *)
Lemma read_summary_descriptor_aborts_on_link_loss :
  run_dev (read_summary_descriptor "model" MODEL_NUMBER_DESCRIPTOR_UUID) observed_dimmer
    [fails (BleakError "Insufficient Authorization"); (Reply VNone, LinkLost)]
  = Some (on_self _disconnect_cleanup observed_dimmer,
          Raised (DeviceConnectionError "Client disconnected while reading model"),
          [OpReadGattChar MODEL_NUMBER_DESCRIPTOR_UUID; OpSleep descriptor_retry_delay]).
Proof. reflexivity. Qed.

(** ** Rediscovery *)

Lemma rediscovery_dropped_run (now : float) (i : DeviceInstance) :
  rediscovery_dropped now i = true ->
  _async_reconnect_on_discovery now i = Fin i (Returned tt).
Proof.
  unfold rediscovery_dropped, _async_reconnect_on_discovery. cbn.
  destruct (PrimFloat.ltb (PrimFloat.sub now (_last_connection_attempt i)) reconnect_cooldown);
    [reflexivity|].
  cbn. intros ->. reflexivity.
Qed.

(** C7: a rediscovery signal whose previous attempt is less than 5 s back
    ([now - last < 5.0]) or that finds a reconnection scheduled is dropped:
    the handler returns at once, leaves the instance as it is and awaits
    nothing, so no stagger sleep, no disconnect and no connect sequence
    happen.  A signal with [now - last < 5.0] false and none scheduled
    proceeds: the handler sets the flag, records [now] and suspends on the
    stagger sleep of [0.1 + offset]; on a device that is not connected it
    then awaits the connect sequence and clears the flag. *)
Theorem rediscovery_guard (now : float) (i : DeviceInstance) :
  reconnect_cooldown = 5%float
  /\ (PrimFloat.ltb (PrimFloat.sub now (_last_connection_attempt i)) reconnect_cooldown = true ->
      rediscovery_dropped now i = true)
  /\ (_reconnect_task_scheduled i = true -> rediscovery_dropped now i = true)
  /\ (rediscovery_dropped now i = true ->
      forall script,
        run_inst (_async_reconnect_on_discovery now) i script = Some (i, Returned tt, []))
  /\ (PrimFloat.ltb (PrimFloat.sub now (_last_connection_attempt i)) reconnect_cooldown = false ->
      _reconnect_task_scheduled i = false ->
      first_suspension (_async_reconnect_on_discovery now i)
      = Some (set_last_attempt now (set_scheduled true i),
              OpSleep (reconnect_delay (entry_id i)))
      /\ (device_is_connected (self (device i)) = false ->
          forall r,
            run_inst (_async_reconnect_on_discovery now) i [ok; quietly r]
            = Some (set_scheduled false (set_last_attempt now (set_scheduled true i)),
                    match r with
                    | Reply _ => Returned tt
                    | Fail e => if is_Exception e then Returned tt else Raised e
                    end,
                    [OpSleep (reconnect_delay (entry_id i)); OpStartConnection]))).
Proof.
  split; [reflexivity|].
  split; [intros H; unfold rediscovery_dropped; rewrite H; reflexivity|].
  split; [intros H; unfold rediscovery_dropped; rewrite H; apply orb_true_r|].
  split.
  - intros H script. unfold run_inst. rewrite (rediscovery_dropped_run now i H).
    reflexivity.
  - intros Hcool Hflag. split.
    + unfold _async_reconnect_on_discovery. cbn. rewrite Hcool, Hflag. reflexivity.
    + intros Hconn r. unfold run_inst, _async_reconnect_on_discovery. cbn.
      rewrite Hcool, Hflag. cbn.
      unfold device_is_connected in *. cbn.
      destruct i as [[d obs] entry flag last]. cbn in *.
      destruct (_client d) as [c|] eqn:Hc.
      * rewrite Hconn. cbn. destruct r as [v|e]; cbn; [reflexivity|].
        destruct (is_Exception e); reflexivity.
      * cbn. destruct r as [v|e]; cbn; [reflexivity|].
        destruct (is_Exception e); reflexivity.
Qed.

Lemma rediscovery_guard_witness :
  run_inst (_async_reconnect_on_discovery 12.5%float)
           (an_instance (new_world a_dimmer []) 10%float) [ok; ok]
  = Some (an_instance (new_world a_dimmer []) 10%float, Returned tt, [])
  /\ run_inst (_async_reconnect_on_discovery 15%float)
              (an_instance (new_world a_dimmer []) 10%float) [ok; ok]
     = Some (an_instance (new_world a_dimmer []) 15%float, Returned tt,
             [OpSleep 0.54%float; OpStartConnection]).
Proof.
  split.
  - destruct (rediscovery_guard 12.5%float (an_instance (new_world a_dimmer []) 10%float))
      as [_ [Hcool [_ [Hdrop _]]]].
    exact (Hdrop (Hcool eq_refl) [ok; ok]).
  - destruct (rediscovery_guard 15%float (an_instance (new_world a_dimmer []) 10%float))
      as [_ [_ [_ [_ Hgo]]]].
    destruct (Hgo eq_refl eq_refl) as [_ Hrun].
    exact (Hrun eq_refl (Reply VNone)).
Defined.

(** On a connected device the accepted signal first disconnects and lets
    the link settle for 1 s. *)
Lemma rediscovery_disconnects_first :
  run_inst (_async_reconnect_on_discovery 15%float)
           (an_instance observed_dimmer 10%float) [ok; ok; ok; ok]
  = Some (an_instance (on_self _disconnect_cleanup observed_dimmer) 15%float,
          Returned tt,
          [OpSleep 0.54%float; OpClientDisconnect; OpSleep 1%float; OpStartConnection]).
Proof. reflexivity. Qed.

(** A scheduled reconnection drops the signal however old the previous
    attempt is. *)
Lemma rediscovery_dropped_while_scheduled :
  run_inst (_async_reconnect_on_discovery 1000%float)
           (set_scheduled true (an_instance observed_dimmer 10%float)) [ok; ok]
  = Some (set_scheduled true (an_instance observed_dimmer 10%float), Returned tt, []).
Proof. reflexivity. Qed.

(** ** Coordination of [connect()] *)

Module CoordinationFacts.
Import Coordination CoordinationMore.

Ltac upd_cases :=
  repeat match goal with
         | H : context [Nat.eqb ?a ?b] |- _ => destruct (Nat.eqb_spec a b); subst
         | |- context [Nat.eqb ?a ?b] => destruct (Nat.eqb_spec a b); subst
         end.

Lemma init_inv (c : bool) : Inv (init c).
Proof.
  repeat split; intros; cbn in *; discriminate.
Qed.

Lemma set_pc_inv (i : nat) (p : Pc) (s : Sys) :
  Inv s ->
  (forall t, pc s i <> AwaitOwn t) ->
  (forall t, p <> AwaitOwn t) ->
  (forall t, p <> AwaitJoined t) ->
  Inv (set_pc i p s).
Proof.
  intros [Ha [Hb Hc]] Hold Hown Hjoin. repeat split.
  - intros t Ht. cbn in *. destruct (Ha t Ht) as [j [Hj1 Hj2]].
    exists j. split; [exact Hj1|]. unfold upd.
    destruct (Nat.eqb_spec j i) as [->|Hne]; [|exact Hj2].
    exfalso. exact (Hold t Hj2).
  - intros j t Hj. cbn in *. unfold upd in *.
    destruct (Nat.eqb_spec j i) as [->|Hne].
    + exfalso. exact (Hown t Hj).
    + exact (Hb j t Hj).
  - intros j t Hj. cbn in *. unfold upd in *.
    destruct (Nat.eqb_spec j i) as [->|Hne].
    + exact (Hjoin t Hj).
    + exact (Hc j t Hj).
Qed.

Lemma start_attempt_inv (i : nat) (s : Sys) :
  Inv s -> _connect_lock s = None -> Inv (start_attempt i s).
Proof.
  intros [Ha [Hb Hc]] Hl. repeat split.
  - intros t Ht. cbn in *. unfold upd in *. upd_cases.
    + exists i. split; [reflexivity|]. rewrite Nat.eqb_refl. reflexivity.
    + destruct (Ha t Ht) as [j [Hj _]]. congruence.
  - intros j t Hj. cbn in *. unfold upd in *. upd_cases; [reflexivity|].
    rewrite (Hb j t Hj) in Hl. discriminate.
  - intros j t Hj. cbn in *. unfold upd in *. upd_cases; [discriminate|].
    exact (Hc j t Hj).
Qed.

Lemma leave_own_inv (i t : nat) (r : Result) (s : Sys) :
  Inv s ->
  pc s i = AwaitOwn t ->
  tasks s t = Completed r ->
  Inv (leave i r (set_connection_task None s)).
Proof.
  intros [Ha [Hb Hc]] Hp Ht.
  pose proof (Hb i t Hp) as Hlock. repeat split.
  - intros t' Ht'. cbn in *. destruct (Ha t' Ht') as [j [Hj1 Hj2]].
    assert (j = i) by congruence. subst j.
    assert (t' = t) by congruence. subst t'. congruence.
  - intros j t' Hj. cbn in *. unfold upd in *. upd_cases; [discriminate|].
    pose proof (Hb j t' Hj). congruence.
  - intros j t' Hj. cbn in *. unfold upd in *. upd_cases; [discriminate|].
    exact (Hc j t' Hj).
Qed.

Lemma step_inv (a : Action) (s s' : Sys) :
  Inv s -> step a s = Some s' -> Inv s'.
Proof.
  intros HI H. pose proof HI as [Ha [Hb Hc]].
  destruct a as [i|i|t r c| |t]; cbn in H.
  - destruct (pc s i) eqn:Hp; try discriminate. inversion H; subst; clear H.
    apply set_pc_inv; try discriminate; auto. rewrite Hp. discriminate.
  - destruct (pc s i) eqn:Hp; try discriminate.
    + (* Called *)
      destruct (connected s); inversion H; subst; clear H;
        (apply set_pc_inv; try discriminate; auto; rewrite Hp; discriminate).
    + (* WaitLock *)
      destruct (_connect_lock s) eqn:Hl; [discriminate|].
      destruct (connected s).
      * inversion H; subst; clear H.
        apply set_pc_inv; try discriminate; auto. rewrite Hp. discriminate.
      * destruct (_connection_task s) as [t|].
        -- destruct (tasks s t) eqn:Ht; inversion H; subst; clear H;
             try (apply start_attempt_inv; assumption).
           destruct (Ha t Ht) as [j [Hj _]]. congruence.
        -- inversion H; subst; clear H. apply start_attempt_inv; assumption.
    + (* AwaitJoined: never reached *)
      exfalso. exact (Hc i t Hp).
    + (* AwaitOwn *)
      destruct (tasks s t) eqn:Ht; try discriminate.
      inversion H; subst; clear H. eapply leave_own_inv; eauto.
  - destruct (tasks s t) eqn:Ht; try discriminate.
    inversion H; subst; clear H. repeat split.
    + intros t' Ht'. cbn in *. unfold upd in *. upd_cases; [discriminate|].
      exact (Ha t' Ht').
    + exact Hb.
    + exact Hc.
  - inversion H; subst; clear H. repeat split; assumption.
  - destruct (tasks s t); try discriminate.
    inversion H; subst; clear H. repeat split; assumption.
Qed.

Lemma exec_inv (acts : list Action) :
  forall s s', Inv s -> exec acts s = Some s' -> Inv s'.
Proof.
  induction acts as [|a acts IH]; intros s s' HI H; cbn in H.
  - inversion H; subst. exact HI.
  - destruct (step a s) as [s1|] eqn:Hs; [|discriminate].
    eapply IH; [|exact H]. eapply step_inv; eauto.
Qed.

Lemma inv_exclusive (s : Sys) : Inv s -> at_most_one_running s.
Proof.
  intros [Ha [Hb Hc]] t t' Ht Ht'.
  destruct (Ha t Ht) as [i [Hi1 Hi2]].
  destruct (Ha t' Ht') as [j [Hj1 Hj2]].
  assert (i = j) by congruence. subst j. congruence.
Qed.

(** The handle and the lock. *)

Ltac upd_split j i := unfold upd in *; destruct (Nat.eqb_spec j i).

Lemma init_inv2 (c : bool) : Inv2 (init c).
Proof.
  repeat split; intros; cbn in *; try discriminate; reflexivity.
Qed.

Lemma set_pc_inv2 (i : nat) (p : Pc) (s : Sys) :
  Inv2 s ->
  (forall t, pc s i <> AwaitOwn t) ->
  (forall e, p <> Finished (Failure e)) ->
  Inv2 (set_pc i p s).
Proof.
  intros [H1 [H2 [H3 H4]]] Hold Hnew. repeat split.
  - intros j Hj. cbn in *. destruct (H1 j Hj) as [t [Hp [Hs Ht]]].
    exists t. repeat split; try assumption.
    unfold upd. destruct (Nat.eqb_spec j i) as [->|_]; [|exact Hp].
    exfalso. exact (Hold t Hp).
  - exact H2.
  - intros j e Hj. cbn in *. unfold upd in Hj.
    destruct (Nat.eqb_spec j i) as [->|_].
    + exfalso. exact (Hnew e Hj).
    + exact (H3 j e Hj).
  - exact H4.
Qed.

Lemma start_attempt_inv2 (i : nat) (s : Sys) :
  Inv2 s -> (forall e, pc s i <> Finished (Failure e)) -> Inv2 (start_attempt i s).
Proof.
  intros [H1 [H2 [H3 H4]]] Hi. repeat split.
  - intros j Hj. cbn in *. inversion Hj; subst j.
    exists (created s). unfold upd. rewrite !Nat.eqb_refl.
    repeat split. discriminate.
  - intros Hl. cbn in Hl. discriminate.
  - intros j e Hj. cbn in *. unfold upd in Hj.
    destruct (Nat.eqb_spec j i) as [->|_]; [discriminate|].
    destruct (H3 j e Hj) as [t Ht]. exists t. unfold upd.
    destruct (Nat.eqb_spec t (created s)) as [->|_]; [|exact Ht].
    rewrite (H4 (created s) (le_n _)) in Ht. discriminate.
  - intros t Ht. cbn in *. unfold upd.
    destruct (Nat.eqb_spec t (created s)) as [->|_]; [lia|].
    apply H4. lia.
Qed.

Lemma step_inv2 (a : Action) (s s' : Sys) :
  Inv s -> Inv2 s -> step a s = Some s' -> Inv2 s'.
Proof.
  intros [_ [_ Hjoin]] HI H. pose proof HI as [H1 [H2 [H3 H4]]].
  destruct a as [i|i|t r c| |t]; cbn in H.
  - destruct (pc s i) eqn:Hp; try discriminate. inversion H; subst; clear H.
    apply set_pc_inv2; try discriminate; auto. rewrite Hp. discriminate.
  - destruct (pc s i) eqn:Hp; try discriminate.
    + destruct (connected s); inversion H; subst; clear H;
        (apply set_pc_inv2; try discriminate; auto; rewrite Hp; discriminate).
    + destruct (_connect_lock s) eqn:Hl; [discriminate|].
      destruct (connected s).
      * inversion H; subst; clear H.
        apply set_pc_inv2; try discriminate; auto. rewrite Hp. discriminate.
      * rewrite (H2 Hl) in H. inversion H; subst; clear H.
        apply start_attempt_inv2; [exact HI|]. rewrite Hp. discriminate.
    + exfalso. exact (Hjoin i t Hp).
    + destruct (tasks s t) eqn:Ht; try discriminate.
      inversion H; subst; clear H. split; [|split; [|split]].
      * intros j Hj. cbn in Hj. discriminate.
      * intros _. reflexivity.
      * intros j e Hj. cbn in *. unfold upd in Hj.
        destruct (Nat.eqb_spec j i) as [->|_].
        -- injection Hj as Hr. rewrite Hr in Ht. exists t. exact Ht.
        -- exact (H3 j e Hj).
      * exact H4.
  - destruct (tasks s t) eqn:Ht; try discriminate.
    inversion H; subst; clear H. repeat split.
    + intros j Hj. cbn in *. destruct (H1 j Hj) as [t' [Hp [Hs Hu]]].
      exists t'. repeat split; try assumption. unfold upd.
      destruct (Nat.eqb_spec t' t) as [->|_]; [discriminate|exact Hu].
    + exact H2.
    + intros j e Hj. cbn in *. destruct (H3 j e Hj) as [t' Ht'].
      exists t'. unfold upd. destruct (Nat.eqb_spec t' t) as [->|_]; [congruence|exact Ht'].
    + intros t' Hc. cbn in *. unfold upd.
      destruct (Nat.eqb_spec t' t) as [->|_]; [|exact (H4 t' Hc)].
      rewrite (H4 t Hc) in Ht. discriminate.
  - inversion H; subst; clear H. exact HI.
  - destruct (tasks s t); try discriminate.
    inversion H; subst; clear H. exact HI.
Qed.

Lemma exec_inv2 (acts : list Action) :
  forall s s', Inv s -> Inv2 s -> exec acts s = Some s' -> Inv2 s'.
Proof.
  induction acts as [|a acts IH]; intros s s' HI HI2 H; cbn in H.
  - inversion H; subst. exact HI2.
  - destruct (step a s) as [s1|] eqn:Hs; [|discriminate].
    apply (IH s1 s'); [| |exact H].
    + exact (step_inv a s s1 HI Hs).
    + exact (step_inv2 a s s1 HI HI2 Hs).
Qed.

Lemma reachable_inv2 (acts : list Action) (c : bool) (s : Sys) :
  exec acts (init c) = Some s -> Inv2 s.
Proof.
  intros H. apply (exec_inv2 acts (init c) s); [| |exact H].
  - apply init_inv.
  - apply init_inv2.
Qed.

Lemma outcomes_of_two_callers :
  outcome (concurrent_calls 2 ++ first_fails_second_succeeds) false 0
  = Some (Failure (DeviceConnectionError "timeout"))
  /\ outcome (concurrent_calls 2 ++ first_fails_second_succeeds) false 1
     = Some Success.
Proof. split; reflexivity. Qed.

(** C1, as stated, fails: of two callers that call [connect()] together,
    the first raises the failure of its attempt and the second, which gets
    the lock afterwards and starts an attempt of its own, returns. *)
Lemma concurrent_callers_differ : ~ same_terminal_outcome.
Proof.
  intros H.
  destruct outcomes_of_two_callers as [H0 H1].
  specialize (H 2 first_fails_second_succeeds false 0 1 _ _ eq_refl H0 H1).
  discriminate H.
Qed.

(** C1, amended: in every state the event loop can reach, whatever the
    callers and the transport do: at most one connection attempt is
    running; the attempt in flight is awaited by the caller that created
    it, which holds the connection lock, and no caller awaits an attempt
    created by another; the in-flight handle is set exactly while the lock
    is held, and is the holder's own attempt.  A caller on its first turn
    returns at once when [is_connected] is true, which it is as soon as the
    attempt in flight has its session, and queues for the lock otherwise; a
    caller queued for the lock cannot move while the lock is held, and once
    it is free returns if connected and otherwise starts an attempt of its
    own; the holder whose attempt has completed leaves with that attempt's
    outcome, clearing the handle and releasing the lock in the same turn. *)
Theorem connect_attempts_are_exclusive (acts : list Action) (c : bool) (s : Sys) :
  exec acts (init c) = Some s ->
  at_most_one_running s
  /\ owned_by_lock_holder s
  /\ nobody_joined s
  /\ (_connect_lock s = None -> _connection_task s = None)
  /\ (forall i, _connect_lock s = Some i ->
        exists t, pc s i = AwaitOwn t /\ _connection_task s = Some t)
  /\ (forall j, pc s j = Called ->
        step (Resume j) s
        = Some (set_pc j (if connected s then Finished Success else WaitLock) s))
  /\ (forall j, pc s j = WaitLock ->
        step (Resume j) s
        = match _connect_lock s with
          | Some _ => None
          | None =>
              Some (if connected s then set_pc j (Finished Success) s
                    else start_attempt j s)
          end)
  /\ (forall i t r, pc s i = AwaitOwn t -> tasks s t = Completed r ->
        step (Resume i) s = Some (leave i r (set_connection_task None s))).
Proof.
  intros H.
  assert (HI : Inv s) by (eapply exec_inv; [apply init_inv | exact H]).
  destruct (reachable_inv2 acts c s H) as [H1 [H2 _]].
  split; [apply inv_exclusive; exact HI|].
  destruct HI as [Ha [_ Hc]].
  split; [exact Ha|]. split; [exact Hc|]. split; [exact H2|].
  split; [|split; [|split]].
  - intros i Hi. destruct (H1 i Hi) as [t [Hp [Hs _]]].
    exists t. split; assumption.
  - intros j Hj. cbn. rewrite Hj. destruct (connected s); reflexivity.
  - intros j Hj. cbn. rewrite Hj.
    destruct (_connect_lock s) eqn:Hl; [reflexivity|].
    rewrite (H2 Hl). destruct (connected s); reflexivity.
  - intros i t r Hp Ht. cbn. rewrite Hp, Ht. reflexivity.
Qed.

Lemma connect_attempts_are_exclusive_witness :
  exists s,
    exec late_caller_returns_early (init false) = Some s
    /\ tasks s 0 = Running
    /\ connected s = true
    /\ pc s 2 = Finished Success
    /\ pc s 1 = WaitLock
    /\ step (Resume 1) s = None
    /\ at_most_one_running s.
Proof.
  eexists. split; [reflexivity|].
  destruct (connect_attempts_are_exclusive late_caller_returns_early false _ eq_refl)
    as [Hone [_ [_ [_ [_ [_ [Hwait _]]]]]]].
  split; [reflexivity|]. split; [reflexivity|]. split; [reflexivity|].
  split; [reflexivity|]. split; [exact (Hwait 1 eq_refl) | exact Hone].
Defined.

(** A caller that arrives while the attempt in flight already has its
    session returns with success although the attempt then fails, and the
    attempt's creator raises. *)
Lemma late_caller_succeeds_on_failed_attempt :
  outcome (late_caller_returns_early ++ attempt_fails_afterwards) false 2 = Some Success
  /\ outcome (late_caller_returns_early ++ attempt_fails_afterwards) false 0
     = Some (Failure IncorrectAPIKeyError)
  /\ outcome (late_caller_returns_early ++ attempt_fails_afterwards) false 1 = None.
Proof. repeat split. Qed.

(** The branch that joins an attempt in flight, were it taken, does not
    propagate a failure of that attempt either: it goes on to an attempt of
    its own ("Task failed, continue to try new connection"). *)
Lemma joined_failure_starts_new_attempt (i t : nat) (e : exn) (s : Sys) :
  pc s i = AwaitJoined t ->
  tasks s t = Completed (Failure e) ->
  is_Exception e = true ->
  step (Resume i) s = Some (start_attempt i s).
Proof.
  intros Hp Ht He. cbn. rewrite Hp, Ht, He. reflexivity.
Qed.

End CoordinationFacts.

(* ================================================================== *)
(** * Further properties of the device *)

(** ** The connection future *)

(** X1: the connection future is resolved at most once: whatever
    [_handle_device_connection] is called with a second time, the device
    stays as the first call left it; a pending future takes the outcome of
    the first call. *)
Theorem connection_future_resolved_once (d : DecoraBLEDevice) (first second : option exn) :
  _handle_device_connection second (_handle_device_connection first d)
  = _handle_device_connection first d
  /\ (_device_connection_future d = Some FPending ->
      _device_connection_future (_handle_device_connection first d)
      = Some (match first with
              | Some e => FException e
              | None => FResult
              end)).
Proof.
  unfold _handle_device_connection. split.
  - destruct (_device_connection_future d) as [f|] eqn:Hf.
    + destruct (done f) eqn:Hd.
      * rewrite Hf, Hd. reflexivity.
      * destruct first; cbn; reflexivity.
    + rewrite Hf. reflexivity.
  - intros Hf. rewrite Hf. cbn. destruct first; reflexivity.
Qed.

Lemma connection_future_resolved_once_witness :
  _device_connection_future
    (_handle_device_connection None
       (_handle_device_connection (Some (BleakError "lost"))
          (self (started_dimmer []))))
  = Some (FException (BleakError "lost")).
Proof.
  destruct (connection_future_resolved_once (self (started_dimmer []))
              (Some (BleakError "lost")) None) as [Hsame Hfirst].
  rewrite Hsame. exact (Hfirst eq_refl).
Defined.

(** ** State packets *)

Lemma byte_of_int_round_trip (z : Z) (b : byte) :
  byte_of_int z = Some b -> int_of_byte b = z.
Proof.
  unfold byte_of_int, int_of_byte.
  destruct ((0 <=? z)%Z && (z <? 256)%Z) eqn:Hr; [|discriminate].
  apply andb_true_iff in Hr. destruct Hr as [H0 H1].
  apply Z.leb_le in H0. intros Hb.
  apply Byte.to_of_N in Hb. rewrite Hb. apply Z2N.id. exact H0.
Qed.

(** X2: the state packet round trip: a packet that [_write_state] builds
    for a state, applied as a notification or read payload, is accepted
    without suspending, and the mirror then reads that state, whatever it
    held; nothing else of the device changes. *)
Theorem state_packet_round_trip (state : DecoraBLEDeviceState) (packet : bytes) (w : World) :
  state_packet state = Some packet ->
  exists w',
    _apply_device_state_data packet w = Fin w' (Returned tt)
    /\ _state (self w') = state
    /\ w' = on_self (set_state state) w.
Proof.
  unfold state_packet. destruct (byte_of_int (brightness_level state)) as [b|] eqn:Hb;
    [|discriminate].
  intros H. inversion H; subst; clear H.
  apply byte_of_int_round_trip in Hb.
  exists (on_self (set_state state) w).
  split; [|split; reflexivity].
  unfold _apply_device_state_data. cbn. rewrite Hb.
  destruct state as [on level]. cbn. destruct on; reflexivity.
Qed.

Lemma state_packet_round_trip_witness :
  exists w',
    _apply_device_state_data [x01; x32] observed_dimmer = Fin w' (Returned tt)
    /\ _state (self w') = {| is_on := true; brightness_level := 50 |}.
Proof.
  destruct (state_packet_round_trip {| is_on := true; brightness_level := 50 |}
              [x01; x32] observed_dimmer eq_refl) as [w' [Hrun [Hst _]]].
  exists w'. split; [exact Hrun | exact Hst].
Defined.

(** X3: a payload of fewer than two bytes is refused with [IndexError]
    before anything changes: the notification callback and [_read_state]
    leave the mirror as it was and call no observer. *)
Theorem short_state_payload_is_refused (data : bytes) (w : World) (c : BleakClient) :
  List.length data < 2 ->
  _client (self w) = Some c ->
  notification_callback data w
  = Fin w (Raised (IndexError "bytearray index out of range"))
  /\ run_dev _read_state w [answers data]
     = Some (w, Raised (IndexError "bytearray index out of range"),
             [OpReadGattChar STATE_CHARACTERISTIC_UUID]).
Proof.
  intros Hlen Hc.
  assert (Hd : data = [] \/ exists b, data = [b]).
  { destruct data as [|b [|b' r]]; [left; reflexivity | right; exists b; reflexivity |].
    simpl in Hlen. lia. }
  split.
  - destruct Hd as [->|[b ->]]; reflexivity.
  - unfold run_dev, _read_state. cbn. rewrite Hc. cbn.
    destruct Hd as [->|[b ->]]; reflexivity.
Qed.

Lemma short_state_payload_is_refused_witness :
  run_dev _read_state observed_dimmer [answers [x01]]
  = Some (observed_dimmer, Raised (IndexError "bytearray index out of range"),
          [OpReadGattChar STATE_CHARACTERISTIC_UUID]).
Proof.
  apply (short_state_payload_is_refused [x01] observed_dimmer connected_client);
    [simpl; lia | reflexivity].
Defined.

(** ** Commands *)

(** X6: [turn_off()] followed by [turn_on()] without a level brings the
    light back at the brightness it had: the two acknowledged writes are
    [[0, b]] and [[1, b]] for the mirror's brightness [b], and the mirror
    ends on with that brightness. *)
Theorem turn_off_then_on_keeps_brightness (w : World) (c : BleakClient) (b : byte) :
  _client (self w) = Some c ->
  byte_of_int (brightness_level (_state (self w))) = Some b ->
  run_dev (turn_off ;; turn_on None) w [ok; ok]
  = Some (on_self (set_state {| is_on := true;
                                brightness_level := brightness_level (_state (self w)) |}) w,
          Returned tt,
          [OpWriteGattChar STATE_CHARACTERISTIC_UUID [x00; b];
           OpWriteGattChar STATE_CHARACTERISTIC_UUID [x01; b]]).
Proof.
  intros Hc Hb. unfold run_dev, turn_off, turn_on, _write_state, state_packet. cbn.
  rewrite Hb. cbn. rewrite Hc. cbn. rewrite Hb. cbn. rewrite Hc. cbn. reflexivity.
Qed.

Lemma turn_off_then_on_keeps_brightness_witness :
  let w := on_self (set_state {| is_on := true; brightness_level := 80 |}) observed_dimmer in
  run_dev (turn_off ;; turn_on None) w [ok; ok]
  = Some (w, Returned tt,
          [OpWriteGattChar STATE_CHARACTERISTIC_UUID [x00; x50];
           OpWriteGattChar STATE_CHARACTERISTIC_UUID [x01; x50]]).
Proof.
  intros w.
  apply (turn_off_then_on_keeps_brightness w connected_client x50); reflexivity.
Defined.

(** ** Registration and removal of observers *)

Lemma remove_first_last {A} (cb : Callback A) (l : list (Callback A)) :
  (forall x, In x l -> cb_id x <> cb_id cb) ->
  remove_first (cb_id cb) (l ++ [cb]) = Some l.
Proof.
  induction l as [|x l IH]; intros Hfresh; cbn.
  - rewrite Nat.eqb_refl. reflexivity.
  - destruct (Nat.eqb_spec (cb_id x) (cb_id cb)) as [E|_].
    + exfalso. exact (Hfresh x (or_introl eq_refl) E).
    + rewrite IH; [reflexivity|]. intros y Hy. apply Hfresh. right. exact Hy.
Qed.

Lemma remove_first_absent {A} (id : nat) (l : list (Callback A)) :
  (forall x, In x l -> cb_id x <> id) ->
  remove_first id l = None.
Proof.
  induction l as [|x l IH]; intros Hfresh; cbn; [reflexivity|].
  destruct (Nat.eqb_spec (cb_id x) id) as [E|_].
  - exfalso. exact (Hfresh x (or_introl eq_refl) E).
  - rewrite IH; [reflexivity|]. intros y Hy. apply Hfresh. right. exact Hy.
Qed.

(** X8: registering a state observer that was not registered and then
    removing it (the closure [register_state_callback] returns) leaves the
    device as it was, the observer having been called once; removing it a
    second time raises [ValueError] and changes nothing. *)
Theorem register_then_unregister (cb : Callback DecoraBLEDeviceState) (w : World) :
  (forall x, In x (_state_callbacks (self w)) -> cb_id x <> cb_id cb) ->
  cb_raises cb (_state (self w)) = None ->
  (register_state_callback cb ;; unregister_state_callback cb) w
  = Fin {| self := self w;
           observed := observed w ++ [StateObserved (cb_id cb) (_state (self w))] |}
        (Returned tt)
  /\ (register_state_callback cb ;; unregister_state_callback cb ;;
      unregister_state_callback cb) w
     = Fin {| self := self w;
              observed := observed w ++ [StateObserved (cb_id cb) (_state (self w))] |}
           (Raised (ValueError "list.remove(x): x not in list")).
Proof.
  intros Hfresh Hquiet.
  unfold register_state_callback, unregister_state_callback. cbn.
  rewrite Hquiet. cbn. rewrite (remove_first_last cb _ Hfresh). cbn.
  rewrite (remove_first_absent (cb_id cb) _ Hfresh).
  destruct w as [d obs]. destruct d. split; reflexivity.
Qed.

Lemma register_then_unregister_witness :
  (register_state_callback (recorder 2) ;; unregister_state_callback (recorder 2))
    observed_dimmer
  = Fin {| self := self observed_dimmer;
           observed := [StateObserved 2 default_state] |}
        (Returned tt).
Proof.
  destruct (register_then_unregister (recorder 2) observed_dimmer) as [H _].
  - intros x [<-|[]]. cbn. discriminate.
  - reflexivity.
  - exact H.
Defined.

(** ** Subscription to state notifications *)

Ltac use_notify_bound IH H :=
  match type of H with
  | context [run ?i ?c ?s] =>
      let E := fresh "E" in
      destruct (run i c s) as [[[? ?] ?]|] eqn:E; [|discriminate H];
      apply IH in E; inversion H; subst; cbn; unfold count_subscriptions in E; lia
  end.

Lemma start_notify_attempts_bound (attempts : list nat) :
  forall last w script w' o ops,
    run interfere (start_notify_attempts attempts last w) script = Some (w', o, ops) ->
    count_subscriptions ops <= List.length attempts.
Proof.
  induction attempts as [|attempt rest IH]; intros last w script w' o ops H.
  - cbn in H. inversion H. cbn. lia.
  - cbn in H.
    destruct (_client (self w)) eqn:Hc; cbn in H.
    + destruct script as [|[r act] script1]; [discriminate|]. cbn in H.
      destruct r as [v|e]; cbn in H; [inversion H; subst; cbn; lia|].
      destruct (in_BLEAK_EXCEPTIONS e); cbn in H; [|inversion H; cbn; lia].
      destruct (attempt <=? 1); cbn in H; [|use_notify_bound IH H].
      destruct script1 as [|[r2 act2] script2]; [discriminate|]. cbn in H.
      destruct r2 as [v2|e2]; cbn in H; [|inversion H; cbn; lia].
      destruct (device_is_connected (self (interfere act2 (interfere act w))));
        cbn in H; [use_notify_bound IH H|].
      inversion H; subst; cbn; lia.
    + (* no client: the [AttributeError] of the call is one of
         [BLEAK_EXCEPTIONS] and takes the retry path *)
      destruct (attempt <=? 1); cbn in H; [|apply IH in H; cbn; lia].
      destruct script as [|[r2 act2] script2]; [discriminate|]. cbn in H.
      destruct r2 as [v2|e2]; cbn in H; [|inversion H; cbn; lia].
      destruct (device_is_connected (self (interfere act2 w)));
        cbn in H; [use_notify_bound IH H|].
      inversion H; subst; cbn; lia.
Qed.

Ltac notify_steps Hc Hconn :=
  unfold run_dev, _register_for_state_notifications, device_is_connected; cbn;
  repeat (rewrite ?Hc; cbn; unfold device_is_connected; rewrite ?Hc, ?Hconn; cbn).

(** X4: [_register_for_state_notifications] subscribes at most 3 times;
    unlike the descriptor reads it retries every transport error, whatever
    its text, after a 0.4 s sleep (the client staying connected): two
    failures and a success return, three failures raise the last error;
    an exception outside [BLEAK_EXCEPTIONS] is raised at once. *)
Theorem notification_registration_retries (w : World) (c : BleakClient)
    (e1 e2 e3 e : exn) :
  _client (self w) = Some c ->
  is_connected c = true ->
  in_BLEAK_EXCEPTIONS e1 = true ->
  in_BLEAK_EXCEPTIONS e2 = true ->
  in_BLEAK_EXCEPTIONS e3 = true ->
  in_BLEAK_EXCEPTIONS e = false ->
  (forall script w' o ops,
     run_dev _register_for_state_notifications w script = Some (w', o, ops) ->
     count_subscriptions ops <= 3)
  /\ run_dev _register_for_state_notifications w [fails e]
     = Some (w, Raised e, [OpStartNotify STATE_CHARACTERISTIC_UUID])
  /\ run_dev _register_for_state_notifications w [fails e1; ok; fails e2; ok; ok]
     = Some (w, Returned tt,
             [OpStartNotify STATE_CHARACTERISTIC_UUID; OpSleep notify_retry_delay;
              OpStartNotify STATE_CHARACTERISTIC_UUID; OpSleep notify_retry_delay;
              OpStartNotify STATE_CHARACTERISTIC_UUID])
  /\ run_dev _register_for_state_notifications w [fails e1; ok; fails e2; ok; fails e3]
     = Some (w, Raised e3,
             [OpStartNotify STATE_CHARACTERISTIC_UUID; OpSleep notify_retry_delay;
              OpStartNotify STATE_CHARACTERISTIC_UUID; OpSleep notify_retry_delay;
              OpStartNotify STATE_CHARACTERISTIC_UUID])
  /\ notify_retry_delay = 0.4%float.
Proof.
  intros Hc Hconn Hb1 Hb2 Hb3 Hn.
  split; [|split; [|split; [|split]]].
  - intros script w' o ops H.
    apply (start_notify_attempts_bound (seq 0 max_retries) None w script w' o ops H).
  - notify_steps Hc Hconn. rewrite Hn. destruct w; reflexivity.
  - notify_steps Hc Hconn. rewrite Hb1. notify_steps Hc Hconn.
    rewrite Hb2. notify_steps Hc Hconn. destruct w; reflexivity.
  - notify_steps Hc Hconn. rewrite Hb1. notify_steps Hc Hconn.
    rewrite Hb2. notify_steps Hc Hconn. rewrite Hb3. cbn. destruct w; reflexivity.
  - reflexivity.
Qed.

Lemma notification_registration_retries_witness :
  run_dev _register_for_state_notifications observed_dimmer
    [fails (BleakError "Characteristic not found"); ok;
     fails (AttributeError "object has no attribute"); ok; ok]
  = Some (observed_dimmer, Returned tt,
          [OpStartNotify STATE_CHARACTERISTIC_UUID; OpSleep notify_retry_delay;
           OpStartNotify STATE_CHARACTERISTIC_UUID; OpSleep notify_retry_delay;
           OpStartNotify STATE_CHARACTERISTIC_UUID])
  /\ run_dev _register_for_state_notifications observed_dimmer
       [fails (BleakError "Characteristic not found"); ok;
        fails (AttributeError "object has no attribute"); ok;
        fails (EOFError "closed")]
     = Some (observed_dimmer, Raised (EOFError "closed"),
             [OpStartNotify STATE_CHARACTERISTIC_UUID; OpSleep notify_retry_delay;
              OpStartNotify STATE_CHARACTERISTIC_UUID; OpSleep notify_retry_delay;
              OpStartNotify STATE_CHARACTERISTIC_UUID]).
Proof.
  destruct (notification_registration_retries observed_dimmer connected_client
              (BleakError "Characteristic not found")
              (AttributeError "object has no attribute")
              (EOFError "closed") (ValueError "bad")
              eq_refl eq_refl eq_refl eq_refl eq_refl eq_refl)
    as [_ [_ [Hok [Hfail _]]]].
  split; [exact Hok | exact Hfail].
Defined.

(** ** Connection attempts that fail before verification *)

Lemma cleanup_forgets_client (c : option BleakClient) (reported : option exn)
    (d : DecoraBLEDevice) :
  _disconnect_cleanup (_handle_device_connection reported (set_client c d))
  = _disconnect_cleanup (_handle_device_connection reported d).
Proof.
  unfold _handle_device_connection. cbn.
  destruct (_device_connection_future d) as [f|]; [|reflexivity].
  destruct (done f); [reflexivity|]. destruct reported; reflexivity.
Qed.

(** X5: a connection attempt that fails with [e] while establishing the
    session or sending the unlock command resolves the connection future
    with [e], resets the device (client and summary cleared, default state)
    and raises [DeviceConnectionError(str(e))]; after a failed unlock the
    session is closed first, and a failure of that close is swallowed;
    after a failed establish there is no session and nothing is closed. *)
Theorem early_connect_failure_cleans_up (w : World) (c : BleakClient) (e : exn)
    (close : IoReply) :
  _client (self w) = None ->
  is_Exception e = true ->
  is_IncorrectAPIKeyError e = false ->
  close_is_swallowed close ->
  run_dev _do_connect w [fails e]
  = Some (on_self (fun d => _disconnect_cleanup (_handle_device_connection (Some e) d)) w,
          Raised (DeviceConnectionError (str_of_exn e)),
          [OpEstablishConnection (_device (self w))])
  /\ run_dev _do_connect w [quietly (Reply (VClient c)); fails e; quietly close]
     = Some (on_self (fun d => _disconnect_cleanup (_handle_device_connection (Some e) d)) w,
             Raised (DeviceConnectionError (str_of_exn e)),
             [OpEstablishConnection (_device (self w));
              OpWriteGattChar EVENT_CHARACTERISTIC_UUID (x11 :: x53 :: _key (self w));
              OpClientDisconnect]).
Proof.
  intros Hc He Hk Hclose. split.
  - unfold run_dev, _do_connect, establish_and_unlock. cbn.
    rewrite Hk, He. cbn.
    assert (Hnone : _client (_handle_device_connection (Some e) (self w)) = None).
    { unfold _handle_device_connection.
      destruct (_device_connection_future (self w)) as [f|]; [|exact Hc].
      destruct (done f); exact Hc. }
    rewrite Hnone. cbn. reflexivity.
  - unfold run_dev, _do_connect, establish_and_unlock. cbn.
    rewrite Hk, He. cbn.
    assert (Hsome : _client (_handle_device_connection (Some e)
                               (set_client (Some c) (self w))) = Some c).
    { unfold _handle_device_connection. cbn.
      destruct (_device_connection_future (self w)) as [f|]; [|reflexivity].
      destruct (done f); reflexivity. }
    rewrite Hsome. cbn.
    destruct close as [v|e']; cbn.
    + unfold on_self. cbn. rewrite cleanup_forgets_client. reflexivity.
    + cbn in Hclose. rewrite Hclose. cbn.
      unfold on_self. cbn. rewrite cleanup_forgets_client. reflexivity.
Qed.

Lemma early_connect_failure_cleans_up_witness :
  run_dev _do_connect (started_dimmer [xaa; xbb])
    [quietly (Reply (VClient connected_client));
     fails (BleakError "Write not permitted");
     fails (BleakError "Not connected")]
  = Some (on_self (set_future (Some (FException (BleakError "Write not permitted"))))
                  (started_dimmer [xaa; xbb]),
          Raised (DeviceConnectionError "Write not permitted"),
          [OpEstablishConnection a_dimmer;
           OpWriteGattChar EVENT_CHARACTERISTIC_UUID [x11; x53; xaa; xbb];
           OpClientDisconnect]).
Proof.
  destruct (early_connect_failure_cleans_up (started_dimmer [xaa; xbb]) connected_client
              (BleakError "Write not permitted") (Fail (BleakError "Not connected"))
              eq_refl eq_refl eq_refl eq_refl) as [_ H].
  exact H.
Defined.

(** ** Connection attempts that succeed *)

Lemma revision_string_run {St} (value : bytes) (prefix : string) (s : St) :
  _revision_string value prefix s
  = Fin s (revision_string_of value prefix).
Proof.
  unfold _revision_string, revision_string_of, decode. cbn.
  destruct (decode_utf8 value) as [text|e]; cbn; [|reflexivity].
  destruct (String.length (removeprefix prefix text)); reflexivity.
Qed.

Lemma for_each_connection_callbacks (cbs : list (Callback DecoraBLEDeviceSummary))
    (summary : DecoraBLEDeviceSummary) :
  (forall cb, In cb cbs -> cb_raises cb summary = None) ->
  forall w,
    for_each (fun cb => call_connection_callback cb summary) cbs w
    = Fin {| self := self w; observed := observed w ++ summary_fan_out cbs summary |}
          (Returned tt).
Proof.
  induction cbs as [|cb cbs IH]; intros Hnone w.
  - simpl. rewrite app_nil_r. destruct w; reflexivity.
  - assert (Hcb : cb_raises cb summary = None) by (apply Hnone; left; reflexivity).
    assert (Hrest : forall x, In x cbs -> cb_raises x summary = None)
      by (intros x Hx; apply Hnone; right; exact Hx).
    cbn. rewrite Hcb. cbn. rewrite (IH Hrest). cbn.
    rewrite <- app_assoc. reflexivity.
Qed.

Lemma handle_device_connection_keeps (reported : option exn) (d : DecoraBLEDevice) :
  _connection_callbacks (_handle_device_connection reported d) = _connection_callbacks d
  /\ _state_callbacks (_handle_device_connection reported d) = _state_callbacks d
  /\ _client (_handle_device_connection reported d) = _client d
  /\ _state (_handle_device_connection reported d) = _state d
  /\ _summary (_handle_device_connection reported d) = _summary d.
Proof.
  unfold _handle_device_connection.
  destruct (_device_connection_future d) as [f|]; [|repeat split].
  destruct (done f); [repeat split|]. destruct reported; repeat split.
Qed.

(** X7: a connection attempt in which every operation succeeds and no
    observer raises: the client handle is kept, the summary holds the hex
    of the system identifier, the decoded manufacturer and model and the
    revision string, the connection future is resolved, every connection
    observer is called with the summary and then every state observer with
    the state read, in registration order, and the mirror holds that
    state. *)
Theorem successful_connect_effects (w : World) (c : BleakClient)
    (verify sysid man mdl rev : bytes) (b0 b1 : byte) (more : bytes)
    (sman smod : string) (srev : option string) :
  is_connected c = true ->
  decode_utf8 man = Returned sman ->
  decode_utf8 mdl = Returned smod ->
  revision_string_of rev "Software Revision" = Returned srev ->
  let summary := {| system_identifier := hex sysid; manufacturer := sman;
                    model := smod; software_revision := srev |} in
  (forall cb, In cb (_connection_callbacks (self w)) -> cb_raises cb summary = None) ->
  none_raises (_state_callbacks (self w)) (decoded_state b0 b1) ->
  run_dev _do_connect w (connect_script c verify sysid man mdl rev (b0 :: b1 :: more))
  = Some ({| self := set_state (decoded_state b0 b1)
                       (_handle_device_connection None
                          (set_summary (Some summary) (set_client (Some c) (self w))));
             observed := observed w
                         ++ summary_fan_out (_connection_callbacks (self w)) summary
                         ++ fan_out (_state_callbacks (self w)) (decoded_state b0 b1) |},
          Returned tt, connect_ops (self w)).
Proof.
  intros Hconn Hman Hmod Hrev summary Hcq Hsq.
  unfold run_dev, _do_connect, establish_and_unlock, verify_and_subscribe. cbn.
  rewrite Hconn. cbn.
  unfold decode. rewrite Hman. cbn. rewrite Hmod. cbn.
  unfold revision_string_of in Hrev.
  destruct (decode_utf8 rev) as [text|] eqn:Hd; [|discriminate]. cbn in Hrev.
  unfold _revision_string, decode. cbn. rewrite Hd. cbn.
  assert (Hr : (if match String.length (removeprefix "Software Revision" text) with
                   | 0 => false
                   | S _ => true
                   end
                then Returned (Some (strip (removeprefix "Software Revision" text)))
                else Returned None) = Returned srev) by exact Hrev.
  destruct (String.length (removeprefix "Software Revision" text));
    inversion Hr; subst srev; cbn;
    match goal with
    | |- context [_handle_device_connection None ?d] =>
        destruct (handle_device_connection_keeps None d) as [Hk1 [Hk2 [Hk3 [Hk4 Hk5]]]]
    end;
    rewrite Hk1; cbn;
    rewrite (for_each_connection_callbacks _ _ Hcq); cbn;
    rewrite Hk3; cbn;
    unfold fire_current_state, _fire_state_callbacks; cbn;
    unfold replace_brightness_level, replace_is_on; cbn;
    fold (decoded_state b0 b1);
    rewrite Hk2; cbn;
    rewrite (for_each_state_callbacks _ _ Hsq); cbn;
    rewrite Hk3; cbn;
    rewrite <- app_assoc; reflexivity.
Qed.

Lemma successful_connect_effects_witness :
  run_dev _do_connect
    (on_self (set_connection_callbacks [recorder 2])
       (on_self (set_state_callbacks [recorder 1]) (started_dimmer [xaa])))
    (connect_script connected_client [x00; x00] [x12; xab]
       (list_byte_of_string "Leviton") (list_byte_of_string "DD710")
       (list_byte_of_string "Software Revision 1.2 ") [x01; x32])
  = Some ({| self :=
               {| _device := a_dimmer; _key := [xaa]; _running := true;
                  _device_connection_future := Some FResult;
                  _client := Some connected_client;
                  _summary := Some connected_summary;
                  _state := {| is_on := true; brightness_level := 50 |};
                  _connection_callbacks := [recorder 2];
                  _state_callbacks := [recorder 1] |};
             observed := [SummaryObserved 2 connected_summary;
                          StateObserved 1 {| is_on := true; brightness_level := 50 |}] |},
          Returned tt,
          connect_ops (self (started_dimmer [xaa]))).
Proof.
  apply (successful_connect_effects
           (on_self (set_connection_callbacks [recorder 2])
              (on_self (set_state_callbacks [recorder 1]) (started_dimmer [xaa])))
           connected_client [x00; x00] [x12; xab]
           (list_byte_of_string "Leviton") (list_byte_of_string "DD710")
           (list_byte_of_string "Software Revision 1.2 ") x01 x32 []
           "Leviton"%string "DD710"%string (Some "1.2"%string)
           eq_refl eq_refl eq_refl eq_refl).
  - intros cb [<-|[]]. reflexivity.
  - intros cb [<-|[]]. reflexivity.
Defined.

(** ** Keys as hexadecimal text *)

Lemma string_app_assoc (a b c : string) : ((a ++ b) ++ c)%string = (a ++ (b ++ c))%string.
Proof.
  induction a as [|x a IH]; cbn; [reflexivity|]. rewrite IH. reflexivity.
Qed.

Lemma string_app_nil (a : string) : (a ++ "")%string = a.
Proof.
  induction a as [|x a IH]; cbn; [reflexivity|]. rewrite IH. reflexivity.
Qed.

Lemma first_non_ascii_hex_of_byte (pos : nat) (b : byte) (rest : string) :
  first_non_ascii pos (hex_of_byte b ++ rest) = first_non_ascii (S (S pos)) rest.
Proof.
  destruct b; reflexivity.
Qed.

Lemma first_non_ascii_hex (bs : bytes) :
  forall pos rest,
    first_non_ascii pos (hex bs ++ rest)
    = first_non_ascii (pos + 2 * List.length bs) rest.
Proof.
  induction bs as [|b bs IH]; intros pos rest; cbn [hex List.length].
  - cbn. rewrite Nat.add_0_r. reflexivity.
  - rewrite string_app_assoc, first_non_ascii_hex_of_byte, IH.
    f_equal. lia.
Qed.

Lemma first_non_ascii_shift (s : string) :
  forall p q, first_non_ascii p s = None -> first_non_ascii q s = None.
Proof.
  induction s as [|c s IH]; intros p q H; cbn in *; [reflexivity|].
  destruct (N_of_ascii c <? 128)%N; [|discriminate].
  exact (IH (S p) (S q) H).
Qed.

Lemma fromhex_from_hex_of_byte (pos : nat) (b : byte) (rest : string) :
  fromhex_from pos (hex_of_byte b ++ rest)
  = match fromhex_from (S (S pos)) rest with
    | inl bs => inl (b :: bs)
    | inr p => inr p
    end.
Proof.
  destruct b; cbn; destruct (fromhex_from (S (S pos)) rest); reflexivity.
Qed.

Lemma fromhex_from_hex_app (bs : bytes) :
  forall pos rest,
    fromhex_from pos (hex bs ++ rest)
    = match fromhex_from (pos + 2 * List.length bs) rest with
      | inl more => inl (bs ++ more)
      | inr p => inr p
      end.
Proof.
  induction bs as [|b bs IH]; intros pos rest; cbn [hex List.length].
  - cbn. rewrite Nat.add_0_r. destruct (fromhex_from pos rest); reflexivity.
  - rewrite string_app_assoc, fromhex_from_hex_of_byte, IH.
    replace (S (S pos) + 2 * List.length bs) with (pos + 2 * S (List.length bs)) by lia.
    destruct (fromhex_from (pos + 2 * S (List.length bs)) rest); reflexivity.
Qed.

Lemma fromhex_hex_app (bs : bytes) (rest : string) :
  fromhex (hex bs ++ rest)
  = match first_non_ascii (2 * List.length bs) rest with
    | Some pos => inr pos
    | None =>
        match fromhex_from (2 * List.length bs) rest with
        | inl more => inl (bs ++ more)
        | inr p => inr p
        end
    end.
Proof.
  unfold fromhex. rewrite first_non_ascii_hex, fromhex_from_hex_app. reflexivity.
Qed.

Lemma fromhex_hex (bs : bytes) : fromhex (hex bs) = inl bs.
Proof.
  rewrite <- (string_app_nil (hex bs)), fromhex_hex_app. cbn.
  rewrite app_nil_r. reflexivity.
Qed.

Lemma hex_space_is_ascii (c : ascii) : is_hex_space c = true -> (N_of_ascii c <? 128)%N = true.
Proof.
  unfold is_hex_space. intros H. apply N.ltb_lt.
  apply orb_true_iff in H. destruct H as [H|H].
  - apply N.eqb_eq in H. lia.
  - apply andb_true_iff in H. destruct H as [_ H]. apply N.leb_le in H. lia.
Qed.

Lemma skip_hex_space (ws : string) :
  all_hex_space ws = true ->
  forall pos rest,
    first_non_ascii pos (ws ++ rest) = first_non_ascii (pos + String.length ws) rest
    /\ fromhex_from pos (ws ++ rest) = fromhex_from (pos + String.length ws) rest.
Proof.
  induction ws as [|c ws IH]; intros H pos rest; cbn in *.
  - rewrite Nat.add_0_r. split; reflexivity.
  - apply andb_true_iff in H. destruct H as [Hc Hws].
    rewrite (hex_space_is_ascii c Hc), Hc.
    destruct (IH Hws (S pos) rest) as [H1 H2].
    rewrite H1, H2. replace (S pos + String.length ws) with (pos + S (String.length ws)) by lia.
    split; reflexivity.
Qed.

Lemma fromhex_from_hex (bs : bytes) (pos : nat) : fromhex_from pos (hex bs) = inl bs.
Proof.
  rewrite <- (string_app_nil (hex bs)), fromhex_from_hex_app. cbn.
  rewrite app_nil_r. reflexivity.
Qed.

Lemma first_non_ascii_of_hex (bs : bytes) (pos : nat) : first_non_ascii pos (hex bs) = None.
Proof.
  rewrite <- (string_app_nil (hex bs)), first_non_ascii_hex. reflexivity.
Qed.

Lemma upper_hex_of_byte (b : byte) (rest : string) (pos : nat) :
  first_non_ascii pos (upper (hex_of_byte b ++ rest))
  = first_non_ascii (S (S pos)) (upper rest)
  /\ fromhex_from pos (upper (hex_of_byte b ++ rest))
     = match fromhex_from (S (S pos)) (upper rest) with
       | inl bs => inl (b :: bs)
       | inr p => inr p
       end.
Proof.
  destruct b; cbn; destruct (fromhex_from (S (S pos)) (upper rest)); split; reflexivity.
Qed.

Lemma fromhex_upper_hex (bs : bytes) :
  forall pos,
    first_non_ascii pos (upper (hex bs)) = None
    /\ fromhex_from pos (upper (hex bs)) = inl bs.
Proof.
  induction bs as [|b bs IH]; intros pos; cbn [hex].
  - split; reflexivity.
  - destruct (upper_hex_of_byte b (hex bs) pos) as [H1 H2].
    destruct (IH (S (S pos))) as [I1 I2].
    rewrite H1, H2, I1, I2. split; reflexivity.
Qed.

(** X9: the key round trip: the hexadecimal text [get_api_key] returns
    for a response, given to the constructor, yields a device whose key is
    the response's bytes from index 2 on, so that its unlock packet is
    [0x11, 0x53] followed by exactly those bytes. *)
Theorem retrieved_key_round_trip (K : bytes) (dev : BLEDevice) (rawkey : bytes)
    (key : string) :
  api_key_of_response K rawkey = Returned key ->
  construct dev key = Returned (init dev (slice_from 2 rawkey))
  /\ forall c,
       first_suspension
         (_unlock {| self := set_client (Some c) (init dev (slice_from 2 rawkey));
                     observed := [] |})
       = Some ({| self := set_client (Some c) (init dev (slice_from 2 rawkey));
                  observed := [] |},
               OpWriteGattChar EVENT_CHARACTERISTIC_UUID
                 (x11 :: x53 :: slice_from 2 rawkey)).
Proof.
  intros Hkey. split.
  - unfold api_key_of_response in Hkey.
    destruct (negb (bytes_eqb (slice 2 6 rawkey) K)); [|discriminate].
    inversion Hkey; subst key. unfold construct. rewrite fromhex_hex. reflexivity.
  - intros c. reflexivity.
Qed.

Lemma retrieved_key_round_trip_witness :
  construct a_dimmer "aabbccdd" = Returned (init a_dimmer [xaa; xbb; xcc; xdd]).
Proof.
  destruct (retrieved_key_round_trip [x00; x00; x00; x00] a_dimmer
              [x22; x53; xaa; xbb; xcc; xdd] "aabbccdd" eq_refl) as [H _].
  exact H.
Defined.

(** X10: a malformed key is refused by the constructor with the
    [ValueError] of [fromhex], which names the position: after the hex of
    some bytes, a character that is neither a digit nor whitespace is
    reported where it stands, and a digit left alone at the end is reported
    at the end of the text.  Whitespace between bytes and upper-case digits
    are accepted and give the same key. *)
Theorem malformed_key_is_refused (dev : BLEDevice) (bs more : bytes) (c : ascii)
    (rest ws : string) :
  is_hex_space c = false ->
  (hex_value c = None ->
   first_non_ascii 0 rest = None ->
   construct dev (hex bs ++ String c rest)
   = Raised (ValueError (fromhex_error (2 * List.length bs))))
  /\ (hex_value c <> None ->
      construct dev (hex bs ++ String c EmptyString)
      = Raised (ValueError (fromhex_error (2 * List.length bs + 1))))
  /\ (all_hex_space ws = true ->
      construct dev (hex bs ++ ws ++ hex more) = Returned (init dev (bs ++ more)))
  /\ construct dev (upper (hex bs)) = Returned (init dev bs).
Proof.
  intros Hsp. unfold construct. split; [|split; [|split]].
  - intros Hv Hrest. rewrite fromhex_hex_app. cbn [first_non_ascii fromhex_from].
    rewrite Hsp, Hv.
    destruct (N_of_ascii c <? 128)%N; [|reflexivity].
    rewrite (first_non_ascii_shift rest 0 (S (2 * List.length bs)) Hrest).
    reflexivity.
  - intros Hv. rewrite fromhex_hex_app. cbn [first_non_ascii fromhex_from].
    rewrite Hsp.
    destruct (hex_value c) as [v|] eqn:E; [|contradiction].
    assert (Ha : (N_of_ascii c <? 128)%N = true).
    { unfold hex_value in E. apply N.ltb_lt.
      destruct ((48 <=? N_of_ascii c)%N && (N_of_ascii c <=? 57)%N) eqn:E1.
      { apply andb_true_iff in E1. destruct E1 as [_ E1]. apply N.leb_le in E1. lia. }
      destruct ((97 <=? N_of_ascii c)%N && (N_of_ascii c <=? 102)%N) eqn:E2.
      { apply andb_true_iff in E2. destruct E2 as [_ E2]. apply N.leb_le in E2. lia. }
      destruct ((65 <=? N_of_ascii c)%N && (N_of_ascii c <=? 70)%N) eqn:E3; [|discriminate].
      apply andb_true_iff in E3. destruct E3 as [_ E3]. apply N.leb_le in E3. lia. }
    rewrite Ha. replace (2 * List.length bs + 1) with (S (2 * List.length bs)) by lia.
    reflexivity.
  - intros Hws. rewrite fromhex_hex_app.
    destruct (skip_hex_space ws Hws (2 * List.length bs) (hex more)) as [H1 H2].
    rewrite H1, H2, first_non_ascii_of_hex, fromhex_from_hex. reflexivity.
  - unfold fromhex. destruct (fromhex_upper_hex bs 0) as [H1 H2].
    rewrite H1, H2. reflexivity.
Qed.

Lemma malformed_key_is_refused_witness :
  construct a_dimmer "aabbzz"
  = Raised (ValueError "non-hexadecimal number found in fromhex() arg at position 4")
  /\ construct a_dimmer "aabbc"
     = Raised (ValueError "non-hexadecimal number found in fromhex() arg at position 5")
  /\ construct a_dimmer "aabb ccdd" = Returned (init a_dimmer [xaa; xbb; xcc; xdd])
  /\ construct a_dimmer "AABB" = Returned (init a_dimmer [xaa; xbb]).
Proof.
  destruct (malformed_key_is_refused a_dimmer [xaa; xbb] [xcc; xdd] "z"%char "z" " " eq_refl)
    as [Hbad [_ [Hws Hup]]].
  destruct (malformed_key_is_refused a_dimmer [xaa; xbb] [] "c"%char "" "" eq_refl)
    as [_ [Hodd _]].
  split; [exact (Hbad eq_refl eq_refl)|].
  split; [apply Hodd; discriminate|].
  split; [exact (Hws eq_refl) | exact Hup].
Defined.

(** ** The revision string *)

Lemma prefix_split (p s : string) :
  String.prefix p s = true -> exists r, s = (p ++ r)%string.
Proof.
  revert s. induction p as [|a p IH]; intros s H.
  - exists s. reflexivity.
  - destruct s as [|b s]; [discriminate|]. cbn in H.
    destruct (ascii_dec a b) as [->|]; [|discriminate].
    destruct (IH s H) as [r ->]. exists r. reflexivity.
Qed.

Lemma prefix_app (p r : string) : String.prefix p (p ++ r) = true.
Proof.
  induction p as [|a p IH]; cbn; [destruct r; reflexivity|].
  destruct (ascii_dec a a) as [_|N]; [exact IH | contradiction].
Qed.

Lemma substring_all (r : string) : String.substring 0 (String.length r) r = r.
Proof.
  induction r as [|a r IH]; cbn; [reflexivity|]. rewrite IH. reflexivity.
Qed.

Lemma substring_after_prefix (p r : string) :
  String.substring (String.length p) (String.length (p ++ r) - String.length p) (p ++ r) = r.
Proof.
  induction p as [|a p IH]; cbn.
  - rewrite Nat.sub_0_r. apply substring_all.
  - exact IH.
Qed.

Lemma removeprefix_app (p r : string) : removeprefix p (p ++ r) = r.
Proof.
  unfold removeprefix. rewrite prefix_app. apply substring_after_prefix.
Qed.

Lemma removeprefix_empty (p s : string) :
  removeprefix p s = EmptyString <-> s = EmptyString \/ s = p.
Proof.
  split.
  - intros H. destruct (String.prefix p s) eqn:Hp.
    + destruct (prefix_split p s Hp) as [r ->]. rewrite removeprefix_app in H. subst r.
      right. clear Hp. induction p as [|a p IH]; cbn; [reflexivity|]. rewrite IH. reflexivity.
    + unfold removeprefix in H. rewrite Hp in H. left. exact H.
  - intros [->| ->].
    + unfold removeprefix. destruct p; reflexivity.
    + assert (E : p = (p ++ EmptyString)%string).
      { induction p as [|a p IH]; cbn; [reflexivity|]. rewrite <- IH. reflexivity. }
      rewrite E at 2. apply removeprefix_app.
Qed.

Lemma lstrip_all_space (s : string) : all_space s = true -> lstrip s = EmptyString.
Proof.
  induction s as [|c s IH]; cbn; [reflexivity|].
  intros H. apply andb_true_iff in H. destruct H as [Hc Hs]. rewrite Hc. exact (IH Hs).
Qed.

Lemma length_zero_empty (s : string) : String.length s = 0 <-> s = EmptyString.
Proof.
  destruct s; cbn; split; intros H; try reflexivity; discriminate.
Qed.

(** X11: [_revision_string] answers [None] exactly when the decoded text
    is empty or is the prefix alone; the emptiness test comes before the
    trimming, so a text that is the prefix followed by blanks only yields
    the empty string, not [None]. *)
Theorem revision_string_absent (value : bytes) (text prefix blanks : string) (w : World) :
  decode_utf8 value = Returned text ->
  (_revision_string value prefix w = Fin w (Returned None)
   <-> text = EmptyString \/ text = prefix)
  /\ (text = (prefix ++ blanks)%string ->
      blanks <> EmptyString ->
      all_space blanks = true ->
      _revision_string value prefix w = Fin w (Returned (Some EmptyString))).
Proof.
  intros Hd. rewrite revision_string_run. unfold revision_string_of.
  rewrite Hd. cbv zeta. split.
  - rewrite <- removeprefix_empty, <- length_zero_empty.
    destruct (String.length (removeprefix prefix text)); cbn; split; intros H;
      try reflexivity; try discriminate.
  - intros -> Hne Hsp. rewrite removeprefix_app.
    assert (Hl : (0 <? String.length blanks) = true)
      by (destruct blanks; [contradiction|reflexivity]).
    rewrite Hl. unfold strip. rewrite (lstrip_all_space _ Hsp). reflexivity.
Qed.

Lemma revision_string_absent_witness :
  _revision_string (list_byte_of_string "Software Revision  ") "Software Revision"
                   observed_dimmer
  = Fin observed_dimmer (Returned (Some EmptyString))
  /\ _revision_string (list_byte_of_string "Software Revision") "Software Revision"
                      observed_dimmer
     = Fin observed_dimmer (Returned None).
Proof.
  split.
  - destruct (revision_string_absent (list_byte_of_string "Software Revision  ")
                "Software Revision  " "Software Revision" "  " observed_dimmer eq_refl)
      as [_ H].
    apply H; [reflexivity | discriminate | reflexivity].
  - destruct (revision_string_absent (list_byte_of_string "Software Revision")
                "Software Revision" "Software Revision" "" observed_dimmer eq_refl)
      as [[_ H] _].
    apply H. right. reflexivity.
Defined.

(** ** More on the coordination of [connect()] *)

Module CoordinationMoreFacts.
Import Coordination CoordinationMore CoordinationFacts.

(** X12: the in-flight handle follows the lock: whenever the lock is free
    the handle is cleared; whenever it is held, the holder awaits the
    attempt it created, which is the handle, and as soon as that attempt
    has completed the holder's next turn releases the lock, clears the
    handle and ends with the attempt's outcome. *)
Theorem handle_follows_lock (acts : list Action) (c : bool) (s : Sys) :
  exec acts (init c) = Some s ->
  (_connect_lock s = None -> _connection_task s = None)
  /\ (forall i, _connect_lock s = Some i ->
        exists t,
          pc s i = AwaitOwn t /\ _connection_task s = Some t
          /\ (tasks s t = Running
              \/ exists r s',
                   tasks s t = Completed r
                   /\ step (Resume i) s = Some s'
                   /\ _connect_lock s' = None
                   /\ _connection_task s' = None
                   /\ pc s' i = Finished r)).
Proof.
  intros H. destruct (reachable_inv2 acts c s H) as [H1 [H2 _]].
  split; [exact H2|].
  intros i Hi. destruct (H1 i Hi) as [t [Hp [Hs Hu]]].
  exists t. split; [exact Hp|]. split; [exact Hs|].
  destruct (tasks s t) as [| |r] eqn:Ht; [contradiction | left; reflexivity |].
  right. exists r. eexists. split; [reflexivity|].
  cbn. rewrite Hp, Ht. split; [reflexivity|]. cbn.
  unfold upd. rewrite Nat.eqb_refl. repeat split.
Qed.

Lemma handle_follows_lock_witness :
  exists s,
    exec (concurrent_calls 2
          ++ [Resume 0; Resume 1; Resume 0;
              Complete 0 (Failure (DeviceConnectionError "timeout")) false])
         (init false) = Some s
    /\ _connect_lock s = Some 0
    /\ _connection_task s = Some 0.
Proof.
  eexists. split; [reflexivity|].
  destruct (handle_follows_lock
              (concurrent_calls 2
               ++ [Resume 0; Resume 1; Resume 0;
                   Complete 0 (Failure (DeviceConnectionError "timeout")) false])
              false _ eq_refl) as [_ H].
  destruct (H 0 eq_refl) as [t [Hp [Hs _]]].
  split; [reflexivity|]. reflexivity.
Defined.

(** X13: [connect()] raises nothing of its own: a failure a caller ends
    with is the failure of a connection attempt that has completed. *)
Theorem connect_failures_are_attempt_failures (acts : list Action) (c : bool)
    (s : Sys) (i : nat) (e : exn) :
  exec acts (init c) = Some s ->
  pc s i = Finished (Failure e) ->
  exists t, tasks s t = Completed (Failure e) /\ t < created s.
Proof.
  intros H Hp. destruct (reachable_inv2 acts c s H) as [_ [_ [H3 H4]]].
  destruct (H3 i e Hp) as [t Ht]. exists t. split; [exact Ht|].
  destruct (Nat.lt_ge_cases t (created s)) as [Hlt|Hge]; [exact Hlt|].
  rewrite (H4 t Hge) in Ht. discriminate.
Qed.

Lemma connect_failures_are_attempt_failures_witness :
  exists s,
    exec (concurrent_calls 2 ++ first_fails_second_succeeds) (init false) = Some s
    /\ exists t, tasks s t = Completed (Failure (DeviceConnectionError "timeout"))
                 /\ t < created s.
Proof.
  eexists. split; [reflexivity|].
  apply (connect_failures_are_attempt_failures
           (concurrent_calls 2 ++ first_fails_second_succeeds) false _ 0
           (DeviceConnectionError "timeout")); reflexivity.
Defined.

Lemma step_fast_path (a : Action) (s s' : Sys) :
  only_callers a = true -> all_on_fast_path s -> step a s = Some s' -> all_on_fast_path s'.
Proof.
  intros Ha [Hc [Hn [Hl Hp]]] H.
  destruct a as [i|i|t r c| |t]; try discriminate; cbn in H.
  - destruct (pc s i) eqn:Hi; try discriminate. inversion H; subst; clear H.
    split; [exact Hc|]. split; [exact Hn|]. split; [exact Hl|].
    intros j. cbn. unfold upd. destruct (Nat.eqb_spec j i) as [->|_]; [|apply Hp].
    right. left. reflexivity.
  - destruct (Hp i) as [Hi|[Hi|Hi]]; rewrite Hi in H; try discriminate.
    rewrite Hc in H. inversion H; subst; clear H.
    split; [exact Hc|]. split; [exact Hn|]. split; [exact Hl|].
    intros j. cbn. unfold upd. destruct (Nat.eqb_spec j i) as [->|_]; [|apply Hp].
    right. right. reflexivity.
Qed.

(** X14: [connect()] on a connected device is a no-op: as long as the
    link is up, whatever number of callers call and run, no attempt is ever
    created, the lock is never taken, and every caller that has run is back
    with success. *)
Theorem connect_is_idempotent_while_connected (acts : list Action) (s : Sys) :
  forallb only_callers acts = true ->
  exec acts (init true) = Some s ->
  created s = 0
  /\ _connect_lock s = None
  /\ (forall t, tasks s t = Unborn)
  /\ (forall i, pc s i = Idle \/ pc s i = Called \/ pc s i = Finished Success).
Proof.
  intros Hacts H.
  assert (Hfast : all_on_fast_path s).
  { assert (G : forall s0, all_on_fast_path s0 -> exec acts s0 = Some s -> all_on_fast_path s).
    { clear H. induction acts as [|a acts IH]; intros s0 H0 H; cbn in H.
      - inversion H; subst. exact H0.
      - cbn in Hacts. apply andb_true_iff in Hacts. destruct Hacts as [Ha Hrest].
        destruct (step a s0) as [s1|] eqn:Hs; [|discriminate].
        apply (IH Hrest s1); [|exact H]. exact (step_fast_path a s0 s1 Ha H0 Hs). }
    apply (G (init true)); [|exact H].
    split; [reflexivity|]. split; [reflexivity|]. split; [reflexivity|].
    intros i. left. reflexivity. }
  destruct Hfast as [_ [Hn [Hl Hp]]].
  split; [exact Hn|]. split; [exact Hl|]. split; [|exact Hp].
  intros t. destruct (reachable_inv2 acts true s H) as [_ [_ [_ H4]]].
  apply H4. lia.
Qed.

Lemma connect_is_idempotent_while_connected_witness :
  exists s,
    exec (concurrent_calls 3 ++ [Resume 1; Resume 0; Resume 2]) (init true) = Some s
    /\ created s = 0
    /\ pc s 0 = Finished Success /\ pc s 1 = Finished Success /\ pc s 2 = Finished Success.
Proof.
  eexists. split; [reflexivity|].
  destruct (connect_is_idempotent_while_connected
              (concurrent_calls 3 ++ [Resume 1; Resume 0; Resume 2]) _ eq_refl eq_refl)
    as [Hn _].
  split; [exact Hn|]. repeat split.
Defined.

End CoordinationMoreFacts.

(** ** Start and the wait for the first connection *)

Lemma start_is_started (w : World) :
  start w = Fin {| self := fst (started (self w)); observed := observed w |}
                (snd (started (self w))).
Proof.
  unfold start, started. cbn. destruct (_running (self w)); cbn; destruct w; reflexivity.
Qed.

(** X15: the life cycle of the wait: without [start()] the wait raises
    "Not running"; [start()] on a running device raises "Already running"
    and changes nothing; after [start()], a wait, however it ends, consumes
    the connection future, so that a second wait raises "Already waited for
    first update"; cancelling and starting again creates a fresh pending
    future. *)
Theorem wait_consumes_the_future (d : DecoraBLEDevice) (how again : WaitEnd) :
  _running d = false ->
  let d0 := fst (started d) in
  let d1 := fst (wait_for_device_connection how d0) in
  wait_for_device_connection how d = (d, Raised (RuntimeError "Not running"))
  /\ started d0 = (d0, Raised (RuntimeError "Already running"))
  /\ _device_connection_future d0 = Some FPending
  /\ _device_connection_future d1 = None
  /\ wait_for_device_connection again d1
     = (d1, Raised (RuntimeError "Already waited for first update"))
  /\ _device_connection_future (fst (started (cancel_start d1))) = Some FPending.
Proof.
  intros Hr d0 d1. subst d0 d1.
  unfold started, wait_for_device_connection, cancel_start. rewrite Hr. cbn.
  repeat split.
Qed.

Lemma wait_consumes_the_future_witness :
  let d1 := fst (wait_for_device_connection TimedOut (self (started_dimmer []))) in
  wait_for_device_connection (Resolved None) d1
  = (d1, Raised (RuntimeError "Already waited for first update")).
Proof.
  intros d1.
  destruct (wait_consumes_the_future (init a_dimmer []) TimedOut (Resolved None) eq_refl)
    as [_ [_ [_ [_ [H _]]]]].
  exact H.
Defined.

(** X16: what the wait raises on a running device whose future is
    pending: nothing when the future is resolved with success, the
    failure itself when it is resolved with a failure (other than a timeout
    or a cancellation), and [DeviceConnectionTimeoutError] when the timeout
    elapses or the waiting task is cancelled; in every case the future is
    gone afterwards.  The failure a waiter sees after a failed unlock is
    the transport's error, not the [DeviceConnectionError] that [connect]
    raises. *)
Theorem wait_outcomes (d : DecoraBLEDevice) (e : exn) :
  _running d = true ->
  _device_connection_future d = Some FPending ->
  is_timeout_or_cancellation e = false ->
  wait_for_device_connection (Resolved None) d = (set_future None d, Returned tt)
  /\ wait_for_device_connection (Resolved (Some e)) d = (set_future None d, Raised e)
  /\ wait_for_device_connection TimedOut d
     = (set_future None d,
        Raised (DeviceConnectionTimeoutError "No advertisement received before timeout"))
  /\ wait_for_device_connection WaiterCancelled d
     = (set_future None d,
        Raised (DeviceConnectionTimeoutError "No advertisement received before timeout"))
  /\ snd (wait_for_device_connection TimedOut (_handle_device_connection (Some e) d))
     = Raised e.
Proof.
  intros Hr Hf He.
  unfold wait_for_device_connection, _handle_device_connection.
  rewrite Hr, Hf. cbn. rewrite Hr. cbn. rewrite He.
  repeat split.
Qed.

Lemma wait_outcomes_witness :
  wait_for_device_connection TimedOut (self (started_dimmer []))
  = (set_future None (self (started_dimmer [])),
     Raised (DeviceConnectionTimeoutError "No advertisement received before timeout"))
  /\ snd (wait_for_device_connection (Resolved (Some (BleakError "no route")))
            (self (started_dimmer [])))
     = Raised (BleakError "no route").
Proof.
  destruct (wait_outcomes (self (started_dimmer [])) (BleakError "no route")
              eq_refl eq_refl eq_refl) as [_ [Hfail [Htime _]]].
  split; [exact Htime|]. rewrite Hfail. reflexivity.
Defined.

(** ** Delays and brightness scales *)

Lemma forall_below (P : Z -> bool) (n : nat) :
  forallb P (map Z.of_nat (seq 0 n)) = true ->
  forall z, (0 <= z < Z.of_nat n)%Z -> P z = true.
Proof.
  intros H z Hz. rewrite forallb_forall in H. apply H.
  apply in_map_iff. exists (Z.to_nat z). split; [lia|].
  apply in_seq. lia.
Qed.

(** X17: the stagger before a reconnection is bounded: whatever the entry
    id, and also when it cannot be read, the delay slept is at least 0.1 s
    and below 0.6 s. *)
Theorem reconnect_delay_is_bounded (entry : option string) :
  PrimFloat.leb 0.1%float (reconnect_delay entry) = true
  /\ PrimFloat.ltb (reconnect_delay entry) 0.6%float = true.
Proof.
  destruct entry as [s|]; [|split; reflexivity].
  assert (H : delay_in_range (sum_ord s mod 50) = true).
  { apply (forall_below delay_in_range 50); [vm_compute; reflexivity|].
    apply Z.mod_pos_bound. lia. }
  unfold delay_in_range in H. apply andb_true_iff in H. exact H.
Qed.

(** X18: the two brightness scales do not round-trip: a level of 0..100
    shown as a brightness of 0..255 and asked for again comes back one
    lower, unless it is a multiple of 20. *)
Theorem brightness_scales_drift (level : Z) :
  (0 <= level <= 100)%Z ->
  exists b,
    light_brightness (Some {| is_on := true; brightness_level := level |}) = Some (Some b)
    /\ (0 <= b <= 255)%Z
    /\ level_of_brightness b = Some (level_after_round_trip level).
Proof.
  intros Hl.
  assert (H : round_trip_ok level = true).
  { apply (forall_below round_trip_ok 101); [vm_compute; reflexivity|]. lia. }
  unfold round_trip_ok in H. unfold light_brightness. cbn.
  destruct (brightness_of_level level) as [b|]; [|discriminate].
  exists b. split; [reflexivity|].
  apply andb_true_iff in H. destruct H as [Hb Hr].
  apply andb_true_iff in Hb. destruct Hb as [H0 H1].
  apply Z.leb_le in H0. apply Z.leb_le in H1. split; [lia|].
  destruct (level_of_brightness b) as [l|]; [|discriminate].
  apply Z.eqb_eq in Hr. subst l. reflexivity.
Qed.

Lemma brightness_scales_drift_witness :
  exists b,
    light_brightness (Some {| is_on := true; brightness_level := 50 |}) = Some (Some b)
    /\ (0 <= b <= 255)%Z
    /\ level_of_brightness b = Some 49%Z.
Proof.
  apply (brightness_scales_drift 50). lia.
Defined.

(** ** Commands of the light entity *)

Lemma turn_on_level_run (w : World) (c : BleakClient) (level : Z) (b : byte) :
  _client (self w) = Some c ->
  byte_of_int level = Some b ->
  run_dev (turn_on (Some level)) w [ok]
  = Some (on_self (set_state {| is_on := true; brightness_level := level |}) w,
          Returned tt,
          [OpWriteGattChar STATE_CHARACTERISTIC_UUID [x01; b]]).
Proof.
  intros Hc Hb. unfold run_dev, turn_on, _write_state, state_packet. cbn.
  rewrite Hb. cbn. rewrite Hc. cbn. reflexivity.
Qed.

(** X19: [async_turn_on] with a Home Assistant brightness of 0..255 on a
    connected device makes no connection attempt and writes one packet
    [[1, level]] with [level = int((brightness / 255) * 100)], which lies
    in 0..100; the mirror is on at that level. *)
Theorem async_turn_on_writes_level (w : World) (c : BleakClient) (brightness : Z) :
  _client (self w) = Some c ->
  is_connected c = true ->
  (0 <= brightness <= 255)%Z ->
  exists level b,
    level_of_brightness brightness = Some level
    /\ (0 <= level <= 100)%Z
    /\ byte_of_int level = Some b
    /\ run_dev (async_turn_on (Some brightness)) w [ok]
       = Some (on_self (set_state {| is_on := true; brightness_level := level |}) w,
               Returned tt,
               [OpWriteGattChar STATE_CHARACTERISTIC_UUID [x01; b]]).
Proof.
  intros Hc Hconn Hb.
  assert (H : level_in_range brightness = true).
  { apply (forall_below level_in_range 256); [vm_compute; reflexivity|]. lia. }
  unfold level_in_range in H.
  destruct (level_of_brightness brightness) as [level|] eqn:Hl; [|discriminate].
  apply andb_true_iff in H. destruct H as [Hr Hbyte].
  apply andb_true_iff in Hr. destruct Hr as [H0 H1].
  apply Z.leb_le in H0. apply Z.leb_le in H1.
  destruct (byte_of_int level) as [b|] eqn:Hbl; [|discriminate].
  exists level, b. split; [reflexivity|]. split; [lia|]. split; [exact Hbl|].
  pose proof (turn_on_level_run w c level b Hc Hbl) as Hrun.
  unfold run_dev in *. unfold async_turn_on. cbn.
  unfold device_is_connected. rewrite Hc, Hconn. cbn. rewrite Hl. exact Hrun.
Qed.

Lemma async_turn_on_writes_level_witness :
  run_dev (async_turn_on (Some 128%Z)) observed_dimmer [ok]
  = Some (on_self (set_state {| is_on := true; brightness_level := 50 |}) observed_dimmer,
          Returned tt,
          [OpWriteGattChar STATE_CHARACTERISTIC_UUID [x01; x32]]).
Proof.
  destruct (async_turn_on_writes_level observed_dimmer connected_client 128
              eq_refl eq_refl) as [level [b [Hl [_ [Hb H]]]]]; [lia|].
  vm_compute in Hl. injection Hl as <-.
  vm_compute in Hb. injection Hb as <-.
  exact H.
Defined.

(** X20: a command on a device that is not connected connects first, and
    when that attempt fails nothing is written: [async_turn_on] and
    [async_turn_off] raise the [DeviceConnectionError] of the attempt, the
    only operation awaited is the failed establish, and the mirror is the
    default state. *)
Theorem command_needs_connection (w : World) (e : exn) (brightness : option Z) :
  _client (self w) = None ->
  is_Exception e = true ->
  is_IncorrectAPIKeyError e = false ->
  run_dev (async_turn_on brightness) w [fails e]
  = Some (on_self (fun d => _disconnect_cleanup (_handle_device_connection (Some e) d)) w,
          Raised (DeviceConnectionError (str_of_exn e)),
          [OpEstablishConnection (_device (self w))])
  /\ run_dev async_turn_off w [fails e]
     = Some (on_self (fun d => _disconnect_cleanup (_handle_device_connection (Some e) d)) w,
             Raised (DeviceConnectionError (str_of_exn e)),
             [OpEstablishConnection (_device (self w))]).
Proof.
  intros Hc He Hk.
  assert (Hnone : _client (_handle_device_connection (Some e) (self w)) = None).
  { destruct (handle_device_connection_keeps (Some e) (self w)) as [_ [_ [H _]]].
    rewrite H. exact Hc. }
  split.
  - unfold run_dev, async_turn_on, connect_alone, _do_connect, establish_and_unlock,
      device_is_connected. cbn. rewrite Hc. cbn. rewrite Hc. cbn.
    rewrite Hk, He. cbn. rewrite Hnone. cbn. reflexivity.
  - unfold run_dev, async_turn_off, connect_alone, _do_connect, establish_and_unlock,
      device_is_connected. cbn. rewrite Hc. cbn. rewrite Hc. cbn.
    rewrite Hk, He. cbn. rewrite Hnone. cbn. reflexivity.
Qed.

Lemma command_needs_connection_witness :
  run_dev async_turn_off (new_world a_dimmer []) [fails (BleakError "not found")]
  = Some (new_world a_dimmer [], Raised (DeviceConnectionError "not found"),
          [OpEstablishConnection a_dimmer]).
Proof.
  destruct (command_needs_connection (new_world a_dimmer []) (BleakError "not found") None
              eq_refl eq_refl eq_refl) as [_ H].
  exact H.
Defined.

(** ** The connection test of the config flow *)

(** X21: what the connection test reports.  A key that is no hexadecimal
    text escapes as the [ValueError] of [fromhex] before any connection,
    whatever the transport would answer; a failed unlock write is
    [CannotConnect]; a failed verification read is [InvalidAuth] and, the
    cleanup of that path being skipped, the test ends without the session
    having been closed; and when everything succeeds but the final close
    fails, the test still reports [InvalidAuth]. *)
Theorem connection_test_reports (device : BLEDevice) (key : bytes) (msg : string) (e : exn) :
  is_Exception e = true ->
  is_flow_specific e = false ->
  (forall text pos script,
     fromhex text = inr pos ->
     async_validate_connection device text script
     = Some (Escaped (ValueError (fromhex_error pos)), []))
  /\ async_validate_connection device (hex key) (unlock_fails (BleakError msg))
     = Some (Refused (CannotConnect ("Unable to connect to device: " ++ msg)),
             [OpEstablishConnection device;
              OpWriteGattChar EVENT_CHARACTERISTIC_UUID (x11 :: x53 :: key);
              OpClientDisconnect])
  /\ async_validate_connection device (hex key) (verification_fails (BleakError msg))
     = Some (Refused (InvalidAuth "The API key is incorrect. Device rejected authentication."),
             [OpEstablishConnection device;
              OpWriteGattChar EVENT_CHARACTERISTIC_UUID (x11 :: x53 :: key);
              OpSleep unlock_settle_delay;
              OpReadGattChar STATE_CHARACTERISTIC_UUID])
  /\ async_validate_connection device (hex key) (test_connection_script (Reply VNone))
     = Some (Valid, connect_ops (init device key) ++ [OpClientDisconnect])
  /\ async_validate_connection device (hex key) (test_connection_script (Fail e))
     = Some (Refused (InvalidAuth ("Connection test failed: " ++ str_of_exn e)),
             connect_ops (init device key) ++ [OpClientDisconnect]).
Proof.
  intros He Hf.
  split.
  { intros text pos script Hbad. unfold async_validate_connection, construct.
    rewrite Hbad. reflexivity. }
  unfold async_validate_connection, construct. rewrite fromhex_hex.
  split; [reflexivity|]. split; [reflexivity|]. split; [reflexivity|].
  unfold run_dev. cbn.
  destruct e; cbn in *; try discriminate; reflexivity.
Qed.

Lemma connection_test_reports_witness :
  async_validate_connection a_dimmer "not hex" connect_succeeds
  = Some (Escaped (ValueError "non-hexadecimal number found in fromhex() arg at position 0"),
          [])
  /\ async_validate_connection a_dimmer "aabb"
       (test_connection_script (Fail (BleakError "Not connected")))
     = Some (Refused (InvalidAuth "Connection test failed: Not connected"),
             connect_ops (init a_dimmer [xaa; xbb]) ++ [OpClientDisconnect]).
Proof.
  destruct (connection_test_reports a_dimmer [xaa; xbb] "" (BleakError "Not connected")
              eq_refl eq_refl) as [Hbad [_ [_ [_ H]]]].
  split; [exact (Hbad "not hex"%string 0 connect_succeeds eq_refl) | exact H].
Defined.

(** ** Exits of the rediscovery handler *)

Lemma run_finally_modify {St A} (interfere0 : EnvAct -> St -> St) (f : St -> St)
    (c : Coro St A) :
  forall script s o ops,
    run interfere0 (finallyC c (modify f)) script = Some (s, o, ops) ->
    exists s0, run interfere0 c script = Some (s0, o, ops) /\ s = f s0.
Proof.
  induction c as [s0 r|s0 op k IH]; intros script s o ops H.
  - cbn in H. inversion H; subst. exists s0. split; reflexivity.
  - cbn in H. destruct script as [|[r act] rest]; [discriminate|].
    destruct (run interfere0 (finallyC (k r (interfere0 act s0)) (modify f)) rest)
      as [[[s1 o1] ops1]|] eqn:E; [|discriminate].
    inversion H; subst; clear H.
    destruct (IH r (interfere0 act s0) rest s o ops1 E) as [s2 [Hrun Hs]].
    exists s2. split; [|exact Hs]. cbn. rewrite Hrun. reflexivity.
Qed.

Lemma run_swallow_Exception {St} (interfere0 : EnvAct -> St -> St) (c : Coro St unit) :
  forall script s o ops,
    run interfere0
        (catchC c (fun ex => if is_Exception ex then Some (ret tt) else None)) script
    = Some (s, o, ops) ->
    forall e, o = Raised e -> is_Exception e = false.
Proof.
  induction c as [s0 r|s0 op k IH]; intros script s o ops H e He; subst o.
  - cbn in H. destruct r as [a|e0].
    + inversion H.
    + destruct (is_Exception e0) eqn:E0; cbn in H; inversion H; subst.
      exact E0.
  - cbn in H. destruct script as [|[r act] rest]; [discriminate|].
    destruct (run interfere0
                (catchC (k r (interfere0 act s0))
                   (fun ex => if is_Exception ex then Some (ret tt) else None)) rest)
      as [[[s1 o1] ops1]|] eqn:E; [|discriminate].
    inversion H; subst; clear H.
    exact (IH r (interfere0 act s0) rest s (Raised e) ops1 E e eq_refl).
Qed.

Lemma rediscovery_accepted_run (now : float) (i : DeviceInstance) :
  rediscovery_dropped now i = false ->
  _async_reconnect_on_discovery now i
  = finallyC
      (catchC (staggered_reconnect (set_last_attempt now (set_scheduled true i)))
              (fun ex => if is_Exception ex then Some (ret tt) else None))
      (modify (set_scheduled false)).
Proof.
  intros Hgo. unfold rediscovery_dropped in Hgo.
  apply orb_false_iff in Hgo. destruct Hgo as [Hcool Hflag].
  unfold _async_reconnect_on_discovery, bind, get. cbn [bindC].
  rewrite Hcool, Hflag. reflexivity.
Qed.

(** X22: a rediscovery signal that passes the guard always releases the
    single-flight flag and never raises an error: however the stagger
    sleep, the disconnect and the connect sequence end, link losses
    included, the handler finishes with [_reconnect_task_scheduled] false,
    and the only thing it can raise is a cancellation. *)
Theorem rediscovery_always_releases (now : float) (i : DeviceInstance)
    (script : list (IoReply * EnvAct)) (i' : DeviceInstance) (o : Outcome unit)
    (ops : list IoOp) :
  rediscovery_dropped now i = false ->
  run_inst (_async_reconnect_on_discovery now) i script = Some (i', o, ops) ->
  _reconnect_task_scheduled i' = false
  /\ (forall e, o = Raised e -> is_Exception e = false).
Proof.
  intros Hgo Hrun.
  unfold run_inst in Hrun. rewrite (rediscovery_accepted_run now i Hgo) in Hrun.
  apply run_finally_modify in Hrun. destruct Hrun as [i0 [Hrun ->]].
  split; [reflexivity|].
  exact (run_swallow_Exception interfere_instance _ script i0 o ops Hrun).
Qed.

Lemma rediscovery_always_releases_witness :
  exists i',
    run_inst (_async_reconnect_on_discovery 15%float)
             (an_instance observed_dimmer 10%float)
             [ok; fails (BleakError "close failed")]
    = Some (i', Returned tt, [OpSleep 0.54%float; OpClientDisconnect])
    /\ _reconnect_task_scheduled i' = false.
Proof.
  eexists. split; [reflexivity|].
  apply (rediscovery_always_releases 15%float (an_instance observed_dimmer 10%float)
           [ok; fails (BleakError "close failed")] _ (Returned tt)
           [OpSleep 0.54%float; OpClientDisconnect]); reflexivity.
Defined.

(** ** Connection attempts end *)

Lemma bounded_mono {St A} (n m : nat) (c : Coro St A) :
  bounded n c -> n <= m -> bounded m c.
Proof.
  intros H. revert m. induction H as [n s r|n s op k Hk IH]; intros m Hm.
  - constructor.
  - destruct m as [|m]; [lia|]. constructor. intros r s'. apply IH. lia.
Qed.

Lemma bounded_bind {St A B} (n m : nat) (c : Coro St A) (f : A -> M St B) :
  bounded n c -> (forall a s, bounded m (f a s)) -> bounded (n + m) (bindC c f).
Proof.
  intros H Hf. induction H as [n s r|n s op k Hk IH].
  - cbn. destruct r as [a|e].
    + apply (bounded_mono m); [apply Hf | lia].
    + constructor.
  - cbn. constructor. intros r s'. apply IH.
Qed.

Lemma bounded_catch {St A} (n m : nat) (c : Coro St A) (h : exn -> option (M St A)) :
  bounded n c ->
  (forall e g s, h e = Some g -> bounded m (g s)) ->
  bounded (n + m) (catchC c h).
Proof.
  intros H Hh. induction H as [n s r|n s op k Hk IH].
  - cbn. destruct r as [a|e]; [constructor|].
    destruct (h e) as [g|] eqn:E; [|constructor].
    apply (bounded_mono m); [apply (Hh e g s E) | lia].
  - cbn. constructor. intros r s'. apply IH.
Qed.

Lemma bounded_finally {St A} (n m : nat) (c : Coro St A) (fin : M St unit) :
  bounded n c -> (forall s, bounded m (fin s)) -> bounded (n + m) (finallyC c fin).
Proof.
  intros H Hf. induction H as [n s r|n s op k Hk IH].
  - cbn. apply (bounded_mono (m + 0)); [|lia].
    apply bounded_bind; [apply Hf|]. intros a s'. constructor.
  - cbn. constructor. intros r s'. apply IH.
Qed.

Lemma bounded_run {St A} (interfere0 : EnvAct -> St -> St) (n : nat) (c : Coro St A) :
  bounded n c ->
  forall script,
    (forall s o ops, run interfere0 c script = Some (s, o, ops) -> List.length ops <= n)
    /\ (n <= List.length script -> run interfere0 c script <> None).
Proof.
  intros H. induction H as [n s r|n s op k Hk IH]; intros script.
  - split.
    + intros s0 o ops E. cbn in E. inversion E. cbn. lia.
    + intros _. cbn. discriminate.
  - destruct script as [|[r act] rest]; split.
    + intros s0 o ops E. discriminate E.
    + intros Hl. cbn in Hl. lia.
    + intros s0 o ops E. cbn in E.
      destruct (run interfere0 (k r (interfere0 act s)) rest) as [[[s1 o1] ops1]|] eqn:E1;
        [|discriminate].
      inversion E; subst. cbn.
      destruct (IH r (interfere0 act s) rest) as [Hle _].
      specialize (Hle _ _ _ E1). lia.
    + intros Hl. cbn in Hl. cbn.
      destruct (IH r (interfere0 act s) rest) as [_ Htot].
      destruct (run interfere0 (k r (interfere0 act s)) rest) as [[[s1 o1] ops1]|];
        [discriminate|].
      exfalso. apply Htot; [lia|reflexivity].
Qed.

Lemma bounded_ret {St A} (n : nat) (a : A) (s : St) : bounded n (ret a s).
Proof. constructor. Qed.

Lemma bounded_raise {St A} (n : nat) (e : exn) (s : St) : bounded n (@raise St A e s).
Proof. constructor. Qed.

Lemma bounded_await {St} (op : IoOp) (s : St) : bounded 1 (await op s).
Proof.
  constructor. intros r s'. destruct r; constructor.
Qed.

Lemma bounded_await_unit (op : IoOp) (w : World) :
  bounded 1 ((_ <- await op ;; ret tt) w).
Proof.
  apply (bounded_bind 1 0); [apply bounded_await|]. intros a s. constructor.
Qed.

Lemma bounded_the_client (n : nat) (w : World) : bounded n (the_client w).
Proof.
  unfold the_client. cbn. destruct (_client (self w)); constructor.
Qed.

Lemma bounded_client_read (u : Uuid) (w : World) : bounded 1 (client_read u w).
Proof.
  unfold client_read.
  apply (bounded_bind 0 1); [apply bounded_the_client|]. intros _ s.
  apply (bounded_bind 1 0); [apply bounded_await|]. intros v s'.
  destruct v; constructor.
Qed.

Lemma bounded_client_write (u : Uuid) (data : bytes) (w : World) :
  bounded 1 (client_write u data w).
Proof.
  unfold client_write.
  apply (bounded_bind 0 1); [apply bounded_the_client|]. intros _ s.
  apply bounded_await_unit.
Qed.

Lemma bounded_sleep (seconds : float) (w : World) : bounded 1 (sleep seconds w).
Proof. apply bounded_await_unit. Qed.

Lemma bounded_check (msg : string) (w : World) : bounded 0 (check_still_connected msg w).
Proof.
  unfold check_still_connected. cbn. destruct (negb (device_is_connected (self w))); constructor.
Qed.

Lemma bounded_retry_pause (attempt : nat) (delay : float) (msg : string) (w : World) :
  bounded 1 ((if attempt <? max_retries - 1
              then sleep delay ;; check_still_connected msg
              else ret tt) w).
Proof.
  destruct (attempt <? max_retries - 1).
  - apply (bounded_bind 1 0); [apply bounded_sleep|]. intros _ s. apply bounded_check.
  - constructor.
Qed.

Lemma bounded_read_attempt (descriptor : string) (u : Uuid) (attempt : nat)
    (rest : list nat) (p n : nat) :
  (forall w, bounded p ((if attempt <? max_retries - 1
                         then sleep descriptor_retry_delay ;;
                              check_still_connected
                                ("Client disconnected while reading " ++ descriptor)
                         else ret tt) w)) ->
  (forall last w, bounded n (read_summary_attempts descriptor u rest last w)) ->
  forall last w,
    bounded (1 + (p + n)) (read_summary_attempts descriptor u (attempt :: rest) last w).
Proof.
  intros Hp Hn last w. cbn [read_summary_attempts]. unfold try_except.
  apply bounded_catch; [apply bounded_client_read|].
  intros e g s Hg.
  destruct (in_BLEAK_EXCEPTIONS e); [|discriminate].
  injection Hg as <-.
  destruct (is_authorization_error e); [|apply bounded_raise].
  unfold bind. apply bounded_bind; [apply Hp|]. intros _ s'. apply Hn.
Qed.

Lemma bounded_read_summary_descriptor (descriptor : string) (u : Uuid) (w : World) :
  bounded 5 (read_summary_descriptor descriptor u w).
Proof.
  unfold read_summary_descriptor. cbn [seq max_retries].
  apply (bounded_read_attempt descriptor u 0 [1; 2] 1 3).
  - intros w0. apply bounded_retry_pause.
  - apply (bounded_read_attempt descriptor u 1 [2] 1 1).
    + intros w0. apply bounded_retry_pause.
    + apply (bounded_read_attempt descriptor u 2 [] 0 0).
      * intros w0. cbn. constructor.
      * intros last w0. cbn. constructor.
Qed.

Lemma bounded_notify_attempt (attempt : nat) (rest : list nat) (p n : nat) :
  (forall w, bounded p ((if attempt <? max_retries - 1
                         then sleep notify_retry_delay ;;
                              check_still_connected
                                "Client disconnected during notification registration"
                         else ret tt) w)) ->
  (forall last w, bounded n (start_notify_attempts rest last w)) ->
  forall last w, bounded (1 + (p + n)) (start_notify_attempts (attempt :: rest) last w).
Proof.
  intros Hp Hn last w. cbn [start_notify_attempts]. unfold try_except.
  apply bounded_catch.
  - unfold bind. apply (bounded_bind 0 1); [apply bounded_the_client|]. intros _ s.
    apply bounded_await_unit.
  - intros e g s Hg.
    destruct (in_BLEAK_EXCEPTIONS e); [|discriminate].
    injection Hg as <-.
    unfold bind. apply bounded_bind; [apply Hp|]. intros _ s'. apply Hn.
Qed.

Lemma bounded_register_for_state_notifications (w : World) :
  bounded 5 (_register_for_state_notifications w).
Proof.
  unfold _register_for_state_notifications. cbn [seq max_retries].
  apply (bounded_notify_attempt 0 [1; 2] 1 3).
  - intros w0. apply bounded_retry_pause.
  - apply (bounded_notify_attempt 1 [2] 1 1).
    + intros w0. apply bounded_retry_pause.
    + apply (bounded_notify_attempt 2 [] 0 0).
      * intros w0. cbn. constructor.
      * intros last w0. cbn. constructor.
Qed.

Lemma bounded_for_each {A} (call : A -> Dev unit) (l : list A) :
  (forall x w, bounded 0 (call x w)) -> forall w, bounded 0 (for_each call l w).
Proof.
  intros Hc. induction l as [|x l IH]; intros w; cbn [for_each].
  - constructor.
  - unfold bind. apply (bounded_bind 0 0); [apply Hc|]. intros _ s. apply IH.
Qed.

Lemma bounded_call_state_callback (cb : Callback DecoraBLEDeviceState)
    (s : DecoraBLEDeviceState) (w : World) :
  bounded 0 (call_state_callback cb s w).
Proof.
  unfold call_state_callback. cbn. destruct (cb_raises cb s); constructor.
Qed.

Lemma bounded_call_connection_callback (cb : Callback DecoraBLEDeviceSummary)
    (s : DecoraBLEDeviceSummary) (w : World) :
  bounded 0 (call_connection_callback cb s w).
Proof.
  unfold call_connection_callback. cbn. destruct (cb_raises cb s); constructor.
Qed.

Lemma bounded_read_state (w : World) : bounded 1 (_read_state w).
Proof.
  unfold _read_state, bind.
  apply (bounded_bind 1 0); [apply bounded_client_read|]. intros data s.
  apply (bounded_bind 0 0).
  - unfold _apply_device_state_data. destruct data as [|b0 [|b1 r]]; constructor.
  - intros _ s'. unfold fire_current_state, _fire_state_callbacks. cbn.
    apply bounded_for_each. intros cb w0. apply bounded_call_state_callback.
Qed.

Lemma bounded_summarize (w : World) : bounded 20 (_summarize w).
Proof.
  unfold _summarize, bind.
  apply (bounded_bind 5 15); [apply bounded_read_summary_descriptor|]. intros a1 s1.
  apply (bounded_bind 5 10); [apply bounded_read_summary_descriptor|]. intros a2 s2.
  apply (bounded_bind 5 5); [apply bounded_read_summary_descriptor|]. intros a3 s3.
  apply (bounded_bind 5 0); [apply bounded_read_summary_descriptor|]. intros a4 s4.
  apply (bounded_bind 0 0).
  { unfold decode. destruct (decode_utf8 a2); constructor. }
  intros m s5. apply (bounded_bind 0 0).
  { unfold decode. destruct (decode_utf8 a3); constructor. }
  intros mo s6. apply (bounded_bind 0 0).
  { rewrite revision_string_run. constructor. }
  intros rev s7. constructor.
Qed.

Lemma bounded_fail_connect (reported raised : exn) (w : World) :
  bounded 1 (fail_connect reported raised w).
Proof.
  unfold fail_connect, bind. cbn [update modify bindC].
  apply (bounded_bind 1 0).
  - unfold close_session_quietly. cbn.
    destruct (_client (_handle_device_connection (Some reported) (self w))); [|constructor].
    unfold suppress_Exception, try_except.
    apply (bounded_catch 1 0); [apply bounded_await_unit|].
    intros e g s Hg. destruct (is_Exception e); [|discriminate].
    injection Hg as <-. constructor.
  - intros _ s. cbn. constructor.
Qed.

Lemma bounded_establish_and_unlock (w : World) : bounded 3 (establish_and_unlock w).
Proof.
  unfold establish_and_unlock, try_except.
  apply (bounded_catch 2 1).
  - unfold bind. cbn [this bindC].
    apply (bounded_bind 1 1); [apply bounded_await|]. intros v s.
    apply (bounded_bind 0 1).
    { destruct v; constructor. }
    intros c s'. cbn [update modify bindC].
    unfold _unlock, bind. cbn [this bindC]. apply bounded_client_write.
  - intros e g s Hg.
    destruct (is_IncorrectAPIKeyError e).
    + injection Hg as <-. apply bounded_fail_connect.
    + destruct (is_Exception e); [|discriminate].
      injection Hg as <-. apply bounded_fail_connect.
Qed.

Lemma bounded_verify_and_subscribe (w : World) : bounded 29 (verify_and_subscribe w).
Proof.
  unfold verify_and_subscribe, try_except.
  apply (bounded_catch 28 1).
  - unfold bind.
    apply (bounded_bind 0 28); [apply bounded_check|]. intros _ s1.
    apply (bounded_bind 1 27); [apply bounded_sleep|]. intros _ s2.
    apply (bounded_bind 1 26).
    { unfold verify_unlock, try_except. apply (bounded_catch 1 0).
      - unfold bind. apply (bounded_bind 1 0); [apply bounded_client_read|].
        intros a s. constructor.
      - intros e g s Hg. destruct (is_Exception e); [|discriminate].
        injection Hg as <-. constructor. }
    intros _ s3.
    apply (bounded_bind 5 21); [apply bounded_register_for_state_notifications|].
    intros _ s4.
    apply (bounded_bind 20 1); [apply bounded_summarize|]. intros summary s5.
    cbn [update modify bindC].
    apply (bounded_bind 0 1).
    { unfold _fire_connection_callbacks. cbn.
      apply bounded_for_each. intros cb w0. apply bounded_call_connection_callback. }
    intros _ s6.
    apply (bounded_bind 1 0); [apply bounded_read_state|]. intros _ s7.
    apply (bounded_bind 0 0); [apply bounded_the_client|]. intros _ s8. constructor.
  - intros e g s Hg. destruct (in_BLEAK_EXCEPTIONS e); [|discriminate].
    injection Hg as <-. apply bounded_fail_connect.
Qed.

(** X23: a connection attempt always ends: whatever the transport answers
    and whenever the link drops, [_do_connect] awaits at most 32 operations
    (the retries are bounded and no failure loops), and given that many
    answers it returns or raises. *)
Theorem connect_attempt_ends (w : World) (script : list (IoReply * EnvAct)) :
  (forall w' o ops,
     run_dev _do_connect w script = Some (w', o, ops) ->
     List.length ops <= connect_attempt_bound)
  /\ (connect_attempt_bound <= List.length script ->
      exists w' o ops, run_dev _do_connect w script = Some (w', o, ops)).
Proof.
  assert (Hb : bounded connect_attempt_bound (_do_connect w)).
  { unfold _do_connect, bind.
    apply (bounded_bind 3 29); [apply bounded_establish_and_unlock|].
    intros _ s. apply bounded_verify_and_subscribe. }
  destruct (bounded_run interfere connect_attempt_bound (_do_connect w) Hb script)
    as [Hle Htot].
  split; [exact Hle|].
  intros Hlen. unfold run_dev.
  destruct (run interfere (_do_connect w) script) as [[[w' o] ops]|] eqn:E.
  - exists w', o, ops. reflexivity.
  - exfalso. exact (Htot Hlen eq_refl).
Qed.

(** ** What a connection attempt that returns has done *)

Lemma ensures_run {A} (P : World -> Outcome A -> Prop) (c : Coro World A) :
  ensures P c ->
  forall script s o ops, run interfere c script = Some (s, o, ops) -> P s o.
Proof.
  induction c as [s0 r|s0 op k IH]; intros H script s o ops E; cbn in *.
  - inversion E; subst. exact H.
  - destruct script as [|[r act] rest]; [discriminate|].
    destruct (run interfere (k r (interfere act s0)) rest) as [[[s1 o1] ops1]|] eqn:E1;
      [|discriminate].
    inversion E; subst. exact (IH r (interfere act s0) (H r act) rest s o ops1 E1).
Qed.

Lemma ensures_weaken {A} (P Q : World -> Outcome A -> Prop) (c : Coro World A) :
  (forall s r, P s r -> Q s r) -> ensures P c -> ensures Q c.
Proof.
  intros HPQ. induction c as [s0 r|s0 op k IH]; cbn; intros H.
  - apply HPQ. exact H.
  - intros r act. apply IH. apply H.
Qed.

Lemma ensures_bind {A B} (Q : World -> Outcome B -> Prop) (c : Coro World A)
    (f : A -> Dev B) :
  ensures (fun s r => match r with
                      | Returned a => ensures Q (f a s)
                      | Raised e => Q s (Raised e)
                      end) c ->
  ensures Q (bindC c f).
Proof.
  induction c as [s0 r|s0 op k IH]; cbn; intros H.
  - destruct r; exact H.
  - intros r act. apply IH. apply H.
Qed.

Lemma ensures_catch {A} (Q : World -> Outcome A -> Prop) (c : Coro World A)
    (h : exn -> option (Dev A)) :
  ensures (fun s r => match r with
                      | Returned a => Q s (Returned a)
                      | Raised e => match h e with
                                    | Some g => ensures Q (g s)
                                    | None => Q s (Raised e)
                                    end
                      end) c ->
  ensures Q (catchC c h).
Proof.
  induction c as [s0 r|s0 op k IH]; cbn; intros H.
  - destruct r as [a|e]; [exact H|]. destruct (h e); exact H.
  - intros r act. apply IH. apply H.
Qed.

Lemma stable_interfere (I : DecoraBLEDevice -> Prop) (act : EnvAct) (w : World) :
  stable I -> I (self w) -> I (self (interfere act w)).
Proof.
  intros Hs H. destruct act; cbn; [exact H | apply Hs; exact H].
Qed.

(** Sequencing under an invariant, for a goal that only speaks of runs
    that return. *)
Lemma ensures_then {A B} (I : DecoraBLEDevice -> Prop)
    (Q : World -> Outcome B -> Prop) (c : Coro World A) (f : A -> Dev B) :
  ensures (fun s _ => I (self s)) c ->
  (forall a s, I (self s) -> ensures Q (f a s)) ->
  (forall s e, Q s (Raised e)) ->
  ensures Q (bindC c f).
Proof.
  intros Hc Hf Hr. apply ensures_bind.
  apply (ensures_weaken (fun s _ => I (self s))); [|exact Hc].
  intros s r Hs. destruct r; [apply Hf; exact Hs | apply Hr].
Qed.

Lemma keeps_await (I : DecoraBLEDevice -> Prop) (op : IoOp) (w : World) :
  stable I -> I (self w) -> ensures (fun s (_ : Outcome Value) => I (self s)) (await op w).
Proof.
  intros Hs H. cbn. intros r act. destruct r; cbn; apply stable_interfere; assumption.
Qed.

Lemma keeps_the_client (I : DecoraBLEDevice -> Prop) (w : World) :
  I (self w) -> ensures (fun s (_ : Outcome BleakClient) => I (self s)) (the_client w).
Proof.
  intros H. unfold the_client. cbn. destruct (_client (self w)); cbn; exact H.
Qed.

Lemma keeps_bind {A B} (I : DecoraBLEDevice -> Prop) (c : Coro World A) (f : A -> Dev B) :
  keeps I c -> (forall a s, I (self s) -> keeps I (f a s)) -> keeps I (bindC c f).
Proof.
  intros Hc Hf. unfold keeps. apply ensures_bind.
  apply (ensures_weaken (fun s _ => I (self s))); [|exact Hc].
  intros s r Hs. destruct r; [apply Hf; exact Hs | exact Hs].
Qed.

Lemma keeps_catch {A} (I : DecoraBLEDevice -> Prop) (c : Coro World A)
    (h : exn -> option (Dev A)) :
  keeps I c ->
  (forall e g s, h e = Some g -> I (self s) -> keeps I (g s)) ->
  keeps I (catchC c h).
Proof.
  intros Hc Hh. unfold keeps. apply ensures_catch.
  apply (ensures_weaken (fun s _ => I (self s))); [|exact Hc].
  intros s r Hs. destruct r as [a|e]; [exact Hs|].
  destruct (h e) as [g|] eqn:E; [apply (Hh e g s E Hs) | exact Hs].
Qed.

Lemma keeps_fin {A} (I : DecoraBLEDevice -> Prop) (w : World) (r : Outcome A) :
  I (self w) -> keeps I (Fin w r).
Proof. intros H. exact H. Qed.

Lemma keeps_await_unit (I : DecoraBLEDevice -> Prop) (op : IoOp) (w : World) :
  stable I -> I (self w) -> keeps I ((_ <- await op ;; ret tt) w).
Proof.
  intros Hs H. unfold bind. apply keeps_bind; [apply keeps_await; assumption|].
  intros a s Hi. exact Hi.
Qed.

Lemma keeps_client_read (I : DecoraBLEDevice -> Prop) (u : Uuid) (w : World) :
  stable I -> I (self w) -> keeps I (client_read u w).
Proof.
  intros Hs H. unfold client_read, bind.
  apply keeps_bind; [apply keeps_the_client; exact H|]. intros _ s Hi.
  apply keeps_bind; [apply keeps_await; assumption|]. intros v s' Hi'.
  destruct v; exact Hi'.
Qed.

Lemma keeps_pause (I : DecoraBLEDevice -> Prop) (attempt : nat) (delay : float)
    (msg : string) (w : World) :
  stable I -> I (self w) ->
  keeps I ((if attempt <? max_retries - 1
            then sleep delay ;; check_still_connected msg
            else ret tt) w).
Proof.
  intros Hs H. destruct (attempt <? max_retries - 1); [|exact H].
  unfold bind. apply keeps_bind; [apply keeps_await_unit; assumption|].
  intros _ s Hi. unfold check_still_connected. cbn.
  destruct (negb (device_is_connected (self s))); exact Hi.
Qed.

Lemma keeps_read_summary_attempts (I : DecoraBLEDevice -> Prop) (descriptor : string)
    (u : Uuid) (attempts : list nat) :
  stable I ->
  forall last w, I (self w) -> keeps I (read_summary_attempts descriptor u attempts last w).
Proof.
  intros Hs. induction attempts as [|attempt rest IH]; intros last w H.
  - cbn. exact H.
  - cbn [read_summary_attempts]. unfold try_except.
    apply keeps_catch; [apply keeps_client_read; assumption|].
    intros e g s Hg Hi. destruct (in_BLEAK_EXCEPTIONS e); [|discriminate].
    injection Hg as <-. destruct (is_authorization_error e); [|exact Hi].
    unfold bind. apply keeps_bind; [apply keeps_pause; assumption|].
    intros _ s' Hi'. apply IH. exact Hi'.
Qed.

Lemma keeps_start_notify_attempts (I : DecoraBLEDevice -> Prop) (attempts : list nat) :
  stable I ->
  forall last w, I (self w) -> keeps I (start_notify_attempts attempts last w).
Proof.
  intros Hs. induction attempts as [|attempt rest IH]; intros last w H.
  - cbn. exact H.
  - cbn [start_notify_attempts]. unfold try_except.
    apply keeps_catch.
    + unfold bind. apply keeps_bind; [apply keeps_the_client; exact H|].
      intros _ s Hi. apply keeps_await_unit; assumption.
    + intros e g s Hg Hi. destruct (in_BLEAK_EXCEPTIONS e); [|discriminate].
      injection Hg as <-.
      unfold bind. apply keeps_bind; [apply keeps_pause; assumption|].
      intros _ s' Hi'. apply IH. exact Hi'.
Qed.

Lemma keeps_summarize (I : DecoraBLEDevice -> Prop) (w : World) :
  stable I -> I (self w) -> keeps I (_summarize w).
Proof.
  intros Hs H. unfold _summarize, read_summary_descriptor, bind.
  apply keeps_bind; [apply keeps_read_summary_attempts; assumption|]. intros a1 s1 H1.
  apply keeps_bind; [apply keeps_read_summary_attempts; assumption|]. intros a2 s2 H2.
  apply keeps_bind; [apply keeps_read_summary_attempts; assumption|]. intros a3 s3 H3.
  apply keeps_bind; [apply keeps_read_summary_attempts; assumption|]. intros a4 s4 H4.
  apply keeps_bind.
  { unfold decode. destruct (decode_utf8 a2); exact H4. }
  intros m s5 H5. apply keeps_bind.
  { unfold decode. destruct (decode_utf8 a3); exact H5. }
  intros mo s6 H6. apply keeps_bind.
  { rewrite revision_string_run. exact H6. }
  intros rev s7 H7. exact H7.
Qed.

Lemma keeps_for_each {A} (I : DecoraBLEDevice -> Prop) (call : A -> Dev unit) (l : list A) :
  (forall x w, I (self w) -> keeps I (call x w)) ->
  forall w, I (self w) -> keeps I (for_each call l w).
Proof.
  intros Hc. induction l as [|x l IH]; intros w H; cbn [for_each].
  - exact H.
  - unfold bind. apply keeps_bind; [apply Hc; exact H|]. intros _ s Hi. apply IH. exact Hi.
Qed.

Lemma keeps_read_state (I : DecoraBLEDevice -> Prop) (w : World) :
  stable I -> mirror_blind I -> I (self w) -> keeps I (_read_state w).
Proof.
  intros Hs Hm H. unfold _read_state, bind.
  apply keeps_bind; [apply keeps_client_read; assumption|]. intros data s Hi.
  apply keeps_bind.
  - unfold _apply_device_state_data. destruct data as [|b0 [|b1 r]]; try exact Hi.
    cbn. apply Hm. exact Hi.
  - intros _ s' Hi'. unfold fire_current_state, _fire_state_callbacks. cbn.
    apply keeps_for_each; [|exact Hi'].
    intros cb w0 H0. unfold call_state_callback. cbn.
    destruct (cb_raises cb (_state (self s'))); exact H0.
Qed.

Lemma ensures_anything {A} (c : Coro World A) : ensures (fun _ _ => True) c.
Proof. induction c as [s r|s op k IH]; cbn; [exact I | intros r act; apply IH]. Qed.

Lemma ensures_after {A B} (Q : World -> Outcome B -> Prop) (c : Coro World A)
    (f : A -> Dev B) :
  (forall a s, ensures Q (f a s)) -> (forall s e, Q s (Raised e)) ->
  ensures Q (bindC c f).
Proof.
  intros Hf Hr. apply (ensures_then (fun _ => True) Q c f); [apply ensures_anything| |exact Hr].
  intros a s _. apply Hf.
Qed.

Lemma fail_connect_never_returns (P : DecoraBLEDevice -> Prop) (reported raised : exn)
    (w : World) :
  ensures (on_return P) (fail_connect reported raised w).
Proof.
  unfold fail_connect, bind.
  apply ensures_after; [|intros; exact I]. intros _ s1.
  apply ensures_after; [|intros; exact I]. intros _ s2.
  apply ensures_after; [|intros; exact I]. intros _ s3.
  exact I.
Qed.

Lemma linked_stable : stable linked.
Proof. intros d _. exact I. Qed.

Lemma attempt_inv_stable : stable attempt_inv.
Proof.
  intros d (Hl & Hs & Hf). split; [exact I|]. split; [left; reflexivity|].
  intros f E. apply Hf. exact E.
Qed.

Lemma attempt_inv_mirror_blind : mirror_blind attempt_inv.
Proof. intros st d H. exact H. Qed.

Lemma attempt_inv_succeeded (d : DecoraBLEDevice) (c : BleakClient) :
  attempt_inv d -> _client d = Some c -> attempt_succeeded d.
Proof.
  intros (Hl & Hs & Hf) E. unfold attempt_succeeded, device_is_connected.
  unfold linked in Hl. rewrite E in *. split; [exact Hl|]. split.
  - destruct Hs as [Hs|Hs]; [congruence | exact Hs].
  - intros Ep. specialize (Hf FPending Ep). discriminate.
Qed.

Lemma handle_connection_resolves (d : DecoraBLEDevice) :
  future_resolved (_handle_device_connection None d).
Proof.
  unfold _handle_device_connection, future_resolved.
  destruct (_device_connection_future d) as [f|] eqn:E.
  - destruct (done f) eqn:Ed.
    + intros f' E'. rewrite E in E'. injection E' as <-. exact Ed.
    + intros f' E'. cbn in E'. injection E' as <-. reflexivity.
  - intros f' E'. rewrite E in E'. discriminate.
Qed.

Lemma handle_connection_keeps_client (e : option exn) (d : DecoraBLEDevice) :
  _client (_handle_device_connection e d) = _client d /\
  _summary (_handle_device_connection e d) = _summary d.
Proof.
  unfold _handle_device_connection.
  destruct (_device_connection_future d) as [f|]; [|split; reflexivity].
  destruct (done f); [split; reflexivity|]. destruct e; split; reflexivity.
Qed.

Lemma ensures_check {B} (Q : World -> Outcome B -> Prop) (msg : string)
    (f : unit -> Dev B) (w : World) :
  (device_is_connected (self w) = true -> ensures Q (f tt w)) ->
  (forall s e, Q s (Raised e)) ->
  ensures Q (bindC (check_still_connected msg w) f).
Proof.
  intros Hf Hr. unfold check_still_connected, bind, this. cbn [bindC].
  destruct (device_is_connected (self w)); cbn [negb bindC raise ret].
  - apply Hf. reflexivity.
  - apply Hr.
Qed.

Lemma verify_and_subscribe_ensures (w : World) :
  ensures (on_return attempt_succeeded) (verify_and_subscribe w).
Proof.
  unfold verify_and_subscribe, try_except. apply ensures_catch.
  apply (ensures_weaken (on_return attempt_succeeded)).
  { intros s r H. destruct r as [a|e]; [exact H|].
    destruct (in_BLEAK_EXCEPTIONS e); [apply fail_connect_never_returns | exact I]. }
  unfold bind at 1. apply ensures_check; [|intros; exact I]. intros Hc.
  assert (Hl : linked (self w)).
  { unfold linked. unfold device_is_connected in Hc.
    destruct (_client (self w)); [exact Hc | exact I]. }
  apply (ensures_then linked); [apply (keeps_await_unit linked); [apply linked_stable|exact Hl]| |intros; exact I].
  intros _ s1 H1. unfold bind at 1.
  apply (ensures_then linked); [| |intros; exact I].
  { unfold verify_unlock, try_except. apply (keeps_catch linked).
    - unfold bind. apply keeps_bind; [apply keeps_client_read; [apply linked_stable|exact H1]|].
      intros a s Hi. exact Hi.
    - intros e g s Hg Hi. destruct (is_Exception e); [|discriminate].
      injection Hg as <-. exact Hi. }
  intros _ s2 H2. unfold bind at 1.
  apply (ensures_then linked); [| |intros; exact I].
  { apply keeps_start_notify_attempts; [apply linked_stable|exact H2]. }
  intros _ s3 H3. unfold bind at 1.
  apply (ensures_then linked); [| |intros; exact I].
  { apply keeps_summarize; [apply linked_stable|exact H3]. }
  intros summary s4 H4. unfold bind at 1. cbn.
  assert (Hinv : attempt_inv
            (_handle_device_connection None (set_summary (Some summary) (self s4)))).
  { destruct (handle_connection_keeps_client None (set_summary (Some summary) (self s4)))
      as [Ec Es].
    split; [|split].
    - unfold linked. rewrite Ec. exact H4.
    - right. rewrite Es. cbn. discriminate.
    - apply handle_connection_resolves. }
  unfold bind at 1.
  apply (ensures_then attempt_inv); [| |intros; exact I].
  { unfold _fire_connection_callbacks, bind. cbn.
    apply keeps_for_each; [|exact Hinv].
    intros cb w0 H0. unfold call_connection_callback. cbn.
    destruct (cb_raises cb summary); exact H0. }
  intros _ s5 H5. unfold bind at 1.
  apply (ensures_then attempt_inv); [| |intros; exact I].
  { apply keeps_read_state;
      [apply attempt_inv_stable | apply attempt_inv_mirror_blind | exact H5]. }
  intros _ s6 H6. unfold bind, the_client, this. cbn.
  destruct (_client (self s6)) as [c|] eqn:Ec; cbn; [|exact I].
  exact (attempt_inv_succeeded (self s6) c H6 Ec).
Qed.

(** X24: a connection attempt that returns has succeeded: for every state
    of the device, every sequence of transport answers and every moment at
    which the link may drop, if [_do_connect] returns then the device is
    connected, its summary is set and the connection future is no longer
    pending.  (Every other run raises; the closing debug line's read of
    [self._client.is_connected] is what rules out a link lost during the
    initial state read.) *)
Theorem returning_attempt_is_connected
    (w : World) (script : list (IoReply * EnvAct)) (w' : World) (ops : list IoOp) :
  run_dev _do_connect w script = Some (w', Returned tt, ops) ->
  attempt_succeeded (self w').
Proof.
  intros E. unfold run_dev in E.
  refine (ensures_run (on_return attempt_succeeded) (_do_connect w) _ script w' (Returned tt) ops E).
  unfold _do_connect, bind. apply ensures_after; [|intros; exact I].
  intros _ s. apply verify_and_subscribe_ensures.
Qed.

Lemma returning_attempt_is_connected_witness :
  exists w' ops,
    run_dev _do_connect (started_dimmer [xaa; xbb]) connect_succeeds
    = Some (w', Returned tt, ops)
    /\ attempt_succeeded (self w').
Proof.
  eexists. eexists. split.
  - vm_compute. reflexivity.
  - eapply (returning_attempt_is_connected (started_dimmer [xaa; xbb]) connect_succeeds).
    vm_compute. reflexivity.
Defined.
